(** * mail-in-a-box-rest-api: the rate limiter and the mail handler of [main.go]

    A shallow embedding of [src/main.go].  The per-user token bucket
    ([RateLimiter], [NewRateLimiter], [Allow], [cleanupInactiveBuckets]) is
    modelled over stdpp's finite maps; Go's [int] is a 64-bit integer whose
    wrap-around is written out; [time.Time] is an instant of the process's
    monotonic clock in nanoseconds and is an explicit argument of every
    operation that reads the clock; [float64] is the kernel's binary64, and
    what the limiter computes in it is bounded through the specification of
    its rounding. *)

From Stdlib Require Import ZArith Lia Bool List Ascii String Floats Reals Lra.
From stdpp Require Import gmap strings list fin_maps.

Local Open Scope Z_scope.

(** ** Go's [int] on a 64-bit platform *)

Module GoInt.

Definition min_int : Z := - 2 ^ 63.
Definition max_int : Z := 2 ^ 63 - 1.

(** Two's-complement wrap-around of the mathematical result. *)
Definition wrap (z : Z) : Z := (z + 2 ^ 63) mod 2 ^ 64 - 2 ^ 63.

Definition in_range (z : Z) : Prop := min_int <= z <= max_int.

Definition in_rangeb (z : Z) : bool := (min_int <=? z) && (z <=? max_int).

End GoInt.

(** ** [float64] and its conversions *)

Module GoFloat.

(** [float64(z)]: the binary64 number nearest to [z], ties to even. *)
Definition float64_of_int (z : Z) : float :=
  SF2Prim (binary_normalize prec emax z 0 false).

(** The integer part of a finite float, truncated toward zero. *)
Definition truncate (s : bool) (m : positive) (e : Z) : Z :=
  let a := if 0 <=? e then Z.shiftl (Zpos m) e else Z.shiftr (Zpos m) (- e) in
  if s then - a else a.

(** [int(f)]: truncation toward zero.  When the value does not fit an
    [int] the language leaves the result to the implementation; this is
    what amd64 produces (the "integer indefinite" value). *)
Definition int_of_float64 (f : float) : Z :=
  match Prim2SF f with
  | S754_zero _ => 0
  | S754_finite s m e =>
      let v := truncate s m e in
      if GoInt.in_rangeb v then v else GoInt.min_int
  | S754_infinity _ | S754_nan => GoInt.min_int
  end.

End GoFloat.

(** ** The parts of package [time] the limiter uses *)

Module GoTime.

(** A [time.Duration] is an [int64] count of nanoseconds. *)
Definition Duration := Z.

Definition Nanosecond : Duration := 1.
Definition Microsecond : Duration := 1000 * Nanosecond.
Definition Millisecond : Duration := 1000 * Microsecond.
Definition Second : Duration := 1000 * Millisecond.
Definition Minute : Duration := 60 * Second.
Definition Hour : Duration := 60 * Minute.

Definition minDuration : Duration := GoInt.min_int.
Definition maxDuration : Duration := GoInt.max_int.

(** An instant: the reading of the monotonic clock, in nanoseconds. *)
Definition Time := Z.

(** [t.Sub(u)]: the duration [t - u], saturated at the largest and the
    smallest duration. *)
Definition Sub (t u : Time) : Duration :=
  Z.max minDuration (Z.min maxDuration (t - u)).

(** [t.Add(d)] *)
Definition Add (t : Time) (d : Duration) : Time := t + d.

(** [t.Before(u)] *)
Definition Before (t u : Time) : bool := t <? u.

(** [d.Seconds()]: whole seconds plus the fraction, as in the library:
    [sec := d / Second; nsec := d % Second;
     return float64(sec) + float64(nsec)/1e9]. *)
Definition Seconds (d : Duration) : float :=
  let sec := Z.quot d Second in
  let nsec := Z.rem d Second in
  (GoFloat.float64_of_int sec + GoFloat.float64_of_int nsec / 1e9)%float.

End GoTime.

(** ** The rate limiter *)

Module Limiter.

Import GoTime.

(** [RateLimiter]; the mutex is not a field of the model: every operation
    below is one critical section. *)
Record RateLimiter := mkRateLimiter {
  tokens : gmap string Z;
  lastRefill : gmap string Time;
  maxPerSec : Z;
  bucketSize : Z;
  cleanupInterval : Duration
}.

(** Reading [rl.tokens[user]]: a missing key reads as the zero value. *)
Definition tokensOf (rl : RateLimiter) (user : string) : Z :=
  default 0 (tokens rl !! user).

Definition NewRateLimiter (maxPerSec : Z) : RateLimiter :=
  let bucketSize := GoInt.wrap (maxPerSec * 2) in
  {| tokens := ∅;
     lastRefill := ∅;
     maxPerSec := maxPerSec;
     bucketSize := bucketSize;
     cleanupInterval := 30 * Minute |}.

Definition min (a b : Z) : Z := if a <? b then a else b.

(** [tokensToAdd := int(elapsed * float64(rl.maxPerSec))] for an elapsed
    duration [d]. *)
Definition tokensToAdd (d : Duration) (maxPerSec : Z) : Z :=
  GoFloat.int_of_float64 (Seconds d * GoFloat.float64_of_int maxPerSec)%float.

Definition setBucket (rl : RateLimiter) (user : string) (n : Z) (t : Time)
  : RateLimiter :=
  {| tokens := <[user := n]> (tokens rl);
     lastRefill := <[user := t]> (lastRefill rl);
     maxPerSec := maxPerSec rl;
     bucketSize := bucketSize rl;
     cleanupInterval := cleanupInterval rl |}.

Definition setTokens (rl : RateLimiter) (user : string) (n : Z) : RateLimiter :=
  {| tokens := <[user := n]> (tokens rl);
     lastRefill := lastRefill rl;
     maxPerSec := maxPerSec rl;
     bucketSize := bucketSize rl;
     cleanupInterval := cleanupInterval rl |}.

(** [Allow], with [now] the value [time.Now()] returns inside it. *)
Definition Allow (now : Time) (user : string) (rl : RateLimiter)
  : bool * RateLimiter :=
  let rl1 :=
    match lastRefill rl !! user with
    | None => setBucket rl user (bucketSize rl) now
    | Some lastTime =>
        let elapsed := Sub now lastTime in
        let tokensToAdd := tokensToAdd elapsed (maxPerSec rl) in
        if 0 <? tokensToAdd then
          setBucket rl user
            (min (GoInt.wrap (tokensOf rl user + tokensToAdd)) (bucketSize rl)) now
        else rl
    end in
  if tokensOf rl1 user <=? 0 then (false, rl1)
  else (true, setTokens rl1 user (GoInt.wrap (tokensOf rl1 user - 1))).

Definition deleteUser (rl : RateLimiter) (user : string) : RateLimiter :=
  {| tokens := delete user (tokens rl);
     lastRefill := delete user (lastRefill rl);
     maxPerSec := maxPerSec rl;
     bucketSize := bucketSize rl;
     cleanupInterval := cleanupInterval rl |}.

(** The users the sweep at [now] finds inactive. *)
Definition inactiveUsers (now : Time) (rl : RateLimiter) : list string :=
  let inactiveThreshold := Add now (-1 * Hour) in
  (filter (λ p, Before p.2 inactiveThreshold = true)
          (map_to_list (lastRefill rl))).*1.

(** [cleanupInactiveBuckets], with [now] the clock reading it takes.  The
    log line it prints is not part of the state. *)
Definition cleanupInactiveBuckets (now : Time) (rl : RateLimiter) : RateLimiter :=
  foldl deleteUser rl (inactiveUsers now rl).

(** What can happen to a limiter after it is built. *)
Inductive event :=
| EvAllow (now : Time) (user : string)
| EvCleanup (now : Time).

Definition step (rl : RateLimiter) (ev : event) : RateLimiter :=
  match ev with
  | EvAllow now user => (Allow now user rl).2
  | EvCleanup now => cleanupInactiveBuckets now rl
  end.

Definition run (rl : RateLimiter) (evs : list event) : RateLimiter :=
  foldl step rl evs.

(** The state after steps 1 and 2 of the algorithm of the specification:
    a first sight fills the bucket, otherwise the elapsed time is turned
    into tokens. *)
Definition refilled (now : Time) (user : string) (rl : RateLimiter)
  : RateLimiter :=
  match lastRefill rl !! user with
  | None => setBucket rl user (bucketSize rl) now
  | Some lastTime =>
      let n := tokensToAdd (Sub now lastTime) (maxPerSec rl) in
      if 0 <? n then
        setBucket rl user (min (GoInt.wrap (tokensOf rl user + n)) (bucketSize rl)) now
      else rl
  end.

End Limiter.

(** ** The parts of packages [strings], [encoding/base64] and [regexp] the
       handler uses.  A Go string is a sequence of bytes: a [string] here. *)

Module GoStrings.

Definition code (c : ascii) : Z := Z.of_N (N_of_ascii c).

Definition byte (z : Z) : ascii := ascii_of_N (Z.to_N (Z.land z 255)).

Definition isUpper (c : ascii) : bool := (65 <=? code c) && (code c <=? 90).
Definition isLower (c : ascii) : bool := (97 <=? code c) && (code c <=? 122).
Definition isDigit (c : ascii) : bool := (48 <=? code c) && (code c <=? 57).
Definition isASCII (c : ascii) : bool := code c <? 128.

Definition toLower (c : ascii) : ascii :=
  if isUpper c then byte (code c + 32) else c.

(** [unicode.ToTitle] on an ASCII character. *)
Definition toTitle (c : ascii) : ascii :=
  if isLower c then byte (code c - 32) else c.

(** [strings.HasPrefix] *)
Fixpoint HasPrefix (s prefix : string) : bool :=
  match prefix, s with
  | EmptyString, _ => true
  | String p prefix', String c s' => Ascii.eqb c p && HasPrefix s' prefix'
  | String _ _, EmptyString => false
  end.

(** The slice [s[n:]] (the handler takes it only when [n <= len(s)]). *)
Fixpoint sliceFrom (n : nat) (s : string) : string :=
  match n, s with
  | O, _ => s
  | S n', String _ s' => sliceFrom n' s'
  | S _, EmptyString => EmptyString
  end.

(** [strings.Contains(s, sep)] for a separator of one byte. *)
Fixpoint Contains (s : string) (sep : ascii) : bool :=
  match s with
  | EmptyString => false
  | String c s' => Ascii.eqb c sep || Contains s' sep
  end.

(** [strings.Cut]-like split at the first [sep]: the text before it and
    the text after it, when there is one. *)
Fixpoint cut (s : string) (sep : ascii) : option (string * string) :=
  match s with
  | EmptyString => None
  | String c s' =>
      if Ascii.eqb c sep then Some (EmptyString, s')
      else match cut s' sep with
           | Some (before, after) => Some (String c before, after)
           | None => None
           end
  end.

(** [strings.SplitN(s, sep, 2)] for a separator of one byte. *)
Definition SplitN2 (s : string) (sep : ascii) : list string :=
  match cut s sep with
  | Some (before, after) => [before; after]
  | None => [s]
  end.

(** [strings.Split(s, sep)] for a separator of one byte: the pieces
    between the separators, with the current piece accumulated in [cur]. *)
Fixpoint splitFrom (cur : string) (s : string) (sep : ascii) : list string :=
  match s with
  | EmptyString => [cur]
  | String c s' =>
      if Ascii.eqb c sep then cur :: splitFrom EmptyString s' sep
      else splitFrom (cur +:+ String c EmptyString) s' sep
  end.

Definition Split (s : string) (sep : ascii) : list string :=
  splitFrom EmptyString s sep.

(** [strings.Join] *)
Fixpoint Join (elems : list string) (sep : string) : string :=
  match elems with
  | [] => EmptyString
  | [e] => e
  | e :: rest => e +:+ sep +:+ Join rest sep
  end.

(** [isSeparator] of package [strings], on ASCII: everything but letters,
    digits and the underscore separates words. *)
Definition isSeparator (c : ascii) : bool :=
  negb (isDigit c || isLower c || isUpper c || Ascii.eqb c "_").

(** The mapping [strings.Title] applies, on text that is ASCII throughout:
    the characters that begin a word are mapped to title case; [prev] is
    the character before, a space at the start. *)
Fixpoint titleFrom (prev : ascii) (s : string) : string :=
  match s with
  | EmptyString => EmptyString
  | String c s' =>
      String (if isASCII prev && isSeparator prev then toTitle c else c)
             (titleFrom c s')
  end.

Fixpoint allASCII (s : string) : bool :=
  match s with
  | EmptyString => true
  | String c s' => isASCII c && allASCII s'
  end.

(** [strings.Title].  On text that is ASCII throughout every byte is a
    rune, and the result is computed by [titleFrom].  On any other text
    the result rests on the UTF-8 decoding of [strings.Map] (an invalid
    byte becomes U+FFFD) and on the tables of package [unicode]
    ([IsLetter], [IsDigit], [IsSpace], [ToTitle]), which are not part of
    the model: [titleUnicode] stands for the library there, and what
    follows holds for every such function. *)
Definition Title (titleUnicode : string -> string) (s : string) : string :=
  if allASCII s then titleFrom " " s else titleUnicode s.

End GoStrings.

Module Base64.

Import GoStrings.

(** The decode map of the standard alphabet. *)
Definition decodeMap (c : ascii) : option Z :=
  if isUpper c then Some (code c - 65)
  else if isLower c then Some (code c - 97 + 26)
  else if isDigit c then Some (code c - 48 + 52)
  else if code c =? 43 then Some 62
  else if code c =? 47 then Some 63
  else None.

Definition padChar : ascii := "="%char.

Definition val (a b c d : Z) : Z :=
  Z.lor (Z.lor (Z.lor (Z.shiftl a 18) (Z.shiftl b 12)) (Z.shiftl c 6)) d.

(** The quanta of four characters, once the line breaks are dropped: a
    full quantum gives three bytes; the last one may end in one or two
    padding characters, and nothing may follow the padding. *)
Fixpoint decodeQuanta (src : list ascii) : option (list ascii) :=
  match src with
  | [] => Some []
  | a :: b :: c :: d :: rest =>
      match decodeMap a, decodeMap b with
      | Some x, Some y =>
          match decodeMap c, decodeMap d with
          | Some z, Some w =>
              let v := val x y z w in
              match decodeQuanta rest with
              | Some out =>
                  Some (byte (Z.shiftr v 16) :: byte (Z.shiftr v 8) :: byte v :: out)
              | None => None
              end
          | Some z, None =>
              let v := val x y z 0 in
              if Ascii.eqb d padChar && bool_decide (rest = [])
              then Some [byte (Z.shiftr v 16); byte (Z.shiftr v 8)]
              else None
          | None, _ =>
              let v := val x y 0 0 in
              if Ascii.eqb c padChar && Ascii.eqb d padChar && bool_decide (rest = [])
              then Some [byte (Z.shiftr v 16)]
              else None
          end
      | _, _ => None
      end
  | _ => None
  end.

Definition isLineBreak (c : ascii) : bool :=
  Ascii.eqb c "010"%char || Ascii.eqb c "013"%char.

(** [base64.StdEncoding.DecodeString]: [None] is the error result.  The
    decoder skips carriage returns and line feeds wherever they stand. *)
Definition DecodeString (s : string) : option string :=
  match decodeQuanta (List.filter (fun c => negb (isLineBreak c)) (list_ascii_of_string s)) with
  | Some out => Some (string_of_list_ascii out)
  | None => None
  end.

End Base64.

(** ** [isHTML] *)

Module Html.

Import GoStrings.

(** A literal of the pattern under the flag [(?i)]: ASCII letters match in
    either case. *)
Fixpoint foldPrefix (lit s : string) : bool :=
  match lit, s with
  | EmptyString, _ => true
  | String p lit', String c s' => Ascii.eqb (toLower c) (toLower p) && foldPrefix lit' s'
  | String _ _, EmptyString => false
  end.

(** [\s] of the pattern syntax: tab, line feed, form feed, carriage
    return, space. *)
Definition isSpace (c : ascii) : bool :=
  let n := code c in
  (n =? 9) || (n =? 10) || (n =? 12) || (n =? 13) || (n =? 32).

(** [\s*href] under [(?i)]. *)
Fixpoint spacesThenHref (s : string) : bool :=
  foldPrefix "href" s ||
  match s with
  | String c s' => isSpace c && spacesThenHref s'
  | EmptyString => false
  end.

(** [<a\s+href] *)
Definition anchorHref (s : string) : bool :=
  match s with
  | String lt (String a (String sp rest)) =>
      Ascii.eqb lt "<" && Ascii.eqb (toLower a) "a" && isSpace sp && spacesThenHref rest
  | _ => false
  end.

(** [<span]: under [(?i)] the letter s also matches U+017F (LATIN SMALL
    LETTER LONG S), the bytes C5 BF. *)
Definition spanTag (s : string) : bool :=
  match s with
  | String lt rest =>
      Ascii.eqb lt "<" &&
      match rest with
      | String c rest' =>
          (Ascii.eqb (toLower c) "s" && foldPrefix "pan" rest') ||
          match rest' with
          | String c' rest'' =>
              (code c =? 197) && (code c' =? 191) && foldPrefix "pan" rest''
          | EmptyString => false
          end
      | EmptyString => false
      end
  | EmptyString => false
  end.

(** [<h[1-6]] *)
Definition heading (s : string) : bool :=
  match s with
  | String lt (String h (String d _)) =>
      Ascii.eqb lt "<" && Ascii.eqb (toLower h) "h" && (49 <=? code d) && (code d <=? 54)
  | _ => false
  end.

(** One of the alternatives of
    [(?i)<html|<body|<div|<p>|<table|<a\s+href|<img|<span|<h[1-6]|<!DOCTYPE html>]
    matches at the start of [s]. *)
Definition matchHere (s : string) : bool :=
  foldPrefix "<html" s || foldPrefix "<body" s || foldPrefix "<div" s ||
  foldPrefix "<p>" s || foldPrefix "<table" s || anchorHref s ||
  foldPrefix "<img" s || spanTag s || heading s ||
  foldPrefix "<!DOCTYPE html>" s.

(** [htmlPattern.MatchString(content)]: a match anywhere in the text. *)
Fixpoint MatchString (s : string) : bool :=
  matchHere s ||
  match s with
  | EmptyString => false
  | String _ s' => MatchString s'
  end.

Definition isHTML (content : string) : bool := MatchString content.

End Html.

(** ** The mail handler *)

Module Handler.

Import GoStrings GoTime Limiter.

(** [EmailRequest] *)
Record EmailRequest := mkEmailRequest {
  To : list string;
  Subject : string;
  Content : string;
  Title : string
}.

(** What the handler reads of an [*http.Request]: the method, the value
    [r.Header.Get("Authorization")] (empty when the header is absent) and
    the body. *)
Record Request := mkRequest {
  Method : string;
  Authorization : string;
  Body : string
}.

(** What the handler writes to the [http.ResponseWriter]. *)
Record Response := mkResponse {
  StatusCode : Z;
  ContentType : string;
  ResponseBody : string
}.

Definition MethodPost : string := "POST".
Definition StatusOK : Z := 200.
Definition StatusBadRequest : Z := 400.
Definition StatusUnauthorized : Z := 401.
Definition StatusMethodNotAllowed : Z := 405.
Definition StatusTooManyRequests : Z := 429.
Definition StatusInternalServerError : Z := 500.

Definition newline : string := String "010"%char EmptyString.
Definition quote : string := String "034"%char EmptyString.

(** [http.Error(w, msg, code)] *)
Definition httpError (msg : string) (code : Z) : Response :=
  {| StatusCode := code;
     ContentType := "text/plain; charset=utf-8";
     ResponseBody := msg +:+ newline |}.

(** [smtp.PlainAuth(identity, username, password, host)] *)
Record PlainAuth := mkPlainAuth {
  authIdentity : string;
  authUsername : string;
  authPassword : string;
  authHost : string
}.

(** One call of [smtp.SendMail(addr, auth, from, to, msg)]. *)
Record SendMailCall := mkSendMailCall {
  smtpAddr : string;
  smtpAuth : PlainAuth;
  smtpFrom : string;
  smtpTo : list string;
  smtpMsg : string
}.

(** What one run of the handler leaves behind: the response, the rate
    limiter, and the relay calls it made. *)
Record Outcome := mkOutcome {
  response : Response;
  limiter : RateLimiter;
  relayed : list SendMailCall
}.

Section WithCollaborators.

(** [strings.Title] on text that is not ASCII throughout. *)
Variable titleUnicode : string -> string.

(** [json.NewDecoder(r.Body).Decode(&emailReq)]: the decoded request, or
    [None] for an error. *)
Variable jsonDecode : string -> option EmailRequest.

(** The relay behind [smtp.SendMail]: [None] for a [nil] error, else the
    text of the error. *)
Variable SendMail : SendMailCall -> option string.

(** The value of [title] after lines 193-204. *)
Definition fromTitle (username : string) (emailReq : EmailRequest) : string :=
  if negb (String.eqb (Title emailReq) "") then
    quote +:+ Title emailReq +:+ quote +:+ " <" +:+ username +:+ ">"
  else if Contains username "@" then
    match Split username "@" with
    | part0 :: _ =>
        let displayName := GoStrings.Title titleUnicode part0 in
        quote +:+ displayName +:+ quote +:+ " <" +:+ username +:+ ">"
    | [] => username
    end
  else username.

(** The value of [msg] after lines 206-227. *)
Definition buildMessage (isHTMLContent : bool) (title : string)
           (emailReq : EmailRequest) : string :=
  if isHTMLContent then
    "From: " +:+ title +:+ newline +:+
    "To: " +:+ Join (To emailReq) ", " +:+ newline +:+
    "Subject: " +:+ Subject emailReq +:+ newline +:+
    "MIME-Version: 1.0" +:+ newline +:+
    "Content-Type: text/html; charset=UTF-8" +:+ newline +:+ newline +:+
    Content emailReq
  else
    "From: " +:+ title +:+ newline +:+
    "To: " +:+ Join (To emailReq) ", " +:+ newline +:+
    "Subject: " +:+ Subject emailReq +:+ newline +:+
    "Content-Type: text/plain; charset=UTF-8" +:+ newline +:+ newline +:+
    Content emailReq.

(** The body [json.NewEncoder(w).Encode] writes for the success map (keys
    in sorted order, then a line feed). *)
Definition successBody : string :=
  "{" +:+ quote +:+ "message" +:+ quote +:+ ":" +:+ quote +:+
  "Email sent successfully" +:+ quote +:+ "," +:+ quote +:+ "status" +:+
  quote +:+ ":" +:+ quote +:+ "success" +:+ quote +:+ "}" +:+ newline.

(** The function [GetMailHandler(rateLimiter)] returns, run on the
    request [r] when the clock reads [now]. *)
Definition GetMailHandler (rateLimiter : RateLimiter) (now : Time)
           (r : Request) : Outcome :=
  if negb (String.eqb (Method r) MethodPost) then
    mkOutcome (httpError "Method not allowed" StatusMethodNotAllowed)
              rateLimiter []
  else
    let authHeader := Authorization r in
    if String.eqb authHeader "" || negb (HasPrefix authHeader "Basic ") then
      mkOutcome (httpError "Authentication required" StatusUnauthorized)
                rateLimiter []
    else
      match Base64.DecodeString (sliceFrom 6 authHeader) with
      | None =>
          mkOutcome (httpError "Invalid authentication format" StatusUnauthorized)
                    rateLimiter []
      | Some credentials =>
          match SplitN2 credentials ":" with
          | [username; password] =>
              let '(allowed, rateLimiter) := Allow now username rateLimiter in
              if negb allowed then
                mkOutcome (httpError "Rate limit exceeded" StatusTooManyRequests)
                          rateLimiter []
              else
                match jsonDecode (Body r) with
                | None =>
                    mkOutcome (httpError "Invalid request body" StatusBadRequest)
                              rateLimiter []
                | Some emailReq =>
                    if (length (To emailReq) =? 0)%nat
                       || String.eqb (Subject emailReq) ""
                       || String.eqb (Content emailReq) "" then
                      mkOutcome
                        (httpError "Missing required fields (to, subject, content)"
                                   StatusBadRequest)
                        rateLimiter []
                    else
                      let isHTMLContent := Html.isHTML (Content emailReq) in
                      let title := fromTitle username emailReq in
                      let msg := buildMessage isHTMLContent title emailReq in
                      let auth := mkPlainAuth "" username password "box.domain.com" in
                      let call :=
                        mkSendMailCall "box.domain.com:587" auth username
                                       (To emailReq) msg in
                      match SendMail call with
                      | Some err =>
                          mkOutcome
                            (httpError ("Failed to send email: " +:+ err)
                                       StatusInternalServerError)
                            rateLimiter [call]
                      | None =>
                          mkOutcome
                            (mkResponse StatusOK "application/json" successBody)
                            rateLimiter [call]
                      end
                end
          | _ =>
              mkOutcome (httpError "Invalid authentication format" StatusUnauthorized)
                        rateLimiter []
          end
      end.

(** The handler serving one request after the other, each at the time the
    clock reads when it arrives. *)
Fixpoint serve (rateLimiter : RateLimiter) (reqs : list (Time * Request))
  : list Outcome :=
  match reqs with
  | [] => []
  | (now, r) :: rest =>
      let o := GetMailHandler rateLimiter now r in
      o :: serve (limiter o) rest
  end.

End WithCollaborators.

(** The reading of the [Authorization] header the specification gives:
    scheme Basic, then the base64 text of [username:password]. *)
Definition basicCredentials (authHeader : string) : option (string * string) :=
  if HasPrefix authHeader "Basic " then
    match Base64.DecodeString (sliceFrom 6 authHeader) with
    | Some credentials => cut credentials ":"
    | None => None
    end
  else None.

(** The text before the first [sep], all of it when there is none. *)
Definition localPartOf (s : string) (sep : ascii) : string :=
  match cut s sep with
  | Some (before, _) => before
  | None => s
  end.

End Handler.

(** ** Predicates the statements use *)

Module Props.

Import GoStrings GoTime Limiter Handler.

(** Every [int] the limiter holds is an [int]. *)
Definition intState (rl : RateLimiter) : Prop :=
  GoInt.in_range (bucketSize rl) /\
  map_Forall (fun _ k => GoInt.in_range k) (tokens rl).

(** The bucket invariant of the data model for the rate [m]:
    [bucketSize = 2 * maxPerSec] and [0 <= tokens <= bucketSize] for
    every bucket. *)
Definition bucketInv (m : Z) (rl : RateLimiter) : Prop :=
  maxPerSec rl = m /\
  bucketSize rl = 2 * m /\
  map_Forall (fun _ k => 0 <= k <= bucketSize rl) (tokens rl).

(** The event is a call of [Allow] for [user]. *)
Definition concerns (user : string) (ev : event) : bool :=
  match ev with
  | EvAllow _ u => String.eqb u user
  | EvCleanup _ => false
  end.

(** The refill of the specification, in exact arithmetic:
    [floor(elapsedSeconds * maxPerSec)] for an elapsed time of [d]
    nanoseconds. *)
Definition floorTokens (d : Duration) (maxPerSec : Z) : Z :=
  (d * maxPerSec) / Second.

(** The call the handler hands to the relay for a decoded request. *)
Definition relayCall (titleUnicode : string -> string)
           (username password : string) (emailReq : EmailRequest)
  : SendMailCall :=
  mkSendMailCall "box.domain.com:587"
    (mkPlainAuth "" username password "box.domain.com") username (To emailReq)
    (buildMessage (Html.isHTML (Content emailReq))
                  (fromTitle titleUnicode username emailReq) emailReq).

Definition missingFields (emailReq : EmailRequest) : bool :=
  (length (To emailReq) =? 0)%nat
  || String.eqb (Subject emailReq) ""
  || String.eqb (Content emailReq) "".

(** *** The message and its title, in the words of the specification

    What follows is written from the specification and with characters
    of its own: the line feed, the double quote and the alphabets are
    spelled out here, and nothing is taken from the handler. *)

(** The line feed (U+000A) and the double quote (U+0022). *)
Definition lineFeed : string := String (ascii_of_nat 10) EmptyString.
Definition doubleQuote : string := String (ascii_of_nat 34) EmptyString.

(** The header block: every header line ended by a line feed. *)
Fixpoint headerBlock (headers : list string) : string :=
  match headers with
  | [] => EmptyString
  | h :: rest => h +:+ lineFeed +:+ headerBlock rest
  end.

(** A message: the header block, a blank line, the body. *)
Definition mimeMessage (headers : list string) (body : string) : string :=
  headerBlock headers +:+ lineFeed +:+ body.

Definition smallLetters : string := "abcdefghijklmnopqrstuvwxyz".
Definition capitalLetters : string := "ABCDEFGHIJKLMNOPQRSTUVWXYZ".
Definition digits : string := "0123456789".

(** [c] is one of the characters of [s]. *)
Fixpoint among (c : ascii) (s : string) : bool :=
  match s with
  | EmptyString => false
  | String a s' => Ascii.eqb c a || among c s'
  end.

(** The letter of [capitals] that stands where [c] stands in [small]; [c]
    itself when it is not in [small]. *)
Fixpoint capitalIn (small capitals : string) (c : ascii) : ascii :=
  match small, capitals with
  | String a small', String b capitals' =>
      if Ascii.eqb c a then b else capitalIn small' capitals' c
  | _, _ => c
  end.

(** The capital of a small letter; any other character as it is. *)
Definition capital (c : ascii) : ascii := capitalIn smallLetters capitalLetters c.

(** A letter, a digit or the underscore. *)
Definition wordCharacter (c : ascii) : bool :=
  among c smallLetters || among c capitalLetters || among c digits || among c "_".

(** A space, a tab, a line feed or a carriage return. *)
Definition whiteSpace (c : ascii) : bool :=
  among c (String " " (String (ascii_of_nat 9) (String (ascii_of_nat 10)
             (String (ascii_of_nat 13) EmptyString)))).

(** The first letter of each word as a capital, where a new word begins
    after every character that [separates]. *)
Fixpoint capitalizeWords (separates : ascii -> bool) (atWordStart : bool)
         (s : string) : string :=
  match s with
  | EmptyString => EmptyString
  | String c s' =>
      String (if atWordStart then capital c else c)
             (capitalizeWords separates (separates c) s')
  end.

(** The words of the specification, its example taken as it stands
    (john.doe gives John.doe): they are set apart by white space. *)
Definition capitalizedBySpaces (s : string) : string :=
  capitalizeWords whiteSpace true s.

(** The words the handler finds: runs of letters, digits and underscores,
    so that a full stop or a hyphen begins a new word. *)
Definition capitalizedByWords (s : string) : string :=
  capitalizeWords (fun c => negb (wordCharacter c)) true s.

(** Every byte of the text is below 128. *)
Fixpoint plainText (s : string) : bool :=
  match s with
  | EmptyString => true
  | String c s' => (nat_of_ascii c <? 128)%nat && plainText s'
  end.

(** The text before the first [@]. *)
Fixpoint beforeAt (s : string) : string :=
  match s with
  | EmptyString => EmptyString
  | String c s' => if Ascii.eqb c "@" then EmptyString else String c (beforeAt s')
  end.

(** The display title of the specification, for a way to capitalize the
    local part: the given title in double quotes before the user name in
    angle brackets; without a title, for a user name with an [@], the
    capitalized local part in its place; else the bare user name. *)
Definition titleWith (capitalized : string -> string) (username : string)
           (emailReq : EmailRequest) : string :=
  if String.eqb (Title emailReq) "" then
    if among "@" username then
      doubleQuote +:+ capitalized (beforeAt username) +:+ doubleQuote
                  +:+ " <" +:+ username +:+ ">"
    else username
  else doubleQuote +:+ Title emailReq +:+ doubleQuote
                   +:+ " <" +:+ username +:+ ">".

(** The display title as the specification words it. *)
Definition specTitle (username : string) (emailReq : EmailRequest) : string :=
  titleWith capitalizedBySpaces username emailReq.

(** The display title with the words the handler finds; for a local part
    that is not ASCII text the capitalization is the library's. *)
Definition displayTitle (titleUnicode : string -> string) (username : string)
           (emailReq : EmailRequest) : string :=
  titleWith (fun l => if plainText l then capitalizedByWords l else titleUnicode l)
            username emailReq.

(** The first line of a text: what stands before its first line feed. *)
Fixpoint firstLine (s : string) : string :=
  match s with
  | EmptyString => EmptyString
  | String c s' =>
      if Ascii.eqb c (ascii_of_nat 10) then EmptyString else String c (firstLine s')
  end.

(** [sub] occurs in [s]. *)
Definition occursIn (sub s : string) : Prop :=
  exists pre post, s = pre +:+ sub +:+ post.

(** The request is a POST whose Basic credentials name [user]; the
    password is not looked at. *)
Definition postFrom (user : string) (r : Request) : bool :=
  String.eqb (Method r) MethodPost &&
  match basicCredentials (Authorization r) with
  | Some (u, _) => String.eqb u user
  | None => false
  end.

(** [now] is at [t0] or later, by less than [w]. *)
Definition within (w : Duration) (t0 now : Time) : bool :=
  (t0 <=? now) && (now - t0 <? w).

(** No refill is due at [now] for a bucket last refilled at [t0]. *)
Definition noRefillDue (maxPerSec : Z) (t0 now : Time) : bool :=
  tokensToAdd (Sub now t0) maxPerSec <=? 0.

(** The bucket of [user] holds [k] tokens and was last refilled at [t0]. *)
Definition bucketAt (mps : Z) (user : string) (t0 : Time) (k : Z)
           (rl : RateLimiter) : Prop :=
  maxPerSec rl = mps /\ lastRefill rl !! user = Some t0 /\
  tokens rl !! user = Some k /\ 0 <= k <= GoInt.max_int.

End Props.

(** ** Collaborators for the examples *)

Module Doubles.

Import Handler.

(** A stand-in for [strings.Title] off ASCII that gives the text back as
    it is. *)
Definition titleAsIs : string -> string := fun s => s.

(** A decoder that finds the request [e] in every body. *)
Definition decodeAs (e : EmailRequest) : string -> option EmailRequest :=
  fun _ => Some e.

(** A relay that accepts every message. *)
Definition relayAccepts : SendMailCall -> option string := fun _ => None.

(** A relay that accepts a message when the password is pw, as the relay
    of alice@example.com would. *)
Definition relayChecks : SendMailCall -> option string :=
  fun call =>
    if String.eqb (authPassword (smtpAuth call)) "pw" then None
    else Some "535 authentication failed"%string.

(** A relay that refuses every message. *)
Definition relayRefuses : SendMailCall -> option string :=
  fun _ => Some "554 refused"%string.

Definition hello : EmailRequest :=
  mkEmailRequest ["bob@example.com"%string] "Hi" "hello" "".

(** Basic credentials of alice@example.com with the password pw. *)
Definition aliceAuth : string := "Basic YWxpY2VAZXhhbXBsZS5jb206cHc=".

Definition alicePost : Request := mkRequest "POST" aliceAuth "{}".

(** A POST that names alice@example.com with the password guess. *)
Definition guessPost : Request :=
  mkRequest "POST" "Basic YWxpY2VAZXhhbXBsZS5jb206Z3Vlc3M=" "{}".

(** [n] requests of alice, the first at [start], one every [gap]
    nanoseconds. *)
Fixpoint aliceBurst (n : nat) (start gap : Z) : list (GoTime.Time * Request) :=
  match n with
  | O => []
  | S n' => (start, alicePost) :: aliceBurst n' (start + gap) gap
  end.

End Doubles.

(** ** Bounds on floats *)

Module FloatBound.

(** The unit of relative error of the bounds below: one part in 2^52. *)
Definition eps52 : R := (/ IZR (2 ^ 52))%R.

(** The value of a mantissa and an exponent. *)
Definition F2R (m : Z) (e : Z) : R := (IZR m * powerRZ 2 e)%R.

(** [x] is not a number above [v]: it is a zero, or finite with sign [s],
    exponent at least [L] and magnitude at most [v], or not finite. *)
Definition below (s : bool) (L : Z) (v : R) (x : spec_float) : Prop :=
  match x with
  | S754_finite s' m e => s' = s /\ L <= e /\ (F2R (Zpos m) e <= v)%R
  | S754_zero _ | S754_infinity _ | S754_nan => True
  end.

(** The sign of a float. *)
Definition signed (s : bool) (x : spec_float) : Prop :=
  match x with
  | S754_finite s' _ _ => s' = s
  | _ => True
  end.

(** What [float64(z)] is for an integer below 2^53 in magnitude. *)
Definition exactly (z : Z) (x : spec_float) : Prop :=
  if z =? 0 then x = S754_zero false
  else exists m e,
      x = S754_finite (z <? 0) m e /\
      Zpos (digits2_pos m) = prec /\ -52 <= e <= 0 /\
      F2R (Zpos m) e = IZR (Z.abs z).

(** [x] is a positive finite float of exponent at most [U] and value at
    least [v]. *)
Definition above (U : Z) (v : R) (x : spec_float) : Prop :=
  exists m e, x = S754_finite false m e /\ e <= U /\ (v <= F2R (Zpos m) e)%R.

End FloatBound.
(** ** The log line of the sweep and the ticker loop *)

Module Sweep.

Import GoTime Limiter.

(** The line [cleanupInactiveBuckets] logs when it has removed a user: the
    number of users removed and [len(rl.tokens)] after the sweep. *)
Definition cleanupLog (now : Time) (rl : RateLimiter) : option (Z * Z) :=
  let inactive := inactiveUsers now rl in
  let rl' := cleanupInactiveBuckets now rl in
  if 0 <? Z.of_nat (length inactive)
  then Some (Z.of_nat (length inactive), Z.of_nat (size (tokens rl')))
  else None.

(** [periodicCleanup]: one sweep for every tick the ticker delivers.  The
    ticker decides when the ticks come (one every [cleanupInterval], late
    ones dropped); each sweep reads the clock for itself, and [ticks] holds
    these readings in order. *)
Definition periodicCleanup (ticks : list Time) (rl : RateLimiter) : RateLimiter :=
  foldl (fun rl now => cleanupInactiveBuckets now rl) rl ticks.

End Sweep.

(** ** What a run of the limiter shows *)

Module Traffic.

Import GoTime Limiter.

(** The entries of an identity in the two maps. *)
Definition bucketOf (user : string) (rl : RateLimiter) : option Z * option Time :=
  (tokens rl !! user, lastRefill rl !! user).

(** The answers the calls of [Allow] get along a run, with the identity
    each was for. *)
Fixpoint answers (rl : RateLimiter) (evs : list event) : list (string * bool) :=
  match evs with
  | [] => []
  | EvAllow now user :: evs' =>
      (user, (Allow now user rl).1) :: answers (Allow now user rl).2 evs'
  | EvCleanup now :: evs' => answers (cleanupInactiveBuckets now rl) evs'
  end.

(** The number of calls for [user] that were admitted. *)
Definition admitted (user : string) (rl : RateLimiter) (evs : list event) : Z :=
  Z.of_nat (length (List.filter (fun a => String.eqb a.1 user && a.2)
                                (answers rl evs))).

Definition timeOf (ev : event) : Time :=
  match ev with
  | EvAllow now _ => now
  | EvCleanup now => now
  end.

(** The clock does not run backwards: no event is earlier than the one
    before it, nor than [t]. *)
Fixpoint clockOrdered (t : Time) (evs : list event) : bool :=
  match evs with
  | [] => true
  | ev :: evs' => (t <=? timeOf ev) && clockOrdered (timeOf ev) evs'
  end.

(** The time of the last event, [t] when there is none. *)
Fixpoint endOf (t : Time) (evs : list event) : Time :=
  match evs with
  | [] => t
  | ev :: evs' => endOf (timeOf ev) evs'
  end.

Definition isAllow (ev : event) : bool :=
  match ev with
  | EvAllow _ _ => true
  | EvCleanup _ => false
  end.

(** The event is a sweep or a call for [user]. *)
Definition touches (user : string) (ev : event) : bool :=
  match ev with
  | EvAllow _ u => String.eqb u user
  | EvCleanup _ => true
  end.

End Traffic.

(** ** The handler as a service *)

Module Service.

Import GoTime Limiter Handler.

(** The call of [Allow] a request leads to: one for a POST that carries
    Basic credentials, at the time the request is served, and none for any
    other request. *)
Definition eventOf (tr : Time * Request) : option event :=
  if String.eqb (Method tr.2) MethodPost then
    match basicCredentials (Authorization tr.2) with
    | Some (u, _) => Some (EvAllow tr.1 u)
    | None => None
    end
  else None.

Definition eventsOf (reqs : list (Time * Request)) : list event :=
  omap eventOf reqs.

(** The limiter the outcomes [outs] leave, [rl] when there is none. *)
Definition limiterAfter (rl : RateLimiter) (outs : list Outcome) : RateLimiter :=
  default rl (last (limiter <$> outs)).

(** The messages handed to the relay with [user] as the sender. *)
Definition relayedFor (user : string) (outs : list Outcome) : list SendMailCall :=
  List.filter (fun c => String.eqb (smtpFrom c) user) (concat (relayed <$> outs)).

(** The requests are served in the order of the clock, none before [t]. *)
Fixpoint servedInOrder (t : Time) (reqs : list (Time * Request)) : bool :=
  match reqs with
  | [] => true
  | tr :: reqs' => (t <=? tr.1) && servedInOrder tr.1 reqs'
  end.

(** The time the last request is served, [t] when there is none. *)
Fixpoint lastServed (t : Time) (reqs : list (Time * Request)) : Time :=
  match reqs with
  | [] => t
  | tr :: reqs' => lastServed tr.1 reqs'
  end.

End Service.

(** ** The requests under one user name *)

Module Callers.

Import GoTime Limiter Handler Props.

(** What the handler settles of a request before the relay answers: the
    messages it hands to the relay and, when it hands none, its
    response. *)
Definition settled (o : Outcome) : list SendMailCall * option Response :=
  (relayed o,
   match relayed o with
   | [] => Some (response o)
   | _ :: _ => None
   end).

(** Of the outcomes [outs] of the requests [reqs], those of the requests
    that are a POST whose Basic credentials name [user]. *)
Fixpoint outcomesOf (user : string) (reqs : list (Time * Request))
         (outs : list Outcome) : list Outcome :=
  match reqs, outs with
  | tr :: reqs', o :: outs' =>
      if postFrom user tr.2 then o :: outcomesOf user reqs' outs'
      else outcomesOf user reqs' outs'
  | _, _ => []
  end.

End Callers.

(** ** Text up to the case of its ASCII letters *)

Module Text.

Import GoStrings.

(** The text with its ASCII capitals in lower case. *)
Fixpoint lowerASCII (s : string) : string :=
  match s with
  | EmptyString => EmptyString
  | String c s' => String (toLower c) (lowerASCII s')
  end.

End Text.

(** ** The caller's side of the credentials *)

Module Client.

Import GoStrings.

(** The alphabet of base64 (RFC 4648, section 4): the character of a
    sextet. *)
Definition encodeChar (i : Z) : ascii :=
  if i <? 26 then byte (65 + i)
  else if i <? 52 then byte (97 + (i - 26))
  else if i <? 62 then byte (48 + (i - 52))
  else if i =? 62 then "+"%char
  else "/"%char.

(** The character of the sextet of [v] that starts at bit [k]. *)
Definition sextet (v k : Z) : ascii := encodeChar (Z.land (Z.shiftr v k) 63).

(** Three bytes give four characters; one or two bytes left over give two
    or three characters and padding. *)
Fixpoint encodeQuanta (src : list ascii) : list ascii :=
  match src with
  | [] => []
  | [a] =>
      let v := Z.shiftl (code a) 16 in
      [sextet v 18; sextet v 12; Base64.padChar; Base64.padChar]
  | [a; b] =>
      let v := Z.lor (Z.shiftl (code a) 16) (Z.shiftl (code b) 8) in
      [sextet v 18; sextet v 12; sextet v 6; Base64.padChar]
  | a :: b :: c :: rest =>
      let v := Z.lor (Z.lor (Z.shiftl (code a) 16) (Z.shiftl (code b) 8)) (code c) in
      sextet v 18 :: sextet v 12 :: sextet v 6 :: sextet v 0 :: encodeQuanta rest
  end.

(** The base64 text of [s], on one line. *)
Definition base64 (s : string) : string :=
  string_of_list_ascii (encodeQuanta (list_ascii_of_string s)).

(** The [Authorization] header of the README's call for a user name and a
    password: [Basic], a space, the base64 text of [username:password]. *)
Definition basicAuth (username password : string) : string :=
  "Basic " +:+ base64 (username +:+ ":" +:+ password).

End Client.

(** ** The reader's side of the message *)

Module Reader.

Definition lf : ascii := "010"%char.

(** What a reader of a message takes for its header block and for its
    body: the text before and the text after the first blank line, the
    line feed that ends the last header line left out (RFC 5322, section
    2.1, with the line ends the handler writes). *)
Fixpoint splitAtBlank (s : string) : option (string * string) :=
  match s with
  | EmptyString => None
  | String c s' =>
      match s' with
      | EmptyString => None
      | String c' body =>
          if Ascii.eqb c lf && Ascii.eqb c' lf then Some (EmptyString, body)
          else match splitAtBlank s' with
               | Some (h, b) => Some (String c h, b)
               | None => None
               end
      end
  end.

(** No line feed in any of the texts. *)
Definition oneLine (texts : list string) : bool :=
  forallb (fun s => negb (GoStrings.Contains s lf)) texts.

End Reader.


Import GoFloat GoTime Limiter Props FloatBound.

(** * Properties *)

(** ** Rounding *)

Lemma digits2_pos_upper (m : positive) : Zpos m < 2 ^ Zpos (digits2_pos m).
Proof.
  induction m as [m IH | m IH | ]; simpl digits2_pos.
  - rewrite Pos2Z.inj_succ, Z.pow_succ_r by lia. lia.
  - rewrite Pos2Z.inj_succ, Z.pow_succ_r by lia. lia.
  - reflexivity.
Qed.

Lemma digits2_pos_lower (m : positive) : 2 ^ (Zpos (digits2_pos m) - 1) <= Zpos m.
Proof.
  induction m as [m IH | m IH | ]; simpl digits2_pos.
  - rewrite Pos2Z.inj_succ. replace (Z.succ (Zpos (digits2_pos m)) - 1)
      with (Z.succ (Zpos (digits2_pos m) - 1)) by lia.
    rewrite Z.pow_succ_r by lia. lia.
  - rewrite Pos2Z.inj_succ. replace (Z.succ (Zpos (digits2_pos m)) - 1)
      with (Z.succ (Zpos (digits2_pos m) - 1)) by lia.
    rewrite Z.pow_succ_r by lia. lia.
  - simpl. lia.
Qed.

(** One step of the shift halves the mantissa. *)
Lemma shr_1_m (mrs : shr_record) :
  0 <= shr_m mrs -> shr_m (shr_1 mrs) = shr_m mrs / 2.
Proof.
  destruct mrs as [m r s]. simpl. intros Hm.
  destruct m as [| p | p]; [reflexivity | | lia].
  destruct p as [p | p | ]; simpl shr_m.
  - rewrite Pos2Z.inj_xI. apply Z.div_unique with 1; lia.
  - rewrite Pos2Z.inj_xO. apply Z.div_unique with 0; lia.
  - reflexivity.
Qed.

Lemma iter_shr_1_m (p : positive) :
  forall mrs, 0 <= shr_m mrs ->
    shr_m (SpecFloat.iter_pos shr_1 p mrs) = shr_m mrs / 2 ^ Zpos p.
Proof.
  induction p as [p IH | p IH | ]; intros mrs Hm; simpl SpecFloat.iter_pos.
  - assert (H1 : 0 <= shr_m (shr_1 mrs))
      by (rewrite shr_1_m by lia; apply Z.div_pos; lia).
    assert (H2 : 0 <= shr_m (SpecFloat.iter_pos shr_1 p (shr_1 mrs)))
      by (rewrite IH by lia; apply Z.div_pos; [lia | apply Z.pow_pos_nonneg; lia]).
    rewrite IH, IH, shr_1_m by lia.
    rewrite !Z.div_div by (try apply Z.pow_pos_nonneg; lia).
    f_equal.
    replace (Zpos p~1) with (1 + Zpos p + Zpos p) by lia.
    rewrite !Z.pow_add_r by lia. lia.
  - assert (H2 : 0 <= shr_m (SpecFloat.iter_pos shr_1 p mrs))
      by (rewrite IH by lia; apply Z.div_pos; [lia | apply Z.pow_pos_nonneg; lia]).
    rewrite IH, IH by lia.
    rewrite !Z.div_div by (try apply Z.pow_pos_nonneg; lia).
    f_equal.
    replace (Zpos p~0) with (Zpos p + Zpos p) by lia.
    rewrite !Z.pow_add_r by lia. lia.
  - rewrite shr_1_m by lia. reflexivity.
Qed.

Lemma shr_spec (mrs : shr_record) (e n : Z) :
  0 <= shr_m mrs ->
  snd (shr mrs e n) = e + Z.max 0 n /\
  shr_m (fst (shr mrs e n)) = shr_m mrs / 2 ^ Z.max 0 n /\
  (n <= 0 -> fst (shr mrs e n) = mrs).
Proof.
  intros Hm. destruct n as [| p | p]; simpl.
  - rewrite Z.div_1_r. repeat split; lia.
  - rewrite iter_shr_1_m by lia. repeat split; lia.
  - rewrite Z.div_1_r. repeat split; lia.
Qed.

Lemma loc_of_shr_record_of_loc (m : Z) (l : location) :
  loc_of_shr_record (shr_record_of_loc m l) = l.
Proof. destruct l as [| []]; reflexivity. Qed.

Lemma shr_m_of_loc (m : Z) (l : location) : shr_m (shr_record_of_loc m l) = m.
Proof. destruct l as [| []]; reflexivity. Qed.

Lemma round_nearest_even_range (m : Z) (l : location) :
  m <= round_nearest_even m l <= m + 1 /\
  (l = loc_Exact -> round_nearest_even m l = m).
Proof.
  destruct l as [| []]; simpl; try (split; [lia | intros; try discriminate; reflexivity]).
  destruct (Z.even m); split; try lia; discriminate.
Qed.

(** The rounding of a positive mantissa in the normal range moves the value
    up by at most one part in 2^52. *)
Lemma binary_round_aux_upper (sx : bool) (mx : positive) (ex : Z) (lx : location) :
  let d := Zpos (digits2_pos mx) in
  emin <= d + ex - prec ->
  (lx = loc_Exact \/ 2 ^ 52 <= Zpos mx) ->
  match binary_round_aux prec emax sx (Zpos mx) ex lx with
  | S754_finite s m e =>
      s = sx /\ ex <= e /\ d + ex - prec <= e /\
      2 ^ 52 * (Zpos m * 2 ^ (e - ex)) <= (2 ^ 52 + 1) * Zpos mx
  | S754_zero s => s = sx
  | S754_infinity s => s = sx
  | S754_nan => False
  end.
Proof.
  intros d Hnorm Hloc. unfold binary_round_aux, shr_fexp.
  assert (Hfexp : fexp prec emax (Zdigits2 (Zpos mx) + ex) = d + ex - prec).
  { unfold fexp. simpl Zdigits2. fold d. lia. }
  rewrite Hfexp.
  pose proof (shr_spec (shr_record_of_loc (Zpos mx) lx) ex (d + ex - prec - ex)) as Hs1.
  rewrite shr_m_of_loc in Hs1. specialize (Hs1 ltac:(lia)).
  destruct (shr (shr_record_of_loc (Zpos mx) lx) ex (d + ex - prec - ex))
    as [mrs1 e1]. cbn [fst snd] in Hs1. destruct Hs1 as (He1 & Hm1 & Hid1).
  set (a := Z.max 0 (d + ex - prec - ex)) in *.
  assert (Hpa : 0 < 2 ^ a) by (apply Z.pow_pos_nonneg; lia).
  assert (Hm1a : shr_m mrs1 * 2 ^ a <= Zpos mx).
  { rewrite Hm1, Z.mul_comm. apply Z.mul_div_le. lia. }
  assert (Hm1n : 0 <= shr_m mrs1).
  { rewrite Hm1. apply Z.div_pos; lia. }
  assert (Hmr : 0 <= round_nearest_even (shr_m mrs1) (loc_of_shr_record mrs1) /\
                2 ^ 52 * round_nearest_even (shr_m mrs1) (loc_of_shr_record mrs1)
                <= (2 ^ 52 + 1) * shr_m mrs1).
  { destruct (round_nearest_even_range (shr_m mrs1) (loc_of_shr_record mrs1))
      as [Hr Hex].
    destruct (Z.le_gt_cases (d - prec) 0) as [Hsmall | Hbig].
    - (* no shift *)
      assert (Hrec : mrs1 = shr_record_of_loc (Zpos mx) lx) by (apply Hid1; lia).
      subst mrs1.
      rewrite loc_of_shr_record_of_loc, shr_m_of_loc in *.
      destruct Hloc as [-> | Hge].
      + rewrite Hex by reflexivity. lia.
      + lia.
    - (* a shift by d - prec: the mantissa keeps prec digits *)
      assert (Hlow : 2 ^ 52 <= shr_m mrs1).
      { rewrite Hm1. apply Z.div_le_lower_bound; [lia |].
        pose proof (digits2_pos_lower mx) as Hl. fold d in Hl.
        unfold a. replace (Z.max 0 (d + ex - prec - ex)) with (d - prec) by lia.
        rewrite Z.mul_comm, <- Z.pow_add_r by (unfold prec in *; lia).
        replace (52 + (d - prec)) with (d - 1) by (unfold prec; lia).
        exact Hl. }
      lia. }
  set (mr := round_nearest_even (shr_m mrs1) (loc_of_shr_record mrs1)) in *.
  destruct Hmr as [Hmr0 Hmr].
  pose proof (shr_spec (shr_record_of_loc mr loc_Exact) e1
                (fexp prec emax (Zdigits2 mr + e1) - e1)) as Hs2.
  rewrite shr_m_of_loc in Hs2. specialize (Hs2 Hmr0).
  destruct (shr (shr_record_of_loc mr loc_Exact) e1
                (fexp prec emax (Zdigits2 mr + e1) - e1)) as [mrs2 e2].
  cbn [fst snd] in Hs2. destruct Hs2 as (He2 & Hm2 & _).
  set (b := Z.max 0 (fexp prec emax (Zdigits2 mr + e1) - e1)) in *.
  assert (Hpb : 0 < 2 ^ b) by (apply Z.pow_pos_nonneg; lia).
  assert (Hm2b : shr_m mrs2 * 2 ^ b <= mr).
  { rewrite Hm2, Z.mul_comm. apply Z.mul_div_le. lia. }
  assert (Hm2n : 0 <= shr_m mrs2).
  { rewrite Hm2. apply Z.div_pos; lia. }
  destruct (shr_m mrs2) as [| m2 | m2] eqn:Em2; [reflexivity | | lia].
  destruct (e2 <=? emax - prec); [| reflexivity].
  split; [reflexivity |]. split; [lia |]. split; [lia |].
  replace (e2 - ex) with (b + a) by lia.
  rewrite Z.pow_add_r by lia.
  nia.
Qed.

Lemma IZR_pow2 (n : Z) : 0 <= n -> IZR (2 ^ n) = powerRZ 2 n.
Proof.
  intros Hn. destruct n as [| p | p]; [reflexivity | | lia].
  unfold powerRZ. rewrite pow_IZR. f_equal. f_equal. lia.
Qed.

Lemma pow2_pos (e : Z) : (0 < powerRZ 2 e)%R.
Proof. apply powerRZ_lt. lra. Qed.

Lemma pow2_add (a b : Z) : powerRZ 2 (a + b) = (powerRZ 2 a * powerRZ 2 b)%R.
Proof. apply powerRZ_add. lra. Qed.

Lemma eps52_pos : (0 < eps52)%R.
Proof. unfold eps52. apply Rinv_0_lt_compat. apply IZR_lt. reflexivity. Qed.

Lemma F2R_shift (m e k : Z) : 0 <= k -> F2R (m * 2 ^ k) (e - k) = F2R m e.
Proof.
  intros Hk. unfold F2R. rewrite mult_IZR, IZR_pow2 by lia.
  replace e with ((e - k) + k) at 2 by lia. rewrite pow2_add. ring.
Qed.

Lemma below_weaken (s : bool) (L L' : Z) (v v' : R) (x : spec_float) :
  L' <= L -> (v <= v')%R -> below s L v x -> below s L' v' x.
Proof.
  intros HL Hv. destruct x as [| | | s' m e]; simpl; try done.
  intros (Hs & He & Hm). repeat split; [done | lia | lra].
Qed.

Lemma binary_round_aux_below (sx : bool) (mx : positive) (ex : Z) (lx : location) :
  emin <= Zpos (digits2_pos mx) + ex - prec ->
  (lx = loc_Exact \/ 2 ^ 52 <= Zpos mx) ->
  below sx ex ((1 + eps52) * F2R (Zpos mx) ex)
        (binary_round_aux prec emax sx (Zpos mx) ex lx).
Proof.
  intros Hn Hl. pose proof (binary_round_aux_upper sx mx ex lx Hn Hl) as H.
  destruct (binary_round_aux prec emax sx (Zpos mx) ex lx) as [| | | s m e];
    simpl; try done.
  destruct H as (Hs & He & _ & Hle). repeat split; [done | done |].
  apply IZR_le in Hle. rewrite !mult_IZR, (IZR_pow2 (e - ex)) in Hle by lia.
  unfold F2R. replace e with ((e - ex) + ex) at 1 by lia. rewrite pow2_add.
  pose proof (pow2_pos ex) as Hp. pose proof (pow2_pos (e - ex)) as Hp'.
  unfold eps52. rewrite plus_IZR in Hle.
  set (A := (IZR (Zpos m) * powerRZ 2 (e - ex))%R) in *.
  set (B := IZR (Zpos mx)) in *.
  assert (H52 : (0 < IZR (2 ^ 52))%R) by (apply IZR_lt; reflexivity).
  assert (HA : (A <= (1 + / IZR (2 ^ 52)) * B)%R).
  { apply Rmult_le_reg_l with (IZR (2 ^ 52)); [done |].
    replace (IZR (2 ^ 52) * ((1 + / IZR (2 ^ 52)) * B))%R
      with ((IZR (2 ^ 52) + 1) * B)%R by (field; lra).
    exact Hle. }
  replace (IZR (Zpos m) * (powerRZ 2 (e - ex) * powerRZ 2 ex))%R
    with (A * powerRZ 2 ex)%R by (unfold A; ring).
  replace ((1 + / IZR (2 ^ 52)) * (B * powerRZ 2 ex))%R
    with ((1 + / IZR (2 ^ 52)) * B * powerRZ 2 ex)%R by ring.
  apply Rmult_le_compat_r; lra.
Qed.

Lemma below_signed (s : bool) (L : Z) (v : R) (x : spec_float) :
  below s L v x -> signed s x.
Proof. destruct x; simpl; tauto. Qed.

Lemma binary_round_aux_signed (sx : bool) (mx ex : Z) (lx : location) :
  signed sx (binary_round_aux prec emax sx mx ex lx).
Proof.
  unfold binary_round_aux.
  destruct (shr_fexp prec emax mx ex lx) as [mrs1 e1].
  destruct (shr_fexp prec emax _ e1 loc_Exact) as [mrs2 e2].
  destruct (shr_m mrs2); simpl; try done.
  by destruct (e2 <=? emax - prec).
Qed.

Lemma iter_xO_value (m k : positive) : Zpos (Pos.iter xO m k) = Zpos m * 2 ^ Zpos k.
Proof.
  induction k as [| k IH] using Pos.peano_ind.
  - simpl. lia.
  - rewrite Pos.iter_succ, Pos2Z.inj_xO, IH, Pos2Z.inj_succ, Z.pow_succ_r by lia.
    lia.
Qed.

Lemma iter_xO_digits (m k : positive) :
  Zpos (digits2_pos (Pos.iter xO m k)) = Zpos (digits2_pos m) + Zpos k.
Proof.
  induction k as [| k IH] using Pos.peano_ind.
  - simpl. lia.
  - rewrite Pos.iter_succ. simpl digits2_pos. lia.
Qed.

(** What [binary_round] starts from: the mantissa aligned to the exponent
    of its magnitude, the value unchanged. *)
Lemma shl_align_fexp (m : positive) (e : Z) :
  emin <= Zpos (digits2_pos m) + e - prec ->
  let '(mz, ez) := shl_align m e (fexp prec emax (Zpos (digits2_pos m) + e)) in
  ez = Z.min e (Zpos (digits2_pos m) + e - prec) /\
  Zpos mz = Zpos m * 2 ^ (e - ez) /\
  Zpos (digits2_pos mz) = Zpos (digits2_pos m) + (e - ez).
Proof.
  intros Hn. unfold shl_align.
  assert (Hf : fexp prec emax (Zpos (digits2_pos m) + e)
               = Zpos (digits2_pos m) + e - prec) by (unfold fexp; lia).
  rewrite Hf.
  destruct (Zpos (digits2_pos m) + e - prec - e) as [| k | k] eqn:Hk.
  - replace (e - e) with 0 by lia. rewrite Z.pow_0_r. repeat split; lia.
  - replace (e - e) with 0 by lia. rewrite Z.pow_0_r. repeat split; lia.
  - replace (e - (Zpos (digits2_pos m) + e - prec)) with (Zpos k) by lia.
    rewrite iter_xO_value, iter_xO_digits. repeat split; lia.
Qed.

Lemma binary_round_below (s : bool) (m : positive) (e : Z) :
  emin <= Zpos (digits2_pos m) + e - prec ->
  below s (e - 52) ((1 + eps52) * F2R (Zpos m) e) (binary_round prec emax s m e).
Proof.
  intros Hn. unfold binary_round.
  pose proof (shl_align_fexp m e Hn) as Ha.
  destruct (shl_align m e _) as [mz ez]. destruct Ha as (Hez & Hmz & Hdz).
  pose proof (binary_round_aux_below s mz ez loc_Exact) as Hb.
  assert (Hk : 0 <= e - ez) by lia.
  rewrite <- (F2R_shift (Zpos m) e (e - ez) Hk), <- Hmz.
  replace (e - (e - ez)) with ez by lia.
  eapply below_weaken; [| apply Rle_refl | apply Hb; [lia | by left]].
  pose proof (Pos2Z.is_pos (digits2_pos m)). unfold prec in *. lia.
Qed.

(** A mantissa of full width at a representable exponent is kept. *)
Lemma binary_round_aux_exact (s : bool) (m : positive) (e : Z) :
  Zpos (digits2_pos m) = prec -> emin <= e <= emax - prec ->
  binary_round_aux prec emax s (Zpos m) e loc_Exact = S754_finite s m e.
Proof.
  intros Hd He. unfold binary_round_aux, shr_fexp. simpl Zdigits2.
  assert (Hf : fexp prec emax (Zpos (digits2_pos m) + e) - e = 0)
    by (unfold fexp; lia).
  rewrite Hf. simpl. rewrite Hf. simpl.
  destruct (e <=? emax - prec) eqn:Hle; [done | apply Z.leb_gt in Hle; lia].
Qed.

(** The float of a nonzero integer below 2^53 in magnitude is that
    integer. *)
Lemma binary_normalize_small (z : Z) :
  z <> 0 -> Z.abs z < 2 ^ 53 ->
  exists m e,
    binary_normalize prec emax z 0 false = S754_finite (z <? 0) m e /\
    Zpos (digits2_pos m) = prec /\ -52 <= e <= 0 /\
    F2R (Zpos m) e = IZR (Z.abs z) /\
    valid_binary (S754_finite (z <? 0) m e) = true.
Proof.
  intros Hz Hlt.
  assert (Hgen : forall (s : bool) (p : positive), Zpos p < 2 ^ 53 ->
    exists m e,
      binary_round prec emax s p 0 = S754_finite s m e /\
      Zpos (digits2_pos m) = prec /\ -52 <= e <= 0 /\
      F2R (Zpos m) e = IZR (Zpos p) /\
      valid_binary (S754_finite s m e) = true).
  { intros s p Hp. unfold binary_round.
    assert (Hd : Zpos (digits2_pos p) <= 53).
    { destruct (Z.le_gt_cases (Zpos (digits2_pos p)) 53) as [H | H]; [done |].
      pose proof (digits2_pos_lower p) as Hl.
      assert (2 ^ 53 <= 2 ^ (Zpos (digits2_pos p) - 1))
        by (apply Z.pow_le_mono_r; lia). lia. }
    pose proof (Pos2Z.is_pos (digits2_pos p)) as Hd0.
    pose proof (shl_align_fexp p 0 ltac:(unfold emin, prec, emax; lia)) as Ha.
    destruct (shl_align p 0 _) as [mz ez]. destruct Ha as (Hez & Hmz & Hdz).
    unfold prec in *.
    assert (Hez' : ez = Zpos (digits2_pos p) - 53) by lia.
    exists mz, ez. split.
    { apply binary_round_aux_exact; unfold emin, prec, emax; lia. }
    split; [unfold prec; lia |]. split; [lia |]. split.
    - rewrite Hmz. replace ez with (0 - (0 - ez)) at 2 by lia.
      rewrite F2R_shift by lia. unfold F2R. simpl. ring.
    - unfold SpecFloat.valid_binary, bounded, canonical_mantissa, fexp.
      unfold SpecFloat.emin, emax.
      apply andb_true_iff. split; [apply Z.eqb_eq | apply Z.leb_le].
      + unfold SpecFloat.fexp, SpecFloat.emin. lia.
      + lia. }
  destruct z as [| p | p]; [done | |]; simpl in Hlt.
  - destruct (Hgen false p Hlt) as (m & e & H). exists m, e. exact H.
  - destruct (Hgen true p Hlt) as (m & e & H). exists m, e. exact H.
Qed.

Lemma float64_of_int_exact (z : Z) :
  Z.abs z < 2 ^ 53 -> exactly z (Prim2SF (float64_of_int z)).
Proof.
  intros Hz. unfold exactly, float64_of_int.
  destruct (z =? 0) eqn:H0.
  - apply Z.eqb_eq in H0. subst z. reflexivity.
  - apply Z.eqb_neq in H0.
    destruct (binary_normalize_small z H0 Hz) as (m & e & -> & Hd & He & Hv & Hvalid).
    rewrite Prim2SF_SF2Prim by exact Hvalid. by exists m, e.
Qed.

Lemma Prim2SF_1e9 : Prim2SF 1e9 = S754_finite false 8388608000000000 (-23).
Proof. vm_compute. reflexivity. Qed.

Lemma F2R_nonneg (m : positive) (e : Z) : (0 < F2R (Zpos m) e)%R.
Proof.
  unfold F2R. apply Rmult_lt_0_compat; [| apply pow2_pos].
  apply IZR_lt. lia.
Qed.

(** The quotient of two floats of full width. *)
Lemma div_below (s1 s2 : bool) (m1 m2 : positive) (e1 e2 : Z) :
  Zpos (digits2_pos m1) = prec -> Zpos (digits2_pos m2) = prec ->
  emin + prec <= e1 - e2 - prec ->
  below (xorb s1 s2) (e1 - e2 - prec)
        ((1 + eps52) * (F2R (Zpos m1) e1 / F2R (Zpos m2) e2))
        (SF64div (S754_finite s1 m1 e1) (S754_finite s2 m2 e2)).
Proof.
  intros Hd1 Hd2 Hn. unfold SF64div, SFdiv, SFdiv_core_binary.
  cbn [Zdigits2]. rewrite Hd1, Hd2.
  assert (He' : Z.min (fexp prec emax (prec + e1 - (prec + e2))) (e1 - e2)
                = e1 - e2 - prec).
  { unfold SpecFloat.fexp, prec in *. lia. }
  rewrite He'. replace (e1 - e2 - (e1 - e2 - prec)) with 53 by (unfold prec; lia).
  cbv iota. rewrite Z.shiftl_mul_pow2 by lia.
  pose proof (digits2_pos_lower m1) as Hlo. pose proof (digits2_pos_upper m2) as Hup.
  rewrite Hd1 in Hlo. rewrite Hd2 in Hup.
  change (2 ^ (prec - 1)) with 4503599627370496 in Hlo.
  change (2 ^ prec) with 9007199254740992 in Hup.
  change (2 ^ 53) with 9007199254740992.
  pose proof (Z_div_mod (Zpos m1 * 9007199254740992) (Zpos m2) ltac:(lia)) as Hdm.
  destruct (Z.div_eucl (Zpos m1 * 9007199254740992) (Zpos m2)) as [q r].
  destruct Hdm as [Hq Hr].
  assert (Hq52 : 4503599627370496 <= q) by nia.
  destruct q as [| q | q]; [lia | | lia].
  assert (Hdq : 53 <= Zpos (digits2_pos q)).
  { destruct (Z.le_gt_cases 53 (Zpos (digits2_pos q))) as [H | H]; [done |].
    pose proof (digits2_pos_upper q) as Heps.
    assert (2 ^ Zpos (digits2_pos q) <= 2 ^ 52) by (apply Z.pow_le_mono_r; lia).
    change (2 ^ 52) with 4503599627370496 in *. lia. }
  eapply below_weaken;
    [| | apply binary_round_aux_below;
         [unfold SpecFloat.emin, prec, emax in *; lia | by right]].
  - lia.
  - apply Rmult_le_compat_l; [pose proof eps52_pos; lra |].
    pose proof (F2R_nonneg m2 e2) as Hpos2.
    apply Rmult_le_reg_r with (F2R (Zpos m2) e2); [done |].
    unfold Rdiv. rewrite Rmult_assoc, Rinv_l, Rmult_1_r by lra.
    unfold F2R.
    replace e1 with ((e1 - e2 - prec) + (prec + e2)) at 2 by lia.
    rewrite !pow2_add.
    pose proof (pow2_pos (e1 - e2 - prec)) as Hp. pose proof (pow2_pos e2) as Hp2.
    assert (Hqr : (IZR (Zpos q) * IZR (Zpos m2) <= IZR (Zpos m1) * powerRZ 2 prec)%R).
    { rewrite <- mult_IZR.
      change (powerRZ 2 prec) with (powerRZ 2 53). rewrite <- IZR_pow2 by lia.
      rewrite <- mult_IZR. apply IZR_le.
      change (2 ^ 53) with 9007199254740992. lia. }
    replace (IZR (Zpos q) * powerRZ 2 (e1 - e2 - prec) * (IZR (Zpos m2) * powerRZ 2 e2))%R
      with ((IZR (Zpos q) * IZR (Zpos m2)) * (powerRZ 2 (e1 - e2 - prec) * powerRZ 2 e2))%R
      by ring.
    replace (IZR (Zpos m1) * (powerRZ 2 (e1 - e2 - prec) * (powerRZ 2 prec * powerRZ 2 e2)))%R
      with ((IZR (Zpos m1) * powerRZ 2 prec) * (powerRZ 2 (e1 - e2 - prec) * powerRZ 2 e2))%R
      by ring.
    apply Rmult_le_compat_r; [| exact Hqr].
    apply Rlt_le, Rmult_lt_0_compat; lra.
Qed.

Lemma shl_align_value (m : positive) (e ez : Z) :
  ez <= e -> Zpos (fst (shl_align m e ez)) = Zpos m * 2 ^ (e - ez).
Proof.
  intros Hle. unfold shl_align.
  destruct (ez - e) as [| k | k] eqn:Hk; simpl fst.
  - replace (e - ez) with 0 by lia. lia.
  - lia.
  - rewrite iter_xO_value. f_equal. f_equal. lia.
Qed.

(** The sum of two floats of one sign. *)
Lemma add_below (s : bool) (L : Z) (vx vy : R) (x y : spec_float) :
  emin + 52 <= L -> (0 <= vx)%R -> (0 <= vy)%R ->
  below s L vx x -> below s L vy y ->
  below s (L - 52) ((1 + eps52) * (vx + vy)) (SF64add x y).
Proof.
  intros HL Hvx Hvy Hx Hy. pose proof eps52_pos as Heps.
  assert (Hwx : (vx <= (1 + eps52) * (vx + vy))%R) by nra.
  assert (Hwy : (vy <= (1 + eps52) * (vx + vy))%R) by nra.
  destruct x as [sx | sx | | sx mx ex]; destruct y as [sy | sy | | sy my ey];
    try exact I;
    try (by destruct sx, sy);
    try (eapply below_weaken; [| | eassumption]; [lia | lra]).
  destruct Hx as (-> & Hex & Hmx). destruct Hy as (-> & Hey & Hmy).
  unfold SF64add, SFadd.
  set (ez := Z.min ex ey).
  pose proof (shl_align_value mx ex ez ltac:(lia)) as Hax.
  pose proof (shl_align_value my ey ez ltac:(lia)) as Hay.
  set (ax := fst (shl_align mx ex ez)) in *.
  set (ay := fst (shl_align my ey ez)) in *.
  assert (Hsum : binary_normalize prec emax
                   (cond_Zopp s (Zpos ax) + cond_Zopp s (Zpos ay)) ez false
                 = binary_round prec emax s (ax + ay) ez)
    by (destruct s; reflexivity).
  rewrite Hsum.
  assert (Hval : F2R (Zpos (ax + ay)) ez
                 = (F2R (Zpos mx) ex + F2R (Zpos my) ey)%R).
  { rewrite Pos2Z.inj_add, Hax, Hay.
    rewrite <- (F2R_shift (Zpos mx) ex (ex - ez)) by lia.
    rewrite <- (F2R_shift (Zpos my) ey (ey - ez)) by lia.
    replace (ex - (ex - ez)) with ez by lia.
    replace (ey - (ey - ez)) with ez by lia.
    unfold F2R. rewrite plus_IZR. ring. }
  eapply below_weaken; [| | apply binary_round_below].
  - lia.
  - rewrite Hval. apply Rmult_le_compat_l; lra.
  - pose proof (Pos2Z.is_pos (digits2_pos (ax + ay))).
    unfold SpecFloat.emin, prec, emax in *. lia.
Qed.

(** The product of a float and a float that is not negative. *)
Lemma mul_below (s : bool) (L1 L2 : Z) (vx vy : R) (x y : spec_float) :
  emin + 52 <= L1 + L2 -> (0 <= vx)%R -> (0 <= vy)%R ->
  below s L1 vx x -> below false L2 vy y ->
  below s (L1 + L2) ((1 + eps52) * (vx * vy)) (SF64mul x y).
Proof.
  intros HL Hvx Hvy Hx Hy. pose proof eps52_pos as Heps.
  destruct x as [sx | sx | | sx mx ex]; destruct y as [sy | sy | | sy my ey];
    try exact I.
  destruct Hx as (-> & Hex & Hmx). destruct Hy as (-> & Hey & Hmy).
  unfold SF64mul, SFmul. rewrite xorb_false_r.
  assert (Hval : F2R (Zpos (mx * my)) (ex + ey)
                 = (F2R (Zpos mx) ex * F2R (Zpos my) ey)%R).
  { unfold F2R. rewrite Pos2Z.inj_mul, mult_IZR, pow2_add. ring. }
  pose proof (F2R_nonneg mx ex) as Hpx. pose proof (F2R_nonneg my ey) as Hpy.
  eapply below_weaken; [| | apply binary_round_aux_below].
  - lia.
  - rewrite Hval. apply Rmult_le_compat_l; [lra |].
    apply Rmult_le_compat; lra.
  - pose proof (Pos2Z.is_pos (digits2_pos (mx * my))).
    unfold SpecFloat.emin, prec, emax in *. lia.
  - by left.
Qed.

Lemma truncate_le_F2R (m : positive) (e : Z) :
  (IZR (truncate false m e) <= F2R (Zpos m) e)%R.
Proof.
  unfold truncate, F2R. destruct (0 <=? e) eqn:He.
  - apply Z.leb_le in He. rewrite Z.shiftl_mul_pow2, mult_IZR, IZR_pow2 by lia.
    lra.
  - apply Z.leb_gt in He. rewrite Z.shiftr_div_pow2 by lia.
    assert (Hp : 0 < 2 ^ (- e)) by (apply Z.pow_pos_nonneg; lia).
    pose proof (Z.mul_div_le (Zpos m) (2 ^ (- e)) Hp) as Hd.
    apply IZR_le in Hd. rewrite mult_IZR, IZR_pow2 in Hd by lia.
    pose proof (pow2_pos e) as Hpe. pose proof (pow2_pos (- e)) as Hpn.
    assert (Hone : (powerRZ 2 (- e) * powerRZ 2 e = 1)%R).
    { rewrite <- pow2_add. replace (- e + e) with 0 by lia. reflexivity. }
    set (t := IZR (Zpos m / 2 ^ (- e))) in *.
    replace t with (t * (powerRZ 2 (- e) * powerRZ 2 e))%R by (rewrite Hone; ring).
    replace (t * (powerRZ 2 (- e) * powerRZ 2 e))%R
      with ((powerRZ 2 (- e) * t) * powerRZ 2 e)%R by ring.
    apply Rmult_le_compat_r; lra.
Qed.

Lemma min_int_neg : (IZR GoInt.min_int <= 0)%R.
Proof. apply IZR_le. unfold GoInt.min_int. lia. Qed.

(** [int(f)] is at most what bounds [f]. *)
Lemma int_of_float64_below (f : float) (L : Z) (v : R) :
  (0 <= v)%R -> below false L v (Prim2SF f) ->
  (IZR (int_of_float64 f) <= v)%R.
Proof.
  intros Hv Hb. unfold int_of_float64. pose proof min_int_neg as Hm.
  destruct (Prim2SF f) as [s | s | | s m e]; try lra.
  destruct Hb as (-> & _ & Hle).
  destruct (GoInt.in_rangeb _); [| lra].
  pose proof (truncate_le_F2R m e). lra.
Qed.

(** [int(f)] of a float that is not positive is not positive. *)
Lemma int_of_float64_nonpos (f : float) :
  signed true (Prim2SF f) -> int_of_float64 f <= 0.
Proof.
  intros Hs. unfold int_of_float64.
  destruct (Prim2SF f) as [s | s | | s m e];
    try (unfold GoInt.min_int; lia).
  simpl in Hs. subst s.
  destruct (GoInt.in_rangeb _); [| unfold GoInt.min_int; lia].
  unfold truncate. destruct (0 <=? e) eqn:He.
  - apply Z.leb_le in He. rewrite Z.shiftl_mul_pow2 by lia.
    pose proof (Z.pow_pos_nonneg 2 e). lia.
  - pose proof (Z.shiftr_nonneg (Zpos m) (- e)). lia.
Qed.

Lemma exactly_below (z : Z) (x : spec_float) :
  0 <= z -> exactly z x -> below false (-52) (IZR z) x.
Proof.
  unfold exactly. intros Hz. destruct (z =? 0) eqn:H0.
  - intros ->. exact I.
  - apply Z.eqb_neq in H0. intros (m & e & -> & _ & He & Hv).
    simpl. rewrite Hv, Z.abs_eq by lia.
    destruct (z <? 0) eqn:Hlt; [apply Z.ltb_lt in Hlt; lia |].
    repeat split; [lia | lra].
Qed.

Lemma exactly_signed (z : Z) (x : spec_float) :
  z <= 0 -> exactly z x -> signed true x.
Proof.
  unfold exactly. intros Hz. destruct (z =? 0) eqn:H0.
  - intros ->. exact I.
  - apply Z.eqb_neq in H0. intros (m & e & -> & _). simpl.
    apply Z.ltb_lt. lia.
Qed.

Lemma F2R_1e9 : F2R 8388608000000000 (-23) = 1000000000%R.
Proof.
  unfold F2R. change (-23) with (- (23)). rewrite powerRZ_neg'.
  rewrite <- IZR_pow2 by lia. change (2 ^ 23) with 8388608. field.
Qed.

(** The fraction of a second: [float64(nsec) / 1e9]. *)
Lemma fraction_below (nsec : Z) :
  0 <= nsec < 2 ^ 53 ->
  below false (-82) ((1 + eps52) * (IZR nsec / 1000000000))
        (Prim2SF (float64_of_int nsec / 1e9)).
Proof.
  intros Hn. rewrite div_spec.
  pose proof (float64_of_int_exact nsec ltac:(lia)) as Hx. unfold exactly in Hx.
  destruct (nsec =? 0) eqn:H0.
  - rewrite Hx, Prim2SF_1e9. exact I.
  - destruct Hx as (m & e & -> & Hd & He & Hv).
    destruct (nsec <? 0) eqn:Hlt; [apply Z.ltb_lt in Hlt; lia |].
    rewrite Prim2SF_1e9.
    assert (Hnorm : emin + prec <= e - -23 - prec)
      by (unfold SpecFloat.emin, prec, emax; lia).
    pose proof (div_below false false m 8388608000000000 e (-23) Hd eq_refl Hnorm)
      as Hdiv.
    rewrite Hv, F2R_1e9, Z.abs_eq in Hdiv by lia.
    eapply below_weaken; [| apply Rle_refl | exact Hdiv].
    unfold prec. lia.
Qed.

Lemma fraction_signed (nsec : Z) :
  - 2 ^ 53 < nsec <= 0 ->
  signed true (Prim2SF (float64_of_int nsec / 1e9)).
Proof.
  intros Hn. rewrite div_spec.
  pose proof (float64_of_int_exact nsec ltac:(lia)) as Hx. unfold exactly in Hx.
  destruct (nsec =? 0) eqn:H0.
  - rewrite Hx, Prim2SF_1e9. exact I.
  - apply Z.eqb_neq in H0. destruct Hx as (m & e & -> & _).
    destruct (nsec <? 0) eqn:Hlt; [| apply Z.ltb_ge in Hlt; lia].
    rewrite Prim2SF_1e9. unfold SF64div, SFdiv.
    destruct (SFdiv_core_binary _ _ _ _ _ _) as [[mz ez] lz].
    apply binary_round_aux_signed.
Qed.

Lemma binary_round_signed (s : bool) (m : positive) (e : Z) :
  signed s (binary_round prec emax s m e).
Proof.
  unfold binary_round. destruct (shl_align m e _) as [mz ez].
  apply binary_round_aux_signed.
Qed.

Lemma add_signed (s : bool) (x y : spec_float) :
  signed s x -> signed s y -> signed s (SF64add x y).
Proof.
  intros Hx Hy.
  destruct x as [sx | sx | | sx mx ex]; destruct y as [sy | sy | | sy my ey];
    try exact I; try (by destruct sx, sy); try assumption.
  simpl in Hx, Hy. subst sx sy. unfold SF64add, SFadd.
  set (ez := Z.min ex ey).
  set (ax := fst (shl_align mx ex ez)). set (ay := fst (shl_align my ey ez)).
  assert (Hsum : binary_normalize prec emax
                   (cond_Zopp s (Zpos ax) + cond_Zopp s (Zpos ay)) ez false
                 = binary_round prec emax s (ax + ay) ez)
    by (destruct s; reflexivity).
  rewrite Hsum. apply binary_round_signed.
Qed.

Lemma mul_signed (s : bool) (x y : spec_float) :
  signed s x -> signed false y -> signed s (SF64mul x y).
Proof.
  intros Hx Hy.
  destruct x as [sx | sx | | sx mx ex]; destruct y as [sy | sy | | sy my ey];
    try exact I.
  simpl in Hx, Hy. subst sx sy. unfold SF64mul, SFmul. rewrite xorb_false_r.
  apply binary_round_aux_signed.
Qed.

(** The seconds and the nanoseconds of a duration. *)
Lemma quot_rem_Second (d : Z) :
  d = Z.quot d Second * 1000000000 + Z.rem d Second /\
  (0 <= d -> 0 <= Z.quot d Second <= d /\ 0 <= Z.rem d Second < 1000000000) /\
  (d <= 0 -> d <= Z.quot d Second <= 0 /\ - 1000000000 < Z.rem d Second <= 0).
Proof.
  change Second with 1000000000.
  pose proof (Z.quot_rem' d 1000000000) as Hqr.
  split; [lia |]. split; intros Hd.
  - pose proof (Z.rem_bound_pos d 1000000000 Hd ltac:(lia)).
    assert (0 <= Z.quot d 1000000000) by (apply Z.quot_pos; lia). lia.
  - assert (Hr : Z.rem d 1000000000 = - Z.rem (- d) 1000000000)
      by (rewrite Z.rem_opp_l by lia; lia).
    assert (Hq : Z.quot d 1000000000 = - Z.quot (- d) 1000000000)
      by (rewrite Z.quot_opp_l by lia; lia).
    pose proof (Z.rem_bound_pos (- d) 1000000000 ltac:(lia) ltac:(lia)).
    assert (0 <= Z.quot (- d) 1000000000) by (apply Z.quot_pos; lia).
    lia.
Qed.

Lemma one_plus_eps52_cubed : ((1 + eps52) * ((1 + eps52) * (1 + eps52)) <= 1 + 4 * eps52)%R.
Proof.
  assert (Heps : (0 < eps52 <= / 4)%R).
  { split; [apply eps52_pos |]. unfold eps52. change (2 ^ 52) with 4503599627370496.
    apply Rinv_le_contravar; lra. }
  nra.
Qed.

(** The tokens a positive duration buys are at most the exact product,
    up by three roundings. *)
Lemma tokensToAdd_upper (d m : Z) :
  0 <= d < 2 ^ 63 -> 0 <= m < 2 ^ 53 ->
  (IZR (tokensToAdd d m) * 1000000000 <= (1 + 4 * eps52) * (IZR d * IZR m))%R.
Proof.
  intros Hd Hm. unfold tokensToAdd, Seconds.
  destruct (quot_rem_Second d) as (Hsplit & Hpos & _).
  destruct (Hpos ltac:(lia)) as [Hsec Hnsec].
  set (sec := Z.quot d Second) in *. set (nsec := Z.rem d Second) in *.
  pose proof eps52_pos as Heps.
  assert (H53 : 2 ^ 63 < 2 ^ 53 * 1000000000) by reflexivity.
  assert (Hsec53 : sec < 2 ^ 53) by (change (2 ^ 53) with 9007199254740992 in *;
                                     change (2 ^ 63) with 9223372036854775808 in *; lia).
  assert (Hnsec53 : nsec < 2 ^ 53) by (change (2 ^ 53) with 9007199254740992; lia).
  assert (Rsec : (0 <= IZR sec)%R) by (apply IZR_le; lia).
  assert (Rnsec : (0 <= IZR nsec)%R) by (apply IZR_le; lia).
  assert (Rm : (0 <= IZR m)%R) by (apply IZR_le; lia).
  pose proof (exactly_below sec _ ltac:(lia) (float64_of_int_exact sec ltac:(lia)))
    as Hx1.
  pose proof (fraction_below nsec ltac:(lia)) as Hx3.
  pose proof (exactly_below m _ ltac:(lia) (float64_of_int_exact m ltac:(lia)))
    as Hx5.
  assert (Hx4 : below false (-134)
                  ((1 + eps52) * (IZR sec + (1 + eps52) * (IZR nsec / 1000000000)))
                  (Prim2SF (float64_of_int sec + float64_of_int nsec / 1e9))).
  { rewrite add_spec.
    change (-134) with (-82 - 52).
    apply add_below; [unfold SpecFloat.emin, prec, emax; lia | lra | |
                      eapply below_weaken; [| apply Rle_refl | exact Hx1]; lia
                      | exact Hx3].
    apply Rmult_le_pos; [lra |]. apply Rmult_le_pos; [lra |]. lra. }
  set (v4 := ((1 + eps52) * (IZR sec + (1 + eps52) * (IZR nsec / 1000000000)))%R) in *.
  assert (Hv4 : (0 <= v4)%R).
  { unfold v4. apply Rmult_le_pos; [lra |].
    assert (0 <= (1 + eps52) * (IZR nsec / 1000000000))%R
      by (apply Rmult_le_pos; lra). lra. }
  assert (Hx6 : below false (-134 + -52) ((1 + eps52) * (v4 * IZR m))
                  (Prim2SF ((float64_of_int sec + float64_of_int nsec / 1e9)
                            * float64_of_int m))).
  { rewrite mul_spec.
    apply mul_below; [unfold SpecFloat.emin, prec, emax; lia | lra | lra | exact Hx4
                      | exact Hx5]. }
  assert (Hv6 : (0 <= (1 + eps52) * (v4 * IZR m))%R).
  { apply Rmult_le_pos; [lra |]. apply Rmult_le_pos; lra. }
  pose proof (int_of_float64_below _ _ _ Hv6 Hx6) as Hn.
  set (n := IZR (int_of_float64 _)) in *.
  assert (Hd' : IZR d = (IZR sec * 1000000000 + IZR nsec)%R).
  { rewrite Hsplit at 1. rewrite plus_IZR, mult_IZR. reflexivity. }
  pose proof one_plus_eps52_cubed as Hc.
  assert (Hv : ((1 + eps52) * (v4 * IZR m) * 1000000000
                <= (1 + eps52) * ((1 + eps52) * (1 + eps52)) * (IZR d * IZR m))%R).
  { unfold v4. rewrite Hd'.
    replace ((1 + eps52) * ((1 + eps52) * (IZR sec + (1 + eps52) * (IZR nsec / 1000000000)) * IZR m)
             * 1000000000)%R
      with ((1 + eps52) * (1 + eps52) * IZR m
            * (IZR sec * 1000000000 + (1 + eps52) * IZR nsec))%R by (field; lra).
    replace ((1 + eps52) * ((1 + eps52) * (1 + eps52))
             * ((IZR sec * 1000000000 + IZR nsec) * IZR m))%R
      with ((1 + eps52) * (1 + eps52) * IZR m
            * ((1 + eps52) * (IZR sec * 1000000000) + (1 + eps52) * IZR nsec))%R by ring.
    apply Rmult_le_compat_l.
    - apply Rmult_le_pos; [| lra]. apply Rmult_le_pos; lra.
    - assert (0 <= eps52 * (IZR sec * 1000000000))%R
        by (apply Rmult_le_pos; lra). lra. }
  assert (Hdm : (0 <= IZR d * IZR m)%R)
    by (apply Rmult_le_pos; [rewrite Hd' |]; lra).
  apply Rle_trans with ((1 + eps52) * (v4 * IZR m) * 1000000000)%R.
  - apply Rmult_le_compat_r; lra.
  - eapply Rle_trans; [exact Hv |]. apply Rmult_le_compat_r; lra.
Qed.

(** A duration that is not positive buys no token. *)
Lemma tokensToAdd_nonpos (d m : Z) :
  - 2 ^ 63 <= d <= 0 -> 0 <= m < 2 ^ 53 -> tokensToAdd d m <= 0.
Proof.
  intros Hd Hm. unfold tokensToAdd, Seconds.
  destruct (quot_rem_Second d) as (Hsplit & _ & Hneg).
  destruct (Hneg ltac:(lia)) as [Hsec Hnsec].
  set (sec := Z.quot d Second) in *. set (nsec := Z.rem d Second) in *.
  apply int_of_float64_nonpos. rewrite mul_spec.
  apply mul_signed.
  - rewrite add_spec. apply add_signed.
    + apply (exactly_signed sec); [lia |]. apply float64_of_int_exact.
      change (2 ^ 53) with 9007199254740992.
      change (2 ^ 63) with 9223372036854775808 in *. lia.
    + apply fraction_signed. change (2 ^ 53) with 9007199254740992. lia.
  - eapply below_signed. apply (exactly_below m); [lia |].
    apply float64_of_int_exact. lia.
Qed.

Lemma eps52_value : eps52 = (/ 4503599627370496)%R.
Proof. reflexivity. Qed.

(** Below 10^15 nanosecond-tokens the float product never buys more than the
    exact one: [tokensToAdd <= floor(d * m / 10^9)]. *)
Lemma tokensToAdd_le_floor (d m : Z) :
  0 <= d < 2 ^ 63 -> 0 <= m < 2 ^ 53 -> d * m < 10 ^ 15 ->
  tokensToAdd d m <= (d * m) / 1000000000.
Proof.
  intros Hd Hm Hdm. pose proof (tokensToAdd_upper d m Hd Hm) as Hup.
  apply Z.div_le_lower_bound; [lia |].
  assert (Hlt : tokensToAdd d m * 1000000000 < d * m + 1); [| lia].
  apply lt_IZR. rewrite plus_IZR, !mult_IZR.
  assert (HP : (0 <= IZR d * IZR m < 1000000000000000)%R).
  { rewrite <- mult_IZR. split; [apply IZR_le; nia |].
    apply IZR_lt. change (10 ^ 15) with 1000000000000000 in Hdm. lia. }
  rewrite eps52_value in Hup. lra.
Qed.

(** With fewer than 10^9 tokens a second, a refill cannot carry a bucket
    beyond the largest [int]. *)
Lemma tokensToAdd_no_overflow (d m : Z) :
  - 2 ^ 63 <= d < 2 ^ 63 -> 0 <= m < 1000000000 ->
  tokensToAdd d m <= GoInt.max_int - 2 * m.
Proof.
  intros Hd Hm.
  assert (Hm53 : 0 <= m < 2 ^ 53) by (change (2 ^ 53) with 9007199254740992; lia).
  destruct (Z.le_gt_cases d 0) as [Hneg | Hpos].
  - pose proof (tokensToAdd_nonpos d m ltac:(lia) Hm53).
    unfold GoInt.max_int. change (2 ^ 63) with 9223372036854775808. lia.
  - pose proof (tokensToAdd_upper d m ltac:(lia) Hm53) as Hup.
    apply le_IZR. unfold GoInt.max_int.
    change (2 ^ 63 - 1) with 9223372036854775807.
    rewrite minus_IZR, mult_IZR.
    assert (Rd : (0 <= IZR d <= 9223372036854775808)%R).
    { split; apply IZR_le; [lia |].
      change (2 ^ 63) with 9223372036854775808 in Hd. lia. }
    assert (Rm : (0 <= IZR m <= 999999999)%R) by (split; apply IZR_le; lia).
    assert (Hdm : (IZR d * IZR m <= 9223372036854775808 * IZR m)%R)
      by (apply Rmult_le_compat_r; lra).
    rewrite eps52_value in Hup. lra.
Qed.

(** ** Rounding, from below *)

Lemma digits2_pos_le (m : positive) (k : Z) :
  Zpos m < 2 ^ k -> Zpos (digits2_pos m) <= k.
Proof.
  intros Hm. destruct (Z.le_gt_cases (Zpos (digits2_pos m)) k) as [H | H]; [done |].
  pose proof (digits2_pos_lower m) as Hl.
  assert (0 <= k).
  { destruct (Z.le_gt_cases 0 k); [done |]. rewrite Z.pow_neg_r in Hm; lia. }
  assert (2 ^ k <= 2 ^ (Zpos (digits2_pos m) - 1)) by (apply Z.pow_le_mono_r; lia).
  lia.
Qed.

Lemma digits2_pos_ge (m : positive) (k : Z) :
  2 ^ k <= Zpos m -> k + 1 <= Zpos (digits2_pos m).
Proof.
  intros Hm. destruct (Z.le_gt_cases (k + 1) (Zpos (digits2_pos m))) as [H | H]; [done |].
  pose proof (digits2_pos_upper m) as Hu.
  assert (2 ^ Zpos (digits2_pos m) <= 2 ^ k) by (apply Z.pow_le_mono_r; lia).
  lia.
Qed.

(** The rounding of a positive mantissa in the normal range, away from
    overflow, is finite and moves the value down by at most one part in
    2^52. *)
Lemma binary_round_aux_lower (sx : bool) (mx : positive) (ex : Z) (lx : location) :
  let d := Zpos (digits2_pos mx) in
  emin <= d + ex - prec ->
  ex + Z.max 0 (d - prec) + 1 <= emax - prec ->
  (lx = loc_Exact \/ 2 ^ 52 <= Zpos mx) ->
  exists m e,
    binary_round_aux prec emax sx (Zpos mx) ex lx = S754_finite sx m e /\
    ex <= e <= ex + Z.max 0 (d - prec) + 1 /\
    (2 ^ 52 - 1) * Zpos mx <= 2 ^ 52 * (Zpos m * 2 ^ (e - ex)).
Proof.
  intros d Hnorm Hover Hloc. unfold binary_round_aux, shr_fexp.
  assert (Hfexp : fexp prec emax (Zdigits2 (Zpos mx) + ex) = d + ex - prec).
  { unfold fexp. simpl Zdigits2. fold d. lia. }
  rewrite Hfexp.
  pose proof (shr_spec (shr_record_of_loc (Zpos mx) lx) ex (d + ex - prec - ex)) as Hs1.
  rewrite shr_m_of_loc in Hs1. specialize (Hs1 ltac:(lia)).
  destruct (shr (shr_record_of_loc (Zpos mx) lx) ex (d + ex - prec - ex))
    as [mrs1 e1]. cbn [fst snd] in Hs1. destruct Hs1 as (He1 & Hm1 & Hid1).
  replace (Z.max 0 (d + ex - prec - ex)) with (Z.max 0 (d - prec)) in * by lia.
  set (a := Z.max 0 (d - prec)) in *.
  assert (Hpa : 0 < 2 ^ a) by (apply Z.pow_pos_nonneg; lia).
  pose proof (digits2_pos_lower mx) as Hdl. pose proof (digits2_pos_upper mx) as Hdu.
  fold d in Hdl, Hdu.
  pose proof (Z.div_mod (Zpos mx) (2 ^ a) ltac:(lia)) as Hdm.
  pose proof (Z.mod_pos_bound (Zpos mx) (2 ^ a) Hpa) as Hrem.
  rewrite <- Hm1 in Hdm.
  (* the shifted mantissa: at most 53 bits, and 53 bits after a real shift *)
  assert (Hm1hi : shr_m mrs1 < 2 ^ 53).
  { rewrite Hm1. apply Z.div_lt_upper_bound; [lia |].
    rewrite <- Z.pow_add_r by (unfold prec in *; lia).
    eapply Z.lt_le_trans; [exact Hdu |].
    apply Z.pow_le_mono_r; unfold a, prec in *; lia. }
  assert (Hm1lo : 1 <= shr_m mrs1 /\ (0 < a -> 2 ^ 52 <= shr_m mrs1)).
  { split.
    - rewrite Hm1. apply Z.div_le_lower_bound; [lia |].
      destruct (Z.le_gt_cases a 0).
      + replace a with 0 by lia. simpl. lia.
      + eapply Z.le_trans; [| exact Hdl].
        rewrite Z.mul_1_r. apply Z.pow_le_mono_r; unfold a, prec in *; lia.
    - intros Ha. rewrite Hm1. apply Z.div_le_lower_bound; [lia |].
      rewrite Z.mul_comm, <- Z.pow_add_r by (unfold a, prec in *; lia).
      replace (52 + a) with (d - 1) by (unfold a, prec in *; lia).
      exact Hdl. }
  destruct Hm1lo as [Hm1one Hm1big].
  destruct (round_nearest_even_range (shr_m mrs1) (loc_of_shr_record mrs1))
    as [Hr Hex].
  set (mr := round_nearest_even (shr_m mrs1) (loc_of_shr_record mrs1)) in *.
  assert (He1min : emin <= e1) by (unfold a, prec in *; lia).
  (* the second shift: by one when the rounding carried into bit 54 *)
  destruct mr as [| pr | pr] eqn:Emr; [lia | | lia].
  assert (Hb : exists b,
             Z.max 0 (fexp prec emax (Zdigits2 (Zpos pr) + e1) - e1) = b /\
             0 <= b <= 1 /\ (Zpos pr / 2 ^ b) * 2 ^ b = Zpos pr /\
             1 <= Zpos pr / 2 ^ b).
  { destruct (Z.lt_ge_cases (Zpos pr) (2 ^ 53)) as [Hlt | Hge].
    - exists 0. pose proof (digits2_pos_le pr 53 Hlt) as Hd.
      simpl Zdigits2. unfold fexp.
      split; [unfold prec in *; lia |]. split; [lia |].
      rewrite Z.pow_0_r, Z.div_1_r. lia.
    - assert (Heq : Zpos pr = 2 ^ 53) by lia.
      exists 1. simpl Zdigits2.
      assert (Hd : Zpos (digits2_pos pr) = 54).
      { pose proof (digits2_pos_ge pr 53 Hge).
        assert (Zpos pr < 2 ^ 54) by (rewrite Heq; reflexivity).
        pose proof (digits2_pos_le pr 54 ltac:(done)). lia. }
      rewrite Hd. unfold fexp.
      split; [unfold prec in *; lia |]. split; [lia |].
      rewrite Heq. split; [reflexivity | apply Z.leb_le; reflexivity]. }
  destruct Hb as (b & Hbeq & Hb01 & Hbexact & Hbone).
  pose proof (shr_spec (shr_record_of_loc (Zpos pr) loc_Exact) e1
                (fexp prec emax (Zdigits2 (Zpos pr) + e1) - e1)) as Hs2.
  rewrite shr_m_of_loc in Hs2. specialize (Hs2 ltac:(lia)).
  destruct (shr (shr_record_of_loc (Zpos pr) loc_Exact) e1
                (fexp prec emax (Zdigits2 (Zpos pr) + e1) - e1)) as [mrs2 e2].
  cbn [fst snd] in Hs2. destruct Hs2 as (He2 & Hm2 & _).
  rewrite Hbeq in He2, Hm2.
  destruct (shr_m mrs2) as [| m2 | m2] eqn:Em2; [lia | | lia].
  assert (Hle : (e2 <=? emax - prec) = true) by (apply Z.leb_le; lia).
  rewrite Hle. exists m2, e2.
  split; [reflexivity |]. split; [lia |].
  replace (e2 - ex) with (b + a) by lia.
  rewrite Z.pow_add_r by lia.
  assert (Hval : Zpos m2 * (2 ^ b * 2 ^ a) = Zpos pr * 2 ^ a).
  { rewrite Hm2, Z.mul_assoc, Hbexact. reflexivity. }
  rewrite Hval.
  destruct (Z.le_gt_cases a 0) as [Ha0 | Hapos].
  - replace a with 0 in * by lia. rewrite Z.pow_0_r in *. nia.
  - specialize (Hm1big Hapos). nia.
Qed.

Lemma eps52_lt_1 : (eps52 < 1)%R.
Proof.
  rewrite eps52_value. apply Rmult_lt_reg_r with 4503599627370496%R; [lra |].
  rewrite Rinv_l by lra. lra.
Qed.

Lemma binary_round_aux_above (sx : bool) (mx : positive) (ex : Z) (lx : location) :
  emin <= Zpos (digits2_pos mx) + ex - prec ->
  ex + Z.max 0 (Zpos (digits2_pos mx) - prec) + 1 <= emax - prec ->
  (lx = loc_Exact \/ 2 ^ 52 <= Zpos mx) ->
  exists m e,
    binary_round_aux prec emax sx (Zpos mx) ex lx = S754_finite sx m e /\
    ex <= e <= ex + Z.max 0 (Zpos (digits2_pos mx) - prec) + 1 /\
    ((1 - eps52) * F2R (Zpos mx) ex <= F2R (Zpos m) e)%R.
Proof.
  intros Hn Ho Hl.
  destruct (binary_round_aux_lower sx mx ex lx Hn Ho Hl) as (m & e & Heq & He & Hle).
  exists m, e. split; [exact Heq |]. split; [exact He |].
  apply IZR_le in Hle. rewrite !mult_IZR, (IZR_pow2 (e - ex)) in Hle by lia.
  rewrite minus_IZR in Hle.
  unfold F2R. replace e with ((e - ex) + ex) at 1 by lia. rewrite pow2_add.
  pose proof (pow2_pos ex) as Hp. rewrite eps52_value.
  change (IZR (2 ^ 52)) with 4503599627370496%R in Hle.
  set (A := (IZR (Zpos m) * powerRZ 2 (e - ex))%R) in *.
  set (B := IZR (Zpos mx)) in *.
  assert (HA : ((1 - / 4503599627370496) * B <= A)%R).
  { apply Rmult_le_reg_l with 4503599627370496%R; [lra |].
    replace (4503599627370496 * ((1 - / 4503599627370496) * B))%R
      with ((4503599627370496 - 1) * B)%R by (field; lra).
    exact Hle. }
  replace (IZR (Zpos m) * (powerRZ 2 (e - ex) * powerRZ 2 ex))%R
    with (A * powerRZ 2 ex)%R by (unfold A; ring).
  replace ((1 - / 4503599627370496) * (B * powerRZ 2 ex))%R
    with ((1 - / 4503599627370496) * B * powerRZ 2 ex)%R by ring.
  apply Rmult_le_compat_r; lra.
Qed.

Lemma binary_round_above (s : bool) (m : positive) (e : Z) :
  emin <= Zpos (digits2_pos m) + e - prec ->
  Z.max e (Zpos (digits2_pos m) + e - prec) + 1 <= emax - prec ->
  exists m' e',
    binary_round prec emax s m e = S754_finite s m' e' /\
    e' <= Z.max e (Zpos (digits2_pos m) + e - prec) + 1 /\
    ((1 - eps52) * F2R (Zpos m) e <= F2R (Zpos m') e')%R.
Proof.
  intros Hn Ho. unfold binary_round.
  pose proof (shl_align_fexp m e Hn) as Ha.
  destruct (shl_align m e _) as [mz ez]. destruct Ha as (Hez & Hmz & Hdz).
  destruct (binary_round_aux_above s mz ez loc_Exact) as (m' & e' & Heq & He' & Hv);
    [lia | lia | by left |].
  exists m', e'. split; [exact Heq |]. split; [lia |].
  assert (Hk : 0 <= e - ez) by lia.
  rewrite <- (F2R_shift (Zpos m) e (e - ez) Hk), <- Hmz.
  replace (e - (e - ez)) with ez by lia. exact Hv.
Qed.

(** The quotient of two positive floats of full width, from below. *)
Lemma div_above (m1 m2 : positive) (e1 e2 : Z) :
  Zpos (digits2_pos m1) = prec -> Zpos (digits2_pos m2) = prec ->
  emin + prec <= e1 - e2 - prec -> e1 - e2 - prec + 2 <= emax - prec ->
  above (e1 - e2 - prec + 2)
        ((1 - eps52) * ((1 - eps52) * (F2R (Zpos m1) e1 / F2R (Zpos m2) e2)))
        (SF64div (S754_finite false m1 e1) (S754_finite false m2 e2)).
Proof.
  intros Hd1 Hd2 Hn Ho. unfold SF64div, SFdiv, SFdiv_core_binary.
  cbn [Zdigits2]. rewrite Hd1, Hd2.
  assert (He' : Z.min (fexp prec emax (prec + e1 - (prec + e2))) (e1 - e2)
                = e1 - e2 - prec).
  { unfold SpecFloat.fexp, prec in *. lia. }
  rewrite He'. replace (e1 - e2 - (e1 - e2 - prec)) with 53 by (unfold prec; lia).
  cbv iota. rewrite Z.shiftl_mul_pow2 by lia.
  pose proof (digits2_pos_lower m1) as Hlo1. pose proof (digits2_pos_upper m1) as Hup1.
  pose proof (digits2_pos_lower m2) as Hlo2. pose proof (digits2_pos_upper m2) as Hup2.
  rewrite Hd1 in Hlo1, Hup1. rewrite Hd2 in Hlo2, Hup2.
  change (2 ^ (prec - 1)) with 4503599627370496 in *.
  change (2 ^ prec) with 9007199254740992 in *.
  change (2 ^ 53) with 9007199254740992.
  pose proof (Z_div_mod (Zpos m1 * 9007199254740992) (Zpos m2) ltac:(lia)) as Hdm.
  destruct (Z.div_eucl (Zpos m1 * 9007199254740992) (Zpos m2)) as [q r].
  destruct Hdm as [Hq Hr].
  assert (Hq52 : 4503599627370496 <= q) by nia.
  assert (Hq54 : q < 18014398509481984) by nia.
  destruct q as [| q | q]; [lia | | lia].
  pose proof (digits2_pos_ge q 52 Hq52) as Hdq.
  pose proof (digits2_pos_le q 54 Hq54) as Hdq'.
  simpl xorb.
  destruct (binary_round_aux_above false q (e1 - e2 - prec) (new_location (Zpos m2) r))
    as (m & e & Heq & He & Hv);
    [unfold SpecFloat.emin, prec, emax in *; lia
    | unfold prec, emax in *; lia | by right |].
  exists m, e. split; [exact Heq |]. split; [unfold prec in *; lia |].
  eapply Rle_trans; [| exact Hv].
  pose proof eps52_pos as Heps. pose proof eps52_lt_1 as Heps1.
  apply Rmult_le_compat_l; [lra |].
  pose proof (F2R_nonneg m2 e2) as Hpos2.
  (* q + 1 is above the exact quotient, and q is at least 2^52 *)
  assert (Hqr : (IZR (Zpos m1) * powerRZ 2 53
                 <= (1 + eps52) * IZR (Zpos q) * IZR (Zpos m2))%R).
  { rewrite eps52_value. rewrite <- IZR_pow2 by lia.
    change (2 ^ 53) with 9007199254740992.
    assert (Hz : Zpos m1 * 9007199254740992 <= (Zpos q + 1) * Zpos m2) by lia.
    apply IZR_le in Hz. rewrite !mult_IZR, plus_IZR in Hz.
    assert (Hq' : (4503599627370496 <= IZR (Zpos q))%R) by (apply IZR_le; lia).
    assert (Hm2 : (0 < IZR (Zpos m2))%R) by (apply IZR_lt; lia).
    assert ((IZR (Zpos q) + 1) * IZR (Zpos m2)
            <= (1 + / 4503599627370496) * IZR (Zpos q) * IZR (Zpos m2))%R.
    { apply Rmult_le_compat_r; [lra |].
      assert (1 <= / 4503599627370496 * IZR (Zpos q))%R; [| lra].
      apply Rmult_le_reg_l with 4503599627370496%R; [lra |].
      rewrite <- Rmult_assoc, Rinv_r by lra. lra. }
    lra. }
  unfold F2R in *. unfold Rdiv.
  pose proof (pow2_pos (e1 - e2 - prec)) as Hp. pose proof (pow2_pos e2) as Hp2.
  assert (Hm2 : (0 < IZR (Zpos m2))%R) by (apply IZR_lt; lia).
  assert (Hq0 : (0 < IZR (Zpos q))%R) by (apply IZR_lt; lia).
  apply Rmult_le_reg_r with (IZR (Zpos m2) * powerRZ 2 e2)%R; [done |].
  replace ((1 - eps52) * (IZR (Zpos m1) * powerRZ 2 e1
                          * / (IZR (Zpos m2) * powerRZ 2 e2))
           * (IZR (Zpos m2) * powerRZ 2 e2))%R
    with ((1 - eps52) * (IZR (Zpos m1) * powerRZ 2 e1))%R by (field; lra).
  replace e1 with ((e1 - e2 - prec) + (53 + e2)) at 1 by (unfold prec; lia).
  rewrite !pow2_add.
  replace ((1 - eps52) * (IZR (Zpos m1)
            * (powerRZ 2 (e1 - e2 - prec) * (powerRZ 2 53 * powerRZ 2 e2))))%R
    with ((1 - eps52) * (IZR (Zpos m1) * powerRZ 2 53)
          * (powerRZ 2 (e1 - e2 - prec) * powerRZ 2 e2))%R by ring.
  replace (IZR (Zpos q) * powerRZ 2 (e1 - e2 - prec)
           * (IZR (Zpos m2) * powerRZ 2 e2))%R
    with (IZR (Zpos q) * IZR (Zpos m2)
          * (powerRZ 2 (e1 - e2 - prec) * powerRZ 2 e2))%R by ring.
  apply Rmult_le_compat_r; [apply Rlt_le, Rmult_lt_0_compat; lra |].
  assert (Hqm : (0 < IZR (Zpos q) * IZR (Zpos m2))%R)
    by (apply Rmult_lt_0_compat; lra).
  assert (H1 : ((1 - eps52) * (IZR (Zpos m1) * powerRZ 2 53)
                <= (1 - eps52) * ((1 + eps52) * IZR (Zpos q) * IZR (Zpos m2)))%R)
    by (apply Rmult_le_compat_l; lra).
  assert (H2 : ((1 - eps52) * ((1 + eps52) * IZR (Zpos q) * IZR (Zpos m2))
                = (1 - eps52 * eps52) * (IZR (Zpos q) * IZR (Zpos m2)))%R) by ring.
  assert (H3 : (0 <= eps52 * eps52 * (IZR (Zpos q) * IZR (Zpos m2)))%R).
  { apply Rmult_le_pos; [| lra]. apply Rmult_le_pos; lra. }
  lra.
Qed.

Lemma valid_digits (s : bool) (m : positive) (e : Z) :
  valid_binary (S754_finite s m e) = true -> Zpos (digits2_pos m) <= prec.
Proof.
  unfold SpecFloat.valid_binary, SpecFloat.bounded, SpecFloat.canonical_mantissa,
    SpecFloat.fexp.
  intros [Hc _]%andb_true_iff. apply Z.eqb_eq in Hc.
  pose proof (Z.le_max_l (Zpos (digits2_pos m) + e - prec) emin). lia.
Qed.

(** The sum of two positive floats, from below. *)
Lemma add_above (mx my : positive) (ex ey : Z) :
  Zpos (digits2_pos mx) <= prec -> Zpos (digits2_pos my) <= prec ->
  emin + 52 <= Z.min ex ey -> Z.max ex ey + 2 <= emax - prec ->
  above (Z.max ex ey + 2)
        ((1 - eps52) * (F2R (Zpos mx) ex + F2R (Zpos my) ey))
        (SF64add (S754_finite false mx ex) (S754_finite false my ey)).
Proof.
  intros Hdx Hdy Hlo Hhi. unfold SF64add, SFadd.
  set (ez := Z.min ex ey) in *.
  pose proof (shl_align_value mx ex ez ltac:(lia)) as Hax.
  pose proof (shl_align_value my ey ez ltac:(lia)) as Hay.
  set (ax := fst (shl_align mx ex ez)) in *.
  set (ay := fst (shl_align my ey ez)) in *.
  change (binary_normalize prec emax
            (cond_Zopp false (Zpos ax) + cond_Zopp false (Zpos ay)) ez false)
    with (binary_round prec emax false (ax + ay) ez).
  assert (Hval : F2R (Zpos (ax + ay)) ez
                 = (F2R (Zpos mx) ex + F2R (Zpos my) ey)%R).
  { rewrite Pos2Z.inj_add, Hax, Hay.
    rewrite <- (F2R_shift (Zpos mx) ex (ex - ez)) by lia.
    rewrite <- (F2R_shift (Zpos my) ey (ey - ez)) by lia.
    replace (ex - (ex - ez)) with ez by lia.
    replace (ey - (ey - ez)) with ez by lia.
    unfold F2R. rewrite plus_IZR. ring. }
  assert (Hds : Zpos (digits2_pos (ax + ay)) <= 54 + Z.max ex ey - ez).
  { apply digits2_pos_le. rewrite Pos2Z.inj_add, Hax, Hay.
    pose proof (digits2_pos_upper mx) as Hux. pose proof (digits2_pos_upper my) as Huy.
    assert (Hx53 : Zpos mx < 2 ^ 53)
      by (eapply Z.lt_le_trans; [exact Hux | apply Z.pow_le_mono_r; unfold prec in *; lia]).
    assert (Hy53 : Zpos my < 2 ^ 53)
      by (eapply Z.lt_le_trans; [exact Huy | apply Z.pow_le_mono_r; unfold prec in *; lia]).
    set (M := Z.max ex ey) in *.
    assert (Hpx : 2 ^ (ex - ez) <= 2 ^ (M - ez)) by (apply Z.pow_le_mono_r; lia).
    assert (Hpy : 2 ^ (ey - ez) <= 2 ^ (M - ez)) by (apply Z.pow_le_mono_r; lia).
    assert (Hp0x : 0 < 2 ^ (ex - ez)) by (apply Z.pow_pos_nonneg; lia).
    assert (Hp0y : 0 < 2 ^ (ey - ez)) by (apply Z.pow_pos_nonneg; lia).
    replace (54 + M - ez) with (54 + (M - ez)) by lia.
    rewrite Z.pow_add_r by lia. change (2 ^ 54) with (2 * 2 ^ 53). nia. }
  pose proof (Pos2Z.is_pos (digits2_pos (ax + ay))) as Hd0.
  destruct (binary_round_above false (ax + ay) ez) as (m & e & Heq & He & Hv);
    [unfold SpecFloat.emin, prec, emax in *; lia | unfold prec, emax in *; lia |].
  exists m, e. split; [exact Heq |]. split; [unfold prec in *; lia |].
  rewrite <- Hval. exact Hv.
Qed.

(** The product of two positive floats, from below. *)
Lemma mul_above (mx my : positive) (ex ey : Z) :
  Zpos (digits2_pos mx) <= prec -> Zpos (digits2_pos my) <= prec ->
  emin + 52 <= ex + ey -> ex + ey + 54 <= emax - prec ->
  above (ex + ey + 54)
        ((1 - eps52) * (F2R (Zpos mx) ex * F2R (Zpos my) ey))
        (SF64mul (S754_finite false mx ex) (S754_finite false my ey)).
Proof.
  intros Hdx Hdy Hlo Hhi. unfold SF64mul, SFmul. simpl xorb.
  assert (Hval : F2R (Zpos (mx * my)) (ex + ey)
                 = (F2R (Zpos mx) ex * F2R (Zpos my) ey)%R).
  { unfold F2R. rewrite Pos2Z.inj_mul, mult_IZR, pow2_add. ring. }
  assert (Hd : Zpos (digits2_pos (mx * my)) <= 106).
  { apply digits2_pos_le. rewrite Pos2Z.inj_mul.
    pose proof (digits2_pos_upper mx) as Hux. pose proof (digits2_pos_upper my) as Huy.
    assert (Hx53 : Zpos mx < 2 ^ 53)
      by (eapply Z.lt_le_trans; [exact Hux | apply Z.pow_le_mono_r; unfold prec in *; lia]).
    assert (Hy53 : Zpos my < 2 ^ 53)
      by (eapply Z.lt_le_trans; [exact Huy | apply Z.pow_le_mono_r; unfold prec in *; lia]).
    change (2 ^ 106) with (2 ^ 53 * 2 ^ 53). nia. }
  pose proof (Pos2Z.is_pos (digits2_pos (mx * my))) as Hd0.
  destruct (binary_round_aux_above false (mx * my) (ex + ey) loc_Exact)
    as (m & e & Heq & He & Hv);
    [unfold SpecFloat.emin, prec, emax in *; lia | unfold prec, emax in *; lia
     | by left |].
  exists m, e. split; [exact Heq |]. split; [unfold prec in *; lia |].
  rewrite <- Hval. exact Hv.
Qed.

Lemma truncate_nonneg (m : positive) (e : Z) : 0 <= truncate false m e.
Proof.
  unfold truncate. destruct (0 <=? e) eqn:He.
  - apply Z.leb_le in He. rewrite Z.shiftl_mul_pow2 by lia.
    pose proof (Z.pow_pos_nonneg 2 e). lia.
  - apply Z.shiftr_nonneg. lia.
Qed.

Lemma F2R_lt_truncate (m : positive) (e : Z) :
  (F2R (Zpos m) e < IZR (truncate false m e) + 1)%R.
Proof.
  unfold truncate, F2R. destruct (0 <=? e) eqn:He.
  - apply Z.leb_le in He. rewrite Z.shiftl_mul_pow2, mult_IZR, IZR_pow2 by lia.
    lra.
  - apply Z.leb_gt in He. rewrite Z.shiftr_div_pow2 by lia.
    assert (Hp : 0 < 2 ^ (- e)) by (apply Z.pow_pos_nonneg; lia).
    pose proof (Z.div_mod (Zpos m) (2 ^ (- e)) ltac:(lia)) as Hdm.
    pose proof (Z.mod_pos_bound (Zpos m) (2 ^ (- e)) Hp) as Hr.
    assert (Hlt : Zpos m < (Zpos m / 2 ^ (- e) + 1) * 2 ^ (- e)) by lia.
    apply IZR_lt in Hlt. rewrite mult_IZR, plus_IZR, IZR_pow2 in Hlt by lia.
    pose proof (pow2_pos e) as Hpe. pose proof (pow2_pos (- e)) as Hpn.
    assert (Hone : (powerRZ 2 (- e) * powerRZ 2 e = 1)%R).
    { rewrite <- pow2_add. replace (- e + e) with 0 by lia. reflexivity. }
    set (t := IZR (Zpos m / 2 ^ (- e))) in *.
    replace (t + 1)%R with ((t + 1) * (powerRZ 2 (- e) * powerRZ 2 e))%R
      by (rewrite Hone; ring).
    replace ((t + 1) * (powerRZ 2 (- e) * powerRZ 2 e))%R
      with (((t + 1) * powerRZ 2 (- e)) * powerRZ 2 e)%R by ring.
    apply Rmult_lt_compat_r; lra.
Qed.

(** [int(f)] of a positive float below 2^63 is above what [f] is above,
    less one. *)
Lemma int_of_float64_above (f : float) (L U : Z) (lo hi : R) :
  (hi <= IZR GoInt.max_int)%R ->
  below false L hi (Prim2SF f) -> above U lo (Prim2SF f) ->
  (lo < IZR (int_of_float64 f) + 1)%R.
Proof.
  intros Hhi Hb (m & e & Heq & _ & Hlo). unfold int_of_float64.
  rewrite Heq in *. destruct Hb as (_ & _ & Hle).
  pose proof (truncate_le_F2R m e) as Ht. pose proof (F2R_lt_truncate m e) as Ht'.
  assert (Hr : GoInt.in_rangeb (truncate false m e) = true).
  { unfold GoInt.in_rangeb. apply andb_true_iff. split; apply Z.leb_le.
    - pose proof (truncate_nonneg m e). unfold GoInt.min_int. lia.
    - apply le_IZR. lra. }
  rewrite Hr. lra.
Qed.

Lemma exactly_finite (z : Z) (x : spec_float) :
  0 < z -> exactly z x ->
  exists m e, x = S754_finite false m e /\ Zpos (digits2_pos m) = prec /\
              -52 <= e <= 0 /\ F2R (Zpos m) e = IZR z.
Proof.
  unfold exactly. intros Hz. destruct (z =? 0) eqn:H0; [apply Z.eqb_eq in H0; lia |].
  intros (m & e & -> & Hd & He & Hv). exists m, e.
  destruct (z <? 0) eqn:Hlt; [apply Z.ltb_lt in Hlt; lia |].
  rewrite Z.abs_eq in Hv by lia. done.
Qed.

Lemma below_finite (L : Z) (v : R) (s : bool) (m : positive) (e : Z) :
  below false L v (S754_finite s m e) -> L <= e /\ (F2R (Zpos m) e <= v)%R.
Proof. intros (_ & He & Hv). done. Qed.

Lemma scale_down (a x : R) : (0 <= a <= 1 -> 0 <= x -> 0 <= a * x <= x)%R.
Proof.
  intros Ha Hx. split; [apply Rmult_le_pos; lra |].
  assert (a * x <= 1 * x)%R by (apply Rmult_le_compat_r; lra). lra.
Qed.

Lemma scale_up (a x : R) : (1 <= a -> 0 <= x -> x <= a * x)%R.
Proof.
  intros Ha Hx. assert (1 * x <= a * x)%R by (apply Rmult_le_compat_r; lra). lra.
Qed.

(** The seconds of a positive duration, as a float: finite, and within
    three roundings of the exact number. *)
Lemma Seconds_bounds (d : Z) :
  0 < d < 2 ^ 63 ->
  exists m e,
    Prim2SF (Seconds d) = S754_finite false m e /\
    -134 <= e <= 2 /\ Zpos (digits2_pos m) <= prec /\
    ((1 - eps52) * ((1 - eps52) * ((1 - eps52) * (IZR d / 1000000000)))
     <= F2R (Zpos m) e
     <= (1 + eps52) * ((1 + eps52) * (IZR d / 1000000000)))%R.
Proof.
  intros Hd. unfold Seconds.
  destruct (quot_rem_Second d) as (Hsplit & Hpos & _).
  destruct (Hpos ltac:(lia)) as [Hsec Hnsec].
  set (sec := Z.quot d Second) in *. set (nsec := Z.rem d Second) in *.
  pose proof eps52_pos as Heps. pose proof eps52_lt_1 as Heps1.
  assert (Hsec53 : sec < 2 ^ 53) by (change (2 ^ 53) with 9007199254740992 in *;
                                     change (2 ^ 63) with 9223372036854775808 in *; lia).
  assert (Hnsec53 : nsec < 2 ^ 53) by (change (2 ^ 53) with 9007199254740992; lia).
  assert (Rsec : (0 <= IZR sec)%R) by (apply IZR_le; lia).
  assert (Rnsec : (0 <= IZR nsec)%R) by (apply IZR_le; lia).
  assert (Hd' : (IZR d / 1000000000 = IZR sec + IZR nsec / 1000000000)%R).
  { rewrite Hsplit at 1. rewrite plus_IZR, mult_IZR. field. }
  rewrite Hd'.
  set (S := IZR sec) in *. set (N := (IZR nsec / 1000000000)%R) in *.
  assert (RN : (0 <= N)%R) by (unfold N; lra).
  assert (Hdown : forall x, (0 <= x -> 0 <= (1 - eps52) * x <= x)%R)
    by (intros x Hx; apply scale_down; lra).
  assert (Hup : forall x, (0 <= x -> x <= (1 + eps52) * x)%R)
    by (intros x Hx; apply scale_up; lra).
  pose proof (float64_of_int_exact sec ltac:(lia)) as Hx1.
  pose proof (float64_of_int_exact nsec ltac:(lia)) as Hx2.
  pose proof (fraction_below nsec ltac:(lia)) as Hb3. fold N in Hb3.
  pose proof (Prim2SF_valid (float64_of_int nsec / 1e9)) as Hv3.
  pose proof (Prim2SF_valid (float64_of_int sec + float64_of_int nsec / 1e9)) as Hv4.
  rewrite add_spec in *.
  destruct (Z.eq_dec nsec 0) as [Hn0 | Hn0].
  - (* whole seconds *)
    assert (Hs1 : 0 < sec) by lia.
    destruct (exactly_finite sec _ Hs1 Hx1) as (m1 & e1 & Heq1 & Hd1 & He1 & Hval1).
    assert (Hx3 : Prim2SF (float64_of_int nsec / 1e9) = S754_zero false).
    { rewrite Hn0. reflexivity. }
    rewrite Hx3, Heq1. exists m1, e1. split; [reflexivity |].
    split; [lia |]. split; [lia |].
    assert (HN0 : N = 0%R) by (unfold N; rewrite Hn0; lra).
    rewrite Hval1, HN0, Rplus_0_r. fold S.
    pose proof (Hdown S Rsec) as H1. pose proof (Hdown _ (proj1 H1)) as H2.
    pose proof (Hdown _ (proj1 H2)) as H3.
    pose proof (Hup S Rsec) as H4.
    assert (0 <= (1 + eps52) * S)%R by lra.
    pose proof (Hup _ ltac:(eassumption)) as H5. lra.
  - assert (Hn1 : 0 < nsec) by lia.
    destruct (exactly_finite nsec _ Hn1 Hx2) as (m2 & e2 & Heq2 & Hd2 & He2 & Hval2).
    assert (Ha3 : above (e2 - -23 - prec + 2)
                    ((1 - eps52) * ((1 - eps52) * N))
                    (Prim2SF (float64_of_int nsec / 1e9))).
    { rewrite div_spec, Heq2, Prim2SF_1e9.
      pose proof (div_above m2 8388608000000000 e2 (-23) Hd2 eq_refl
                    ltac:(unfold SpecFloat.emin, prec, emax; lia)
                    ltac:(unfold prec, emax; lia)) as Hdiv.
      rewrite Hval2, F2R_1e9 in Hdiv. exact Hdiv. }
    destruct Ha3 as (m3 & e3 & Heq3 & He3 & Hlo3).
    rewrite Heq3 in Hb3, Hv3, Hv4 |- *.
    destruct (below_finite _ _ _ _ _ Hb3) as [He3' Hhi3].
    pose proof (valid_digits _ _ _ Hv3) as Hd3.
    destruct (Z.eq_dec sec 0) as [Hs0 | Hs0].
    + (* less than a second *)
      assert (Hx1' : Prim2SF (float64_of_int sec) = S754_zero false).
      { rewrite Hs0. reflexivity. }
      rewrite Hx1'. exists m3, e3. split; [reflexivity |].
      split; [unfold prec in *; lia |]. split; [exact Hd3 |].
      assert (HS0 : S = 0%R) by (unfold S; rewrite Hs0; lra).
      rewrite HS0, Rplus_0_l. split.
      * eapply Rle_trans; [| exact Hlo3].
        pose proof (Hdown N RN) as H1. pose proof (Hdown _ (proj1 H1)) as H2.
        pose proof (Hdown _ (proj1 H2)) as H3. lra.
      * eapply Rle_trans; [exact Hhi3 |].
        assert (0 <= (1 + eps52) * N)%R by (apply Rmult_le_pos; lra).
        pose proof (Hup _ ltac:(eassumption)) as H5. lra.
    + assert (Hs1 : 0 < sec) by lia.
      destruct (exactly_finite sec _ Hs1 Hx1) as (m1 & e1 & Heq1 & Hd1 & He1 & Hval1).
      rewrite Heq1 in Hv4 |- *.
      pose proof (add_above m1 m3 e1 e3 ltac:(lia) Hd3
                    ltac:(unfold SpecFloat.emin, prec, emax in *; lia)
                    ltac:(unfold prec, emax in *; lia)) as (m4 & e4 & Heq4 & He4 & Hlo4).
      pose proof (add_below false (-82) S ((1 + eps52) * N)
                    (S754_finite false m1 e1) (S754_finite false m3 e3)
                    ltac:(unfold SpecFloat.emin, prec, emax; lia)
                    Rsec ltac:(apply Rmult_le_pos; lra)) as Hb4.
      rewrite Heq4 in Hb4, Hv4 |- *.
      destruct (below_finite _ _ _ _ _
                  (Hb4 ltac:(simpl; rewrite Hval1; fold S; repeat split; [lia | lra])
                       ltac:(simpl; repeat split; [lia | lra]))) as [He4' Hhi4].
      exists m4, e4. split; [reflexivity |].
      split; [unfold prec in *; lia |]. split; [exact (valid_digits _ _ _ Hv4) |].
      rewrite Hval1 in Hlo4. fold S in Hlo4. split.
      * eapply Rle_trans; [| exact Hlo4].
        apply Rmult_le_compat_l; [lra |].
        assert ((1 - eps52) * ((1 - eps52) * N) <= F2R (Zpos m3) e3)%R by exact Hlo3.
        pose proof (Hdown S Rsec) as H1. pose proof (Hdown _ (proj1 H1)) as H2.
        lra.
      * eapply Rle_trans; [exact Hhi4 |].
        apply Rmult_le_compat_l; [lra |].
        pose proof (Hup S Rsec) as H4. lra.
Qed.

(** The tokens a positive duration buys at a positive rate are above the
    exact product, down by four roundings, less one: as far as the product
    stays an [int]. *)
Lemma tokensToAdd_lower_wide (d m : Z) :
  0 < d < 2 ^ 63 -> 0 < m < 2 ^ 53 ->
  d * m <= 9223372036000000000 * 1000000000 ->
  ((1 - 4 * eps52) * (IZR d * IZR m)
   < (IZR (tokensToAdd d m) + 1) * 1000000000)%R.
Proof.
  intros Hd Hm Hdm. unfold tokensToAdd.
  pose proof eps52_pos as Heps. pose proof eps52_lt_1 as Heps1.
  destruct (Seconds_bounds d Hd) as (m4 & e4 & Heq4 & He4 & Hd4 & Hlo4 & Hhi4).
  pose proof (float64_of_int_exact m ltac:(lia)) as Hx5.
  destruct (exactly_finite m _ ltac:(lia) Hx5) as (m5 & e5 & Heq5 & Hd5 & He5 & Hval5).
  assert (RD : (0 < IZR d)%R) by (apply IZR_lt; lia).
  assert (RM : (0 < IZR m)%R) by (apply IZR_lt; lia).
  set (X := (IZR d / 1000000000)%R) in *.
  assert (RX : (0 < X)%R) by (unfold X; apply Rdiv_lt_0_compat; lra).
  assert (HP : (X * IZR m <= 9223372036000000000)%R).
  { unfold X. apply Rmult_le_reg_r with 1000000000%R; [lra |].
    replace (IZR d / 1000000000 * IZR m * 1000000000)%R
      with (IZR d * IZR m)%R by (field; lra).
    rewrite <- !mult_IZR. apply IZR_le. exact Hdm. }
  set (V4 := F2R (Zpos m4) e4) in *.
  assert (RV4 : (0 < V4)%R) by apply F2R_nonneg.
  (* the product, from above and from below *)
  assert (Hb6 : below false (-134 + -52) ((1 + eps52) * (V4 * IZR m))
                  (Prim2SF (Seconds d * float64_of_int m))).
  { rewrite mul_spec, Heq4, Heq5.
    apply mul_below; [unfold SpecFloat.emin, prec, emax; lia | lra | lra | |].
    - simpl. repeat split; [lia | fold V4; lra].
    - simpl. repeat split; [lia | rewrite Hval5; lra]. }
  assert (Ha6 : above (e4 + e5 + 54) ((1 - eps52) * (V4 * IZR m))
                  (Prim2SF (Seconds d * float64_of_int m))).
  { rewrite mul_spec, Heq4, Heq5. rewrite <- Hval5.
    apply mul_above; [exact Hd4 | lia
                      | unfold SpecFloat.emin, prec, emax; lia
                      | unfold prec, emax; lia]. }
  assert (Hdown : forall x, (0 <= x -> 0 <= (1 - eps52) * x <= x)%R)
    by (intros x Hx; apply scale_down; lra).
  set (Y := (X * IZR m)%R) in *.
  assert (RY : (0 < Y)%R) by (unfold Y; apply Rmult_lt_0_compat; lra).
  (* the product stays below 2^63 *)
  assert (Hhi6 : ((1 + eps52) * (V4 * IZR m) <= IZR GoInt.max_int)%R).
  { assert (H1 : (V4 * IZR m <= (1 + eps52) * ((1 + eps52) * X) * IZR m)%R)
      by (apply Rmult_le_compat_r; lra).
    assert (H2 : ((1 + eps52) * (V4 * IZR m)
                  <= (1 + eps52) * ((1 + eps52) * ((1 + eps52) * X) * IZR m))%R)
      by (apply Rmult_le_compat_l; lra).
    assert (H3 : ((1 + eps52) * ((1 + eps52) * ((1 + eps52) * X) * IZR m)
                  = (1 + eps52) * ((1 + eps52) * (1 + eps52)) * Y)%R)
      by (unfold Y; ring).
    assert (H4 : ((1 + eps52) * ((1 + eps52) * (1 + eps52)) * Y
                  <= (1 + 4 * eps52) * Y)%R)
      by (apply Rmult_le_compat_r; [lra | apply one_plus_eps52_cubed]).
    unfold GoInt.max_int. change (2 ^ 63 - 1) with 9223372036854775807.
    rewrite eps52_value in *. lra. }
  pose proof (int_of_float64_above _ _ _ _ _ Hhi6 Hb6 Ha6) as Hn.
  set (n := IZR (int_of_float64 _)) in *.
  (* four roundings down cost at most four parts in 2^52 *)
  assert (Hlo6 : ((1 - 4 * eps52) * Y <= (1 - eps52) * (V4 * IZR m))%R).
  { assert (H1 : ((1 - eps52) * ((1 - eps52) * ((1 - eps52) * X)) * IZR m
                  <= V4 * IZR m)%R) by (apply Rmult_le_compat_r; lra).
    assert (H2 : ((1 - eps52) * ((1 - eps52) * ((1 - eps52) * ((1 - eps52) * X)) * IZR m)
                  <= (1 - eps52) * (V4 * IZR m))%R)
      by (apply Rmult_le_compat_l; lra).
    assert (H3 : ((1 - eps52) * ((1 - eps52) * ((1 - eps52) * ((1 - eps52) * X)) * IZR m)
                  = (1 - eps52) * (1 - eps52) * ((1 - eps52) * (1 - eps52)) * Y)%R)
      by (unfold Y; ring).
    assert (H4 : (1 - 2 * eps52 <= (1 - eps52) * (1 - eps52))%R).
    { assert (0 <= eps52 * eps52)%R by (apply Rmult_le_pos; lra). lra. }
    assert (H5 : ((1 - 2 * eps52) * (1 - 2 * eps52)
                  <= (1 - eps52) * (1 - eps52) * ((1 - eps52) * (1 - eps52)))%R).
    { rewrite eps52_value in *. apply Rmult_le_compat; lra. }
    assert (H6 : (1 - 4 * eps52 <= (1 - 2 * eps52) * (1 - 2 * eps52))%R).
    { assert (0 <= eps52 * eps52)%R by (apply Rmult_le_pos; lra). lra. }
    assert (H7 : ((1 - 4 * eps52) * Y
                  <= (1 - eps52) * (1 - eps52) * ((1 - eps52) * (1 - eps52)) * Y)%R)
      by (apply Rmult_le_compat_r; lra).
    lra. }
  assert (Hfin : ((1 - 4 * eps52) * Y < n + 1)%R) by lra.
  replace ((1 - 4 * eps52) * (IZR d * IZR m))%R
    with ((1 - 4 * eps52) * Y * 1000000000)%R by (unfold Y, X; field; lra).
  apply Rmult_lt_compat_r; lra.
Qed.

(** In particular below 10^15 nanosecond-tokens. *)
Lemma tokensToAdd_lower (d m : Z) :
  0 < d < 2 ^ 63 -> 0 < m < 2 ^ 53 -> d * m < 10 ^ 15 ->
  ((1 - 4 * eps52) * (IZR d * IZR m)
   < (IZR (tokensToAdd d m) + 1) * 1000000000)%R.
Proof.
  intros Hd Hm Hdm. apply tokensToAdd_lower_wide; [exact Hd | exact Hm |].
  change (10 ^ 15) with 1000000000000000 in Hdm. lia.
Qed.

(** Below 10^15 nanosecond-tokens the float product buys the exact number
    of tokens or one less. *)
Lemma tokensToAdd_ge_floor (d m : Z) :
  0 < d < 2 ^ 63 -> 0 < m < 2 ^ 53 -> d * m < 10 ^ 15 ->
  (d * m) / 1000000000 - 1 <= tokensToAdd d m.
Proof.
  intros Hd Hm Hdm. pose proof (tokensToAdd_lower d m Hd Hm Hdm) as Hlo.
  assert (Hlt : d * m - 1000000000 < (tokensToAdd d m + 1) * 1000000000).
  { apply lt_IZR. rewrite minus_IZR, !mult_IZR, plus_IZR.
    assert (HP : (0 <= IZR d * IZR m < 1000000000000000)%R).
    { rewrite <- mult_IZR. split; [apply IZR_le; nia |].
      apply IZR_lt. change (10 ^ 15) with 1000000000000000 in Hdm. lia. }
    rewrite eps52_value in Hlo. lra. }
  pose proof (Z.mul_div_le (d * m) 1000000000 ltac:(lia)) as Hfl.
  nia.
Qed.

Lemma Prim2SF_Seconds_0 : Prim2SF (Seconds 0) = S754_zero false.
Proof. reflexivity. Qed.

(** No time buys no token. *)
Lemma tokensToAdd_zero_duration (m : Z) :
  0 <= m < 2 ^ 53 -> tokensToAdd 0 m = 0.
Proof.
  intros Hm. unfold tokensToAdd, int_of_float64.
  rewrite mul_spec, Prim2SF_Seconds_0.
  pose proof (float64_of_int_exact m ltac:(lia)) as Hx. unfold exactly in Hx.
  destruct (m =? 0).
  - rewrite Hx. reflexivity.
  - destruct Hx as (m5 & e5 & -> & _). reflexivity.
Qed.

(** No rate buys no token. *)
Lemma tokensToAdd_zero_rate (d : Z) :
  0 <= d < 2 ^ 63 -> tokensToAdd d 0 = 0.
Proof.
  intros Hd. destruct (Z.eq_dec d 0) as [-> | Hnz].
  - apply tokensToAdd_zero_duration. lia.
  - unfold tokensToAdd, int_of_float64. rewrite mul_spec.
    destruct (Seconds_bounds d ltac:(lia)) as (m4 & e4 & -> & _).
    reflexivity.
Qed.

(** ** What a wait is worth *)

(** More than an hour fills any bucket. *)
Lemma tokensToAdd_hour (d m : Z) :
  Hour < d < 2 ^ 63 -> 0 < m < 1000000000 -> 2 * m <= tokensToAdd d m.
Proof.
  intros Hd Hm.
  pose proof (tokensToAdd_lower_wide d m
                ltac:(change Hour with 3600000000000 in Hd; lia)
                ltac:(change (2 ^ 53) with 9007199254740992; lia)) as Hlo.
  change (2 ^ 63) with 9223372036854775808 in Hd.
  change Hour with 3600000000000 in Hd.
  specialize (Hlo ltac:(nia)).
  assert (Rd : (3600000000000 <= IZR d)%R) by (apply IZR_le; lia).
  assert (Rm : (1 <= IZR m)%R) by (apply IZR_le; lia).
  assert (Hdm : (3600000000000 * IZR m <= IZR d * IZR m)%R)
    by (apply Rmult_le_compat_r; lra).
  rewrite eps52_value in Hlo.
  assert (Hlt : (2 * IZR m < IZR (tokensToAdd d m) + 1)%R) by lra.
  rewrite <- mult_IZR, <- plus_IZR in Hlt. apply lt_IZR in Hlt. lia.
Qed.

(** Time worth two tokens buys at least one. *)
Lemma tokensToAdd_two (d m : Z) :
  0 < d < 2 ^ 63 -> 0 < m < 1000000000 -> 2 * Second <= d * m ->
  1 <= tokensToAdd d m.
Proof.
  intros Hd Hm Hdm. change Second with 1000000000 in Hdm.
  change (2 ^ 63) with 9223372036854775808 in Hd.
  pose proof (tokensToAdd_lower_wide d m
                ltac:(change (2 ^ 63) with 9223372036854775808; lia)
                ltac:(change (2 ^ 53) with 9007199254740992; lia)
                ltac:(nia)) as Hlo.
  assert (Rdm : (2000000000 <= IZR d * IZR m)%R)
    by (rewrite <- mult_IZR; apply IZR_le; lia).
  rewrite eps52_value in Hlo.
  assert (Hlt : (1 < IZR (tokensToAdd d m) + 1)%R) by lra.
  rewrite <- plus_IZR in Hlt. apply lt_IZR in Hlt. lia.
Qed.

(** Time worth the whole bucket and one token more fills the bucket. *)
Lemma tokensToAdd_full (d m : Z) :
  0 < d < 2 ^ 63 -> 0 < m < 1000000000 -> (2 * m + 1) * Second <= d * m ->
  2 * m <= tokensToAdd d m.
Proof.
  intros Hd Hm Hdm. change Second with 1000000000 in Hdm.
  change (2 ^ 63) with 9223372036854775808 in Hd.
  pose proof (tokensToAdd_lower_wide d m
                ltac:(change (2 ^ 63) with 9223372036854775808; lia)
                ltac:(change (2 ^ 53) with 9007199254740992; lia)
                ltac:(nia)) as Hlo.
  assert (Rdm : ((2 * IZR m + 1) * 1000000000 <= IZR d * IZR m)%R).
  { rewrite <- !mult_IZR, <- plus_IZR, <- !mult_IZR. apply IZR_le. lia. }
  assert (Rm : (1 <= IZR m <= 999999999)%R) by (split; apply IZR_le; lia).
  rewrite eps52_value in Hlo.
  assert (Hlt : (2 * IZR m < IZR (tokensToAdd d m) + 1)%R) by lra.
  rewrite <- mult_IZR, <- plus_IZR in Hlt. apply lt_IZR in Hlt. lia.
Qed.
(** ** Arithmetic of [int] and of float-to-int conversion *)

Lemma wrap_in_range (z : Z) : GoInt.in_range z -> GoInt.wrap z = z.
Proof.
  unfold GoInt.in_range, GoInt.wrap, GoInt.min_int, GoInt.max_int.
  intros H. rewrite Z.mod_small; lia.
Qed.

Lemma Sub_range (t u : Time) : - 2 ^ 63 <= Sub t u < 2 ^ 63.
Proof.
  unfold Sub, minDuration, maxDuration, GoInt.min_int, GoInt.max_int. lia.
Qed.

Lemma Sub_exact (t u : Time) :
  - 2 ^ 63 <= t - u < 2 ^ 63 -> Sub t u = t - u.
Proof.
  unfold Sub, minDuration, maxDuration, GoInt.min_int, GoInt.max_int. lia.
Qed.

(** ** Reading the maps of the limiter *)

Lemma tokensOf_setBucket (rl : RateLimiter) (u v : string) (n : Z) (t : Time) :
  tokensOf (setBucket rl u n t) v = if decide (u = v) then n else tokensOf rl v.
Proof.
  unfold tokensOf, setBucket; simpl. rewrite lookup_insert.
  destruct (decide (u = v)); reflexivity.
Qed.

Lemma tokensOf_setTokens (rl : RateLimiter) (u v : string) (n : Z) :
  tokensOf (setTokens rl u n) v = if decide (u = v) then n else tokensOf rl v.
Proof.
  unfold tokensOf, setTokens; simpl. rewrite lookup_insert.
  destruct (decide (u = v)); reflexivity.
Qed.

Lemma min_cases (a b : Z) : Limiter.min a b = Z.min a b.
Proof. unfold Limiter.min. destruct (a <? b) eqn:H; lia. Qed.

(** [Allow] is the refill followed by the admission check. *)
Lemma Allow_refilled (now : Time) (user : string) (rl : RateLimiter) :
  Allow now user rl =
  let rl1 := refilled now user rl in
  if tokensOf rl1 user <=? 0 then (false, rl1)
  else (true, setTokens rl1 user (GoInt.wrap (tokensOf rl1 user - 1))).
Proof. reflexivity. Qed.

Lemma refilled_config (now : Time) (user : string) (rl : RateLimiter) :
  maxPerSec (refilled now user rl) = maxPerSec rl /\
  bucketSize (refilled now user rl) = bucketSize rl.
Proof.
  unfold refilled. destruct (lastRefill rl !! user); [| done].
  destruct (0 <? _); done.
Qed.

(** ** The invariant is kept by every operation *)

Ltac split_inv := unfold bucketInv; split; [| split].

Lemma tokensOf_inv (m : Z) (rl : RateLimiter) (user : string) :
  0 <= m -> bucketInv m rl -> 0 <= tokensOf rl user <= bucketSize rl.
Proof.
  intros Hm (_ & Hb & Ht). unfold tokensOf.
  destruct (tokens rl !! user) as [k |] eqn:Hk; simpl.
  - exact (Ht _ _ Hk).
  - lia.
Qed.

Lemma NewRateLimiter_inv (m : Z) :
  0 <= m < 1000000000 -> bucketInv m (NewRateLimiter m).
Proof.
  intros Hm. unfold bucketInv, NewRateLimiter; simpl.
  rewrite wrap_in_range
    by (unfold GoInt.in_range, GoInt.min_int, GoInt.max_int; lia).
  split; [reflexivity |]. split; [lia | apply map_Forall_empty].
Qed.

Lemma refilled_inv (m : Z) (now : Time) (user : string) (rl : RateLimiter) :
  0 <= m < 1000000000 -> bucketInv m rl -> bucketInv m (refilled now user rl).
Proof.
  intros Hm Hinv.
  pose proof (tokensOf_inv m rl user ltac:(lia) Hinv) as Htok.
  destruct Hinv as (Hmax & Hb & Ht).
  unfold refilled.
  destruct (lastRefill rl !! user) as [lastTime |].
  - destruct (0 <? _) eqn:Hpos; [| by split_inv].
    apply Z.ltb_lt in Hpos.
    pose proof (tokensToAdd_no_overflow (Sub now lastTime) (maxPerSec rl)
                  (Sub_range now lastTime) ltac:(lia)) as Hr.
    split_inv; simpl; try done.
    apply map_Forall_insert_2; [| exact Ht].
    rewrite wrap_in_range
      by (unfold GoInt.in_range, GoInt.min_int, GoInt.max_int in *; lia).
    rewrite min_cases. lia.
  - split_inv; simpl; try done.
    apply map_Forall_insert_2; [lia | exact Ht].
Qed.

Lemma Allow_inv (m : Z) (now : Time) (user : string) (rl : RateLimiter) :
  0 <= m < 1000000000 -> bucketInv m rl -> bucketInv m (Allow now user rl).2.
Proof.
  intros Hm Hinv. rewrite Allow_refilled. cbv zeta.
  pose proof (refilled_inv m now user rl Hm Hinv) as Hinv1.
  pose proof (tokensOf_inv m _ user ltac:(lia) Hinv1) as Htok.
  destruct (tokensOf _ user <=? 0) eqn:Hz; simpl; [exact Hinv1 |].
  apply Z.leb_gt in Hz.
  destruct Hinv1 as (Hmax & Hb & Ht).
  split_inv; simpl; try done.
  apply map_Forall_insert_2; [| exact Ht].
  rewrite wrap_in_range
    by (unfold GoInt.in_range, GoInt.min_int, GoInt.max_int; lia).
  lia.
Qed.

Lemma deleteUser_inv (m : Z) (rl : RateLimiter) (user : string) :
  bucketInv m rl -> bucketInv m (deleteUser rl user).
Proof.
  intros (Hmax & Hb & Ht). split_inv; simpl; try done.
  by apply map_Forall_delete.
Qed.

Lemma foldl_deleteUser_inv (m : Z) (users : list string) (rl : RateLimiter) :
  bucketInv m rl -> bucketInv m (foldl deleteUser rl users).
Proof.
  revert rl. induction users as [| u users IH]; intros rl Hinv; simpl.
  - exact Hinv.
  - apply IH, deleteUser_inv, Hinv.
Qed.

Lemma step_inv (m : Z) (rl : RateLimiter) (ev : event) :
  0 <= m < 1000000000 -> bucketInv m rl -> bucketInv m (step rl ev).
Proof.
  intros Hm Hinv. destruct ev as [now user | now]; simpl.
  - by apply Allow_inv.
  - by apply foldl_deleteUser_inv.
Qed.

Lemma run_inv (m : Z) (evs : list event) (rl : RateLimiter) :
  0 <= m < 1000000000 -> bucketInv m rl -> bucketInv m (run rl evs).
Proof.
  intros Hm. revert rl. unfold run.
  induction evs as [| ev evs IH]; intros rl Hinv; simpl.
  - exact Hinv.
  - apply IH, step_inv; assumption.
Qed.

(** C1. Whatever calls of [Allow] and cleanup sweeps a limiter built by
    [NewRateLimiter] goes through, [bucketSize] is twice [maxPerSec] and the
    token count of every identity lies between 0 and [bucketSize]. *)
Theorem bucket_invariant (m : Z) (evs : list event) (user : string) :
  0 <= m < 1000000000 ->
  let rl := run (NewRateLimiter m) evs in
  maxPerSec rl = m /\
  bucketSize rl = 2 * maxPerSec rl /\
  0 <= tokensOf rl user <= bucketSize rl.
Proof.
  intros Hm rl.
  assert (Hinv : bucketInv m rl) by (apply run_inv, NewRateLimiter_inv; lia).
  pose proof (tokensOf_inv m rl user ltac:(lia) Hinv) as Htok.
  destruct Hinv as (Hmax & Hb & _). rewrite Hmax. auto.
Qed.

Lemma bucket_invariant_witness :
  let rl := run (NewRateLimiter 10)
                [EvAllow 0 "alice"; EvAllow 250000000 "alice";
                 EvCleanup 4000000000000; EvAllow 4000000000001 "bob"] in
  maxPerSec rl = 10 /\
  bucketSize rl = 2 * maxPerSec rl /\
  0 <= tokensOf rl "bob" <= bucketSize rl.
Proof.
  apply (bucket_invariant 10
           [EvAllow 0 "alice"; EvAllow 250000000 "alice";
            EvCleanup 4000000000000; EvAllow 4000000000001 "bob"] "bob").
  lia.
Defined.

(** ** The admission check *)

Lemma wrap_range (z : Z) : GoInt.in_range (GoInt.wrap z).
Proof.
  unfold GoInt.in_range, GoInt.wrap, GoInt.min_int, GoInt.max_int.
  pose proof (Z.mod_pos_bound (z + 2 ^ 63) (2 ^ 64) ltac:(lia)). lia.
Qed.

Lemma tokensOf_int (rl : RateLimiter) (user : string) :
  intState rl -> GoInt.in_range (tokensOf rl user).
Proof.
  intros [_ Ht]. unfold tokensOf.
  destruct (tokens rl !! user) as [k |] eqn:Hk; simpl.
  - exact (Ht _ _ Hk).
  - unfold GoInt.in_range, GoInt.min_int, GoInt.max_int. lia.
Qed.

Lemma refilled_int (now : Time) (user : string) (rl : RateLimiter) :
  intState rl -> GoInt.in_range (tokensOf (refilled now user rl) user).
Proof.
  intros Hint. pose proof (tokensOf_int rl user Hint) as Hold.
  destruct Hint as [Hb Ht]. unfold refilled.
  destruct (lastRefill rl !! user) as [lastTime |].
  - destruct (0 <? _); [| exact Hold].
    rewrite tokensOf_setBucket, decide_True by reflexivity.
    rewrite min_cases.
    pose proof (wrap_range
      (tokensOf rl user + tokensToAdd (Sub now lastTime) (maxPerSec rl))) as Hw.
    unfold GoInt.in_range in *. lia.
  - rewrite tokensOf_setBucket, decide_True by reflexivity. exact Hb.
Qed.

(** C3. [Allow] answers false exactly when the token count left by the
    refill step is at most 0, and the limiter is then as the refill left
    it; otherwise it answers true and the count is one less. *)
Theorem allow_admission (now : Time) (user : string) (rl : RateLimiter) :
  intState rl ->
  let rl1 := refilled now user rl in
  ((Allow now user rl).1 = false <-> tokensOf rl1 user <= 0) /\
  (tokensOf rl1 user <= 0 -> (Allow now user rl).2 = rl1) /\
  (0 < tokensOf rl1 user ->
     (Allow now user rl).1 = true /\
     (Allow now user rl).2 = setTokens rl1 user (tokensOf rl1 user - 1) /\
     tokensOf (Allow now user rl).2 user = tokensOf rl1 user - 1).
Proof.
  intros Hint rl1. rewrite Allow_refilled. fold rl1. cbv zeta.
  pose proof (refilled_int now user rl Hint) as Hr. fold rl1 in Hr.
  destruct (tokensOf rl1 user <=? 0) eqn:Hz; simpl.
  - apply Z.leb_le in Hz. repeat split; auto; lia.
  - apply Z.leb_gt in Hz.
    rewrite wrap_in_range by (unfold GoInt.in_range, GoInt.min_int in *; lia).
    split; [split; [discriminate | lia] |].
    split; [lia |]. intros _.
    rewrite tokensOf_setTokens, decide_True by reflexivity. auto.
Qed.

Lemma intState_new (m : Z) : intState (NewRateLimiter m).
Proof.
  split; simpl; [apply wrap_range | apply map_Forall_empty].
Qed.

Lemma allow_admission_witness :
  let rl := NewRateLimiter 10 in
  let rl1 := refilled 7 "alice" rl in
  ((Allow 7 "alice" rl).1 = false <-> tokensOf rl1 "alice" <= 0) /\
  (tokensOf rl1 "alice" <= 0 -> (Allow 7 "alice" rl).2 = rl1) /\
  (0 < tokensOf rl1 "alice" ->
     (Allow 7 "alice" rl).1 = true /\
     (Allow 7 "alice" rl).2 = setTokens rl1 "alice" (tokensOf rl1 "alice" - 1) /\
     tokensOf (Allow 7 "alice" rl).2 "alice" = tokensOf rl1 "alice" - 1).
Proof.
  apply (allow_admission 7 "alice" (NewRateLimiter 10)).
  apply intState_new.
Defined.

(** ** The cleanup sweep *)

Lemma foldl_deleteUser_tokens (users : list string) (rl : RateLimiter) :
  tokens (foldl deleteUser rl users) = foldl (fun m u => delete u m) (tokens rl) users.
Proof.
  revert rl. induction users as [| u users IH]; intros rl; simpl; [done |].
  by rewrite IH.
Qed.

Lemma foldl_deleteUser_lastRefill (users : list string) (rl : RateLimiter) :
  lastRefill (foldl deleteUser rl users)
  = foldl (fun m u => delete u m) (lastRefill rl) users.
Proof.
  revert rl. induction users as [| u users IH]; intros rl; simpl; [done |].
  by rewrite IH.
Qed.

Lemma foldl_deleteUser_config (users : list string) (rl : RateLimiter) :
  maxPerSec (foldl deleteUser rl users) = maxPerSec rl /\
  bucketSize (foldl deleteUser rl users) = bucketSize rl.
Proof.
  revert rl. induction users as [| u users IH]; intros rl; simpl; [done |].
  destruct (IH (deleteUser rl u)) as [-> ->]. done.
Qed.

Lemma lookup_foldl_delete {V : Type} (users : list string) (m : gmap string V)
      (user : string) :
  foldl (fun m u => delete u m) m users !! user
  = if decide (user ∈ users) then None else m !! user.
Proof.
  revert m. induction users as [| u users IH]; intros m; simpl.
  - destruct (decide (user ∈ [])) as [Hin | _]; [| done].
    by apply elem_of_nil in Hin.
  - rewrite IH.
    destruct (decide (user ∈ users)) as [Hin | Hnin];
      destruct (decide (user ∈ u :: users)) as [Hin' | Hnin']; try done.
    + exfalso. apply Hnin'. by right.
    + apply elem_of_cons in Hin'. destruct Hin' as [-> | ?]; [| done].
      apply lookup_delete_eq.
    + apply lookup_delete_ne. intros ->. apply Hnin'. by left.
Qed.

Lemma elem_of_inactiveUsers (now : Time) (rl : RateLimiter) (user : string) :
  user ∈ inactiveUsers now rl <->
  exists t, lastRefill rl !! user = Some t /\ t < now - Hour.
Proof.
  unfold inactiveUsers, Before, Add. rewrite list_elem_of_fmap. split.
  - intros ([u t] & -> & Hin). apply list_elem_of_filter in Hin.
    destruct Hin as [Hlt Hin]. simpl in *.
    apply elem_of_map_to_list in Hin. apply Z.ltb_lt in Hlt.
    exists t. split; [done | lia].
  - intros (t & Hl & Hlt). exists (user, t). split; [done |].
    apply list_elem_of_filter. split.
    + simpl. apply Z.ltb_lt. lia.
    + by apply elem_of_map_to_list.
Qed.

Lemma Allow_config (now : Time) (user : string) (rl : RateLimiter) :
  maxPerSec (Allow now user rl).2 = maxPerSec rl /\
  bucketSize (Allow now user rl).2 = bucketSize rl.
Proof.
  rewrite Allow_refilled. cbv zeta.
  destruct (refilled_config now user rl) as [Hm Hb].
  by destruct (tokensOf _ user <=? 0).
Qed.

Lemma Allow_other (now : Time) (u user : string) (rl : RateLimiter) :
  u <> user ->
  tokens (Allow now u rl).2 !! user = tokens rl !! user /\
  lastRefill (Allow now u rl).2 !! user = lastRefill rl !! user.
Proof.
  intros Hne. rewrite Allow_refilled. cbv zeta.
  assert (Hre : tokens (refilled now u rl) !! user = tokens rl !! user /\
                lastRefill (refilled now u rl) !! user = lastRefill rl !! user).
  { unfold refilled. destruct (lastRefill rl !! u) as [lastTime |].
    - destruct (0 <? _); [| done]. simpl. by rewrite !lookup_insert_ne.
    - simpl. by rewrite !lookup_insert_ne. }
  destruct Hre as [Ht Hl].
  destruct (tokensOf _ u <=? 0); simpl; [done |].
  by rewrite lookup_insert_ne.
Qed.

(** Calls for other identities and further sweeps leave an absent identity
    absent. *)
Lemma run_others_absent (user : string) (evs : list event) (rl : RateLimiter) :
  forallb (fun ev => negb (concerns user ev)) evs = true ->
  tokens rl !! user = None -> lastRefill rl !! user = None ->
  tokens (run rl evs) !! user = None /\
  lastRefill (run rl evs) !! user = None /\
  bucketSize (run rl evs) = bucketSize rl.
Proof.
  unfold run. revert rl.
  induction evs as [| ev evs IH]; intros rl Hall Ht Hl; simpl; [done |].
  simpl in Hall. apply andb_true_iff in Hall. destruct Hall as [Hev Hall].
  destruct ev as [now u | now]; simpl in *.
  - apply negb_true_iff, String.eqb_neq in Hev.
    destruct (Allow_other now u user rl Hev) as [Ht' Hl'].
    destruct (Allow_config now u rl) as [_ Hb].
    destruct (IH (Allow now u rl).2 Hall) as (? & ? & ->); [congruence.. |].
    done.
  - destruct (IH (cleanupInactiveBuckets now rl) Hall) as (? & ? & ->).
    + unfold cleanupInactiveBuckets.
      rewrite foldl_deleteUser_tokens, lookup_foldl_delete. by case_decide.
    + unfold cleanupInactiveBuckets.
      rewrite foldl_deleteUser_lastRefill, lookup_foldl_delete. by case_decide.
    + split; [done |]. split; [done |]. apply foldl_deleteUser_config.
Qed.

(** C4. An identity whose [lastRefill] lies more than one hour before the
    sweep is gone from both maps after it; whatever calls for other
    identities and further sweeps follow, the next [Allow] for that identity
    fills its bucket to [bucketSize] and sets [lastRefill] to the time of
    the call (the same call then takes its token). *)
Theorem cleanup_then_fresh (now : Time) (rl : RateLimiter) (user : string)
        (t : Time) (evs : list event) (now' : Time) :
  lastRefill rl !! user = Some t ->
  t < now - Hour ->
  GoInt.in_range (bucketSize rl) ->
  forallb (fun ev => negb (concerns user ev)) evs = true ->
  let swept := cleanupInactiveBuckets now rl in
  let rl' := run swept evs in
  tokens swept !! user = None /\
  lastRefill swept !! user = None /\
  tokensOf (refilled now' user rl') user = bucketSize rl /\
  lastRefill (refilled now' user rl') !! user = Some now' /\
  lastRefill (Allow now' user rl').2 !! user = Some now' /\
  (Allow now' user rl').1 = negb (bucketSize rl <=? 0) /\
  tokensOf (Allow now' user rl').2 user
  = if bucketSize rl <=? 0 then bucketSize rl else bucketSize rl - 1.
Proof.
  intros Hl Hlt Hb Hothers swept rl'.
  assert (Hin : user ∈ inactiveUsers now rl)
    by (apply elem_of_inactiveUsers; eauto).
  assert (Htok : tokens swept !! user = None).
  { unfold swept, cleanupInactiveBuckets.
    rewrite foldl_deleteUser_tokens, lookup_foldl_delete.
    by rewrite decide_True. }
  assert (Hlast : lastRefill swept !! user = None).
  { unfold swept, cleanupInactiveBuckets.
    rewrite foldl_deleteUser_lastRefill, lookup_foldl_delete.
    by rewrite decide_True. }
  assert (Hbs : bucketSize swept = bucketSize rl)
    by apply foldl_deleteUser_config.
  destruct (run_others_absent user evs swept Hothers Htok Hlast)
    as (Htok' & Hlast' & Hbs'). fold rl' in Htok', Hlast', Hbs'.
  rewrite Hbs in Hbs'.
  assert (Hre : refilled now' user rl' = setBucket rl' user (bucketSize rl') now').
  { unfold refilled. by rewrite Hlast'. }
  split; [done |]. split; [done |].
  rewrite Allow_refilled, Hre. cbv zeta.
  rewrite tokensOf_setBucket, decide_True, Hbs' by reflexivity.
  split; [done |]. split; [simpl; apply lookup_insert_eq |].
  destruct (bucketSize rl <=? 0) eqn:Hz; simpl.
  - split; [apply lookup_insert_eq |]. split; [done |].
    by rewrite tokensOf_setBucket, decide_True by reflexivity.
  - split; [apply lookup_insert_eq |]. split; [done |].
    rewrite tokensOf_setTokens, decide_True by reflexivity.
    apply Z.leb_gt in Hz. apply wrap_in_range.
    unfold GoInt.in_range, GoInt.min_int in *. lia.
Qed.

Lemma cleanup_then_fresh_witness :
  let rl := (Allow 0 "alice" (NewRateLimiter 10)).2 in
  let swept := cleanupInactiveBuckets 3600000000001 rl in
  let rl' := run swept [EvAllow 3600000000001 "bob"; EvCleanup 3600000000002] in
  tokens swept !! "alice" = None /\
  lastRefill swept !! "alice" = None /\
  tokensOf (refilled 3600000000003 "alice" rl') "alice" = bucketSize rl /\
  lastRefill (refilled 3600000000003 "alice" rl') !! "alice" = Some 3600000000003 /\
  lastRefill (Allow 3600000000003 "alice" rl').2 !! "alice" = Some 3600000000003 /\
  (Allow 3600000000003 "alice" rl').1 = negb (bucketSize rl <=? 0) /\
  tokensOf (Allow 3600000000003 "alice" rl').2 "alice"
  = if bucketSize rl <=? 0 then bucketSize rl else bucketSize rl - 1.
Proof.
  apply (cleanup_then_fresh 3600000000001 (Allow 0 "alice" (NewRateLimiter 10)).2
           "alice" 0 [EvAllow 3600000000001 "bob"; EvCleanup 3600000000002]
           3600000000003).
  - reflexivity.
  - reflexivity.
  - vm_compute. split; discriminate.
  - reflexivity.
Defined.

(** ** The refill *)

Example tokensToAdd_quarter_second : tokensToAdd (250 * Millisecond) 10 = 2.
Proof. vm_compute. reflexivity. Qed.

Example tokensToAdd_99ms : tokensToAdd (99 * Millisecond) 10 = 0.
Proof. vm_compute. reflexivity. Qed.

Example tokensToAdd_clock_back : tokensToAdd (- (3 * Second)) 10 = -30.
Proof. vm_compute. reflexivity. Qed.

(** C2, as stated, fails: with [maxPerSec = 100], a bucket emptied at time
    0 and asked again 0.29 s later gets 28 tokens, not
    [floor(0.29 * 100) = 29]: the product is taken in [float64], where it
    is 28.999999999999996. *)
Lemma refill_below_floor :
  let rl := run (NewRateLimiter 100) (replicate 200 (EvAllow 0 "u")) in
  lastRefill rl !! "u" = Some 0 /\
  tokensOf rl "u" = 0 /\
  bucketSize rl = 200 /\
  floorTokens (290000000 - 0) (maxPerSec rl) = 29 /\
  tokensToAdd (Sub 290000000 0) (maxPerSec rl) = 28 /\
  tokensOf (refilled 290000000 "u" rl) "u" = 28 /\
  tokensOf (refilled 290000000 "u" rl) "u"
  <> Z.min (tokensOf rl "u" + floorTokens (290000000 - 0) (maxPerSec rl))
           (bucketSize rl) /\
  tokensOf (Allow 290000000 "u" rl).2 "u" = 27.
Proof. vm_compute. repeat split; congruence. Qed.

(** C2, amended. For an identity the limiter knows, [Allow] adds
    [tokensToAdd] tokens, the integer part of the [float64] product of the
    elapsed seconds and [maxPerSec], capped at [bucketSize], before the
    admission check, and sets [lastRefill] to the time of the call; when
    [tokensToAdd] is not positive, tokens and [lastRefill] stay as they
    were.  As long as [t * maxPerSec] is below 10^6, [tokensToAdd] is
    [floor(t * maxPerSec)] or, by rounding, one less, so waiting [t] seconds
    adds at most [floor(t * maxPerSec)] tokens, and none, with [lastRefill]
    unchanged, when [floor(t * maxPerSec) = 0]. *)
Theorem allow_refill (m : Z) (now : Time) (user : string) (rl : RateLimiter)
        (t0 : Time) :
  0 <= m < 1000000000 ->
  bucketInv m rl ->
  lastRefill rl !! user = Some t0 ->
  let d := Sub now t0 in
  let n := tokensToAdd d m in
  let rl1 := refilled now user rl in
  (0 <= d -> d * m < 10 ^ 15 -> floorTokens d m - 1 <= n <= floorTokens d m) /\
  (0 <= d -> floorTokens d m = 0 -> rl1 = rl) /\
  (0 < n ->
   tokensOf rl1 user = Z.min (tokensOf rl user + n) (bucketSize rl) /\
   lastRefill rl1 !! user = Some now) /\
  (n <= 0 -> rl1 = rl) /\
  tokensOf rl user <= tokensOf rl1 user <= tokensOf rl user + Z.max 0 n /\
  (Allow now user rl).1 = negb (tokensOf rl1 user <=? 0) /\
  lastRefill (Allow now user rl).2 !! user = lastRefill rl1 !! user /\
  tokensOf (Allow now user rl).2 user
  = if tokensOf rl1 user <=? 0 then tokensOf rl1 user else tokensOf rl1 user - 1.
Proof.
  intros Hm Hinv Hl d n rl1.
  pose proof (tokensOf_inv m rl user ltac:(lia) Hinv) as Htok.
  pose proof (tokensOf_inv m rl1 user ltac:(lia)
                (refilled_inv m now user rl Hm Hinv)) as Htok1.
  destruct (refilled_inv m now user rl Hm Hinv) as (_ & Hb1 & _). fold rl1 in Hb1.
  destruct Hinv as (Hmax & Hb & Ht).
  pose proof (Sub_range now t0) as Hd. fold d in Hd.
  pose proof (tokensToAdd_no_overflow d m Hd Hm) as Hr. fold n in Hr.
  assert (Hfloor : 0 <= d -> d * m < 10 ^ 15 -> n <= floorTokens d m).
  { intros Hd0 Hdm. unfold floorTokens. change Second with 1000000000.
    apply tokensToAdd_le_floor; [lia | | exact Hdm].
    change (2 ^ 53) with 9007199254740992. lia. }
  split.
  { intros Hd0 Hdm. split; [| by apply Hfloor].
    unfold floorTokens. change Second with 1000000000.
    destruct (Z.eq_dec (d * m) 0) as [Hz | Hnz].
    - rewrite Hz. change (0 / 1000000000) with 0.
      apply Z.mul_eq_0 in Hz. destruct Hz as [Hz | Hz].
      + unfold n. rewrite Hz. rewrite tokensToAdd_zero_duration; [lia |].
        change (2 ^ 53) with 9007199254740992. lia.
      + unfold n. rewrite Hz. rewrite tokensToAdd_zero_rate; lia.
    - apply tokensToAdd_ge_floor; [nia | | exact Hdm].
      change (2 ^ 53) with 9007199254740992. nia. }
  assert (Hre : rl1 = if 0 <? n
                      then setBucket rl user
                             (Z.min (tokensOf rl user + n) (bucketSize rl)) now
                      else rl).
  { unfold rl1, refilled. rewrite Hl, Hmax. cbv zeta. fold d. fold n.
    destruct (0 <? n) eqn:Hp; [| done]. apply Z.ltb_lt in Hp.
    rewrite min_cases, wrap_in_range; [done |].
    unfold GoInt.in_range, GoInt.min_int, GoInt.max_int in *. lia. }
  assert (Hcases :
    (0 < n ->
     tokensOf rl1 user = Z.min (tokensOf rl user + n) (bucketSize rl) /\
     lastRefill rl1 !! user = Some now) /\
    (n <= 0 -> rl1 = rl)).
  { rewrite Hre. split.
    - intros Hp. apply Z.ltb_lt in Hp. rewrite Hp.
      rewrite tokensOf_setBucket, decide_True by reflexivity.
      split; [done | simpl; apply lookup_insert_eq].
    - intros Hn. destruct (0 <? n) eqn:Hp; [apply Z.ltb_lt in Hp; lia | done]. }
  destruct Hcases as [Hpos Hnonpos].
  split.
  { intros Hd0 Hz. apply Hnonpos. rewrite <- Hz. apply Hfloor; [exact Hd0 |].
    unfold floorTokens in Hz. change Second with 1000000000 in Hz.
    assert (d * m < 1000000000); [| change (10 ^ 15) with 1000000000000000; lia].
    destruct (Z.lt_ge_cases (d * m) 1000000000) as [Hlt | Hge]; [exact Hlt |].
    assert (1 <= d * m / 1000000000) by (apply Z.div_le_lower_bound; lia). lia. }
  split; [exact Hpos |]. split; [exact Hnonpos |].
  split.
  { destruct (Z.lt_ge_cases 0 n) as [Hp | Hn].
    - destruct (Hpos Hp) as [-> _]. lia.
    - rewrite (Hnonpos Hn). lia. }
  rewrite Allow_refilled. fold rl1. cbv zeta.
  destruct (tokensOf rl1 user <=? 0) eqn:Hz; simpl; [done |].
  apply Z.leb_gt in Hz.
  rewrite tokensOf_setTokens, decide_True by reflexivity.
  rewrite wrap_in_range
    by (unfold GoInt.in_range, GoInt.min_int, GoInt.max_int; lia).
  done.
Qed.

Lemma allow_refill_witness :
  let rl := run (NewRateLimiter 10) (replicate 5 (EvAllow 0 "u")) in
  let d := Sub 250000000 0 in
  let n := tokensToAdd d 10 in
  let rl1 := refilled 250000000 "u" rl in
  (0 <= d -> d * 10 < 10 ^ 15 -> floorTokens d 10 - 1 <= n <= floorTokens d 10) /\
  (0 <= d -> floorTokens d 10 = 0 -> rl1 = rl) /\
  (0 < n ->
   tokensOf rl1 "u" = Z.min (tokensOf rl "u" + n) (bucketSize rl) /\
   lastRefill rl1 !! "u" = Some 250000000) /\
  (n <= 0 -> rl1 = rl) /\
  tokensOf rl "u" <= tokensOf rl1 "u" <= tokensOf rl "u" + Z.max 0 n /\
  (Allow 250000000 "u" rl).1 = negb (tokensOf rl1 "u" <=? 0) /\
  lastRefill (Allow 250000000 "u" rl).2 !! "u" = lastRefill rl1 !! "u" /\
  tokensOf (Allow 250000000 "u" rl).2 "u"
  = if tokensOf rl1 "u" <=? 0 then tokensOf rl1 "u" else tokensOf rl1 "u" - 1.
Proof.
  apply (allow_refill 10 250000000 "u"
           (run (NewRateLimiter 10) (replicate 5 (EvAllow 0 "u"))) 0).
  - lia.
  - apply run_inv, NewRateLimiter_inv; lia.
  - reflexivity.
Defined.

(** ** The handler, step by step *)

Import GoStrings Handler.

(** A fact about every byte, by trying them all. *)
Ltac every_byte c :=
  destruct c as [[] [] [] [] [] [] [] []]; vm_compute; reflexivity.

Lemma HasPrefix_Basic_nonempty (h : string) :
  HasPrefix h "Basic " = true -> String.eqb h "" = false.
Proof. destruct h; [discriminate | reflexivity]. Qed.

Lemma basicCredentials_Some (h u p : string) :
  basicCredentials h = Some (u, p) ->
  HasPrefix h "Basic " = true /\
  exists c, Base64.DecodeString (sliceFrom 6 h) = Some c /\ cut c ":" = Some (u, p).
Proof.
  unfold basicCredentials. destruct (HasPrefix h "Basic "); [| discriminate].
  destruct (Base64.DecodeString _) as [c |]; [| discriminate].
  intros Hc. split; [reflexivity | by exists c].
Qed.

Lemma basicCredentials_None (h : string) :
  basicCredentials h = None ->
  String.eqb h "" || negb (HasPrefix h "Basic ") = true \/
  (HasPrefix h "Basic " = true /\ Base64.DecodeString (sliceFrom 6 h) = None) \/
  (HasPrefix h "Basic " = true /\
   exists c, Base64.DecodeString (sliceFrom 6 h) = Some c /\ cut c ":" = None).
Proof.
  unfold basicCredentials. destruct (HasPrefix h "Basic ") eqn:Hp.
  - destruct (Base64.DecodeString _) as [c |].
    + intros Hc. right. right. split; [reflexivity | by exists c].
    + intros _. right. left. done.
  - intros _. left. by rewrite orb_true_r.
Qed.

Section HandlerSteps.

Variable titleUnicode : string -> string.
Variable jsonDecode : string -> option EmailRequest.
Variable SendMail : SendMailCall -> option string.

Ltac enter_handler Hm Hc :=
  unfold GetMailHandler; rewrite Hm; rewrite String.eqb_refl; simpl negb; cbv iota;
  let Hp := fresh "Hp" in
  let c := fresh "c" in
  let Hd := fresh "Hd" in
  let Hcut := fresh "Hcut" in
  destruct (basicCredentials_Some _ _ _ Hc) as (Hp & c & Hd & Hcut);
  cbv zeta; rewrite (HasPrefix_Basic_nonempty _ Hp), Hp; simpl orb; cbv iota;
  rewrite Hd; unfold SplitN2; rewrite Hcut.

Lemma handle_not_post (rl : RateLimiter) (now : Time) (r : Request) :
  Method r <> MethodPost ->
  GetMailHandler titleUnicode jsonDecode SendMail rl now r
  = mkOutcome (httpError "Method not allowed" StatusMethodNotAllowed) rl [].
Proof.
  intros Hm. unfold GetMailHandler.
  apply String.eqb_neq in Hm. by rewrite Hm.
Qed.

Lemma handle_unauthorized (rl : RateLimiter) (now : Time) (r : Request) :
  Method r = MethodPost ->
  basicCredentials (Authorization r) = None ->
  StatusCode (response (GetMailHandler titleUnicode jsonDecode SendMail rl now r)) = StatusUnauthorized /\
  limiter (GetMailHandler titleUnicode jsonDecode SendMail rl now r) = rl /\
  relayed (GetMailHandler titleUnicode jsonDecode SendMail rl now r) = [].
Proof.
  intros Hm Hc. unfold GetMailHandler. rewrite Hm, String.eqb_refl. simpl negb.
  cbv iota zeta.
  destruct (basicCredentials_None _ Hc) as [Hb | [[Hp Hd] | (Hp & c & Hd & Hcut)]].
  - by rewrite Hb.
  - rewrite (HasPrefix_Basic_nonempty _ Hp), Hp. simpl orb. cbv iota. by rewrite Hd.
  - rewrite (HasPrefix_Basic_nonempty _ Hp), Hp. simpl orb. cbv iota. rewrite Hd.
    unfold SplitN2. by rewrite Hcut.
Qed.

Lemma handle_limiter (rl : RateLimiter) (now : Time) (r : Request)
      (u p : string) :
  Method r = MethodPost ->
  basicCredentials (Authorization r) = Some (u, p) ->
  limiter (GetMailHandler titleUnicode jsonDecode SendMail rl now r) = (Allow now u rl).2.
Proof.
  intros Hm Hc. enter_handler Hm Hc.
  destruct (Allow now u rl) as [[] rl']; simpl; [| done].
  destruct (jsonDecode _) as [e |]; [| done].
  destruct (_ || _); [done |].
  by destruct (SendMail _).
Qed.

Lemma handle_denied (rl : RateLimiter) (now : Time) (r : Request)
      (u p : string) :
  Method r = MethodPost ->
  basicCredentials (Authorization r) = Some (u, p) ->
  (Allow now u rl).1 = false ->
  response (GetMailHandler titleUnicode jsonDecode SendMail rl now r)
  = httpError "Rate limit exceeded" StatusTooManyRequests /\
  relayed (GetMailHandler titleUnicode jsonDecode SendMail rl now r) = [].
Proof.
  intros Hm Hc Ha. enter_handler Hm Hc.
  destruct (Allow now u rl) as [allowed rl']; simpl in *. by subst.
Qed.

Lemma handle_bad_body (rl : RateLimiter) (now : Time) (r : Request)
      (u p : string) :
  Method r = MethodPost ->
  basicCredentials (Authorization r) = Some (u, p) ->
  (Allow now u rl).1 = true ->
  jsonDecode (Body r) = None ->
  response (GetMailHandler titleUnicode jsonDecode SendMail rl now r) = httpError "Invalid request body" StatusBadRequest /\
  relayed (GetMailHandler titleUnicode jsonDecode SendMail rl now r) = [].
Proof.
  intros Hm Hc Ha Hj. enter_handler Hm Hc.
  destruct (Allow now u rl) as [allowed rl']; simpl in *. subst.
  by rewrite Hj.
Qed.

Lemma handle_missing (rl : RateLimiter) (now : Time) (r : Request)
      (u p : string) (e : EmailRequest) :
  Method r = MethodPost ->
  basicCredentials (Authorization r) = Some (u, p) ->
  (Allow now u rl).1 = true ->
  jsonDecode (Body r) = Some e ->
  missingFields e = true ->
  response (GetMailHandler titleUnicode jsonDecode SendMail rl now r)
  = httpError "Missing required fields (to, subject, content)" StatusBadRequest /\
  relayed (GetMailHandler titleUnicode jsonDecode SendMail rl now r) = [].
Proof.
  intros Hm Hc Ha Hj Hf. enter_handler Hm Hc.
  destruct (Allow now u rl) as [allowed rl']; simpl in *. subst.
  rewrite Hj. unfold missingFields in Hf. by rewrite Hf.
Qed.

Lemma handle_relay (rl : RateLimiter) (now : Time) (r : Request)
      (u p : string) (e : EmailRequest) :
  Method r = MethodPost ->
  basicCredentials (Authorization r) = Some (u, p) ->
  (Allow now u rl).1 = true ->
  jsonDecode (Body r) = Some e ->
  missingFields e = false ->
  relayed (GetMailHandler titleUnicode jsonDecode SendMail rl now r) = [relayCall titleUnicode u p e] /\
  response (GetMailHandler titleUnicode jsonDecode SendMail rl now r)
  = match SendMail (relayCall titleUnicode u p e) with
    | Some err => httpError ("Failed to send email: " +:+ err) StatusInternalServerError
    | None => mkResponse StatusOK "application/json" successBody
    end.
Proof.
  intros Hm Hc Ha Hj Hf. enter_handler Hm Hc.
  destruct (Allow now u rl) as [allowed rl']; simpl in *. subst.
  rewrite Hj. unfold missingFields in Hf. rewrite Hf. cbv zeta.
  fold (relayCall titleUnicode u p e). by destruct (SendMail _).
Qed.

End HandlerSteps.

(** ** Text *)

Lemma append_assoc (s1 s2 s3 : string) : (s1 +:+ s2) +:+ s3 = s1 +:+ s2 +:+ s3.
Proof.
  induction s1 as [| c s1 IH]; [reflexivity |].
  change (String c ((s1 +:+ s2) +:+ s3) = String c (s1 +:+ s2 +:+ s3)).
  by rewrite IH.
Qed.

Lemma MatchString_here (s : string) : Html.matchHere s = true -> Html.MatchString s = true.
Proof. intros H. destruct s; cbn [Html.MatchString]; rewrite H; reflexivity. Qed.

Lemma MatchString_skip (pre s : string) :
  Html.MatchString s = true -> Html.MatchString (pre +:+ s) = true.
Proof.
  intros H. induction pre as [| c pre IH]; [exact H |].
  change (Html.MatchString (String c (pre +:+ s)) = true).
  cbn [Html.MatchString]. rewrite IH. apply orb_true_r.
Qed.

(** Text in which [<p>] occurs is taken for HTML. *)
Lemma isHTML_paragraph (pre post : string) :
  Html.isHTML (pre +:+ "<p>" +:+ post) = true.
Proof.
  unfold Html.isHTML. apply MatchString_skip, MatchString_here. reflexivity.
Qed.

Lemma isHTML_hi : Html.isHTML "hi" = false.
Proof. reflexivity. Qed.

(** The message of the code is the header block, a blank line, the
    body. *)
Lemma buildMessage_html (title : string) (e : EmailRequest) :
  buildMessage true title e
  = mimeMessage ["From: " +:+ title;
                 "To: " +:+ Join (To e) ", ";
                 "Subject: " +:+ Subject e;
                 "MIME-Version: 1.0";
                 "Content-Type: text/html; charset=UTF-8"]
                (Content e).
Proof.
  unfold buildMessage, mimeMessage. cbn [headerBlock].
  rewrite !append_assoc. reflexivity.
Qed.

Lemma buildMessage_plain (title : string) (e : EmailRequest) :
  buildMessage false title e
  = mimeMessage ["From: " +:+ title;
                 "To: " +:+ Join (To e) ", ";
                 "Subject: " +:+ Subject e;
                 "Content-Type: text/plain; charset=UTF-8"]
                (Content e).
Proof.
  unfold buildMessage, mimeMessage. cbn [headerBlock].
  rewrite !append_assoc. reflexivity.
Qed.

(** ** The display title *)

Lemma splitFrom_cut (cur s : string) (sep : ascii) :
  splitFrom cur s sep
  = match cut s sep with
    | Some (before, after) => (cur +:+ before) :: splitFrom "" after sep
    | None => [cur +:+ s]
    end.
Proof.
  revert cur. induction s as [| c s IH]; intros cur; simpl.
  - f_equal. induction cur as [| a cur IHc]; [reflexivity |].
    change (String a cur = String a (cur +:+ "")). by rewrite <- IHc.
  - destruct (Ascii.eqb c sep).
    + f_equal. induction cur as [| a cur IHc]; [reflexivity |].
      change (String a cur = String a (cur +:+ "")). by rewrite <- IHc.
    + rewrite IH. destruct (cut s sep) as [[before after] |].
      * f_equal. apply append_assoc.
      * f_equal. apply append_assoc.
Qed.

Lemma Split_head (s : string) (sep : ascii) :
  exists rest, Split s sep = localPartOf s sep :: rest.
Proof.
  unfold Split, localPartOf. rewrite splitFrom_cut.
  destruct (cut s sep) as [[before after] |]; eexists; reflexivity.
Qed.

Lemma toTitle_capital (c : ascii) : toTitle c = capital c.
Proof. every_byte c. Qed.

Lemma isSeparator_wordCharacter (c : ascii) :
  isSeparator c = negb (wordCharacter c).
Proof. every_byte c. Qed.

Lemma isASCII_below (c : ascii) : isASCII c = (nat_of_ascii c <? 128)%nat.
Proof. every_byte c. Qed.

Lemma allASCII_plainText (s : string) : allASCII s = plainText s.
Proof.
  induction s as [| c s IH]; [reflexivity |].
  cbn [allASCII plainText]. by rewrite IH, isASCII_below.
Qed.

Lemma Contains_among (s : string) (c : ascii) : Contains s c = among c s.
Proof.
  induction s as [| a s IH]; [reflexivity |].
  cbn [Contains among]. by rewrite IH, Ascii.eqb_sym.
Qed.

Lemma localPartOf_beforeAt (s : string) : localPartOf s "@" = beforeAt s.
Proof.
  unfold localPartOf. induction s as [| c s IH]; [reflexivity |].
  cbn [cut beforeAt]. destruct (Ascii.eqb c "@"); [reflexivity |].
  destruct (cut s "@") as [[before after] |]; by rewrite <- IH.
Qed.

(** On ASCII text the mapping of [strings.Title] capitalizes the first
    letter of every run of letters, digits and underscores. *)
Lemma titleFrom_capitalize (prev : ascii) (s : string) :
  isASCII prev = true -> allASCII s = true ->
  titleFrom prev s
  = capitalizeWords (fun c => negb (wordCharacter c)) (isSeparator prev) s.
Proof.
  revert prev. induction s as [| c s IH]; intros prev Hp Hs; [reflexivity |].
  cbn [allASCII] in Hs. apply andb_true_iff in Hs as [Hc Hs].
  cbn [titleFrom capitalizeWords]. rewrite Hp, toTitle_capital. cbn [andb].
  f_equal. rewrite (IH c Hc Hs). by rewrite isSeparator_wordCharacter.
Qed.

(** The title of the code is the display title, for every user name. *)
Lemma fromTitle_displayTitle (titleUnicode : string -> string)
      (username : string) (e : EmailRequest) :
  fromTitle titleUnicode username e = displayTitle titleUnicode username e.
Proof.
  unfold fromTitle, displayTitle, titleWith.
  destruct (String.eqb (Title e) ""); cbn [negb]; [| reflexivity].
  rewrite Contains_among. destruct (among "@" username); [| reflexivity].
  destruct (Split_head username "@") as [rest ->].
  rewrite localPartOf_beforeAt. unfold GoStrings.Title.
  rewrite <- allASCII_plainText.
  destruct (allASCII (beforeAt username)) eqn:Hl; [| reflexivity].
  by rewrite titleFrom_capitalize.
Qed.

(** ** What the handler answers *)

(** The scenario of the specification: alice@example.com, no title, a plain
    text to bob. *)
Example scenario_alice :
  let o := GetMailHandler Doubles.titleAsIs (Doubles.decodeAs Doubles.hello)
                          Doubles.relayAccepts (NewRateLimiter 10) 0
                          Doubles.alicePost in
  StatusCode (response o) = 200 /\
  smtpMsg <$> relayed o
  = ["From: " +:+ doubleQuote +:+ "Alice" +:+ doubleQuote
     +:+ " <alice@example.com>" +:+ lineFeed
     +:+ "To: bob@example.com" +:+ lineFeed
     +:+ "Subject: Hi" +:+ lineFeed
     +:+ "Content-Type: text/plain; charset=UTF-8" +:+ lineFeed
     +:+ lineFeed
     +:+ "hello"] /\
  tokensOf (limiter o) "alice@example.com" = 19.
Proof. vm_compute. auto. Qed.

(** The refusals, one by one: a GET, a POST without credentials, a body
    that does not decode, and a request without a subject. *)
Example scenario_refusals :
  let answer jsonDecode r :=
    let o := GetMailHandler Doubles.titleAsIs jsonDecode Doubles.relayAccepts
                            (NewRateLimiter 10) 0 r in
    (StatusCode (response o), ResponseBody (response o), length (relayed o)) in
  answer (Doubles.decodeAs Doubles.hello) (mkRequest "GET" Doubles.aliceAuth "{}")
  = (405, "Method not allowed" +:+ lineFeed, 0%nat) /\
  answer (Doubles.decodeAs Doubles.hello) (mkRequest "POST" "" "{}")
  = (401, "Authentication required" +:+ lineFeed, 0%nat) /\
  answer (fun _ => None) Doubles.alicePost
  = (400, "Invalid request body" +:+ lineFeed, 0%nat) /\
  answer (Doubles.decodeAs (mkEmailRequest ["bob@example.com"] "" "hello" ""))
         Doubles.alicePost
  = (400, "Missing required fields (to, subject, content)" +:+ lineFeed, 0%nat).
Proof. vm_compute. auto. Qed.

(** C5. The checks run in order and the first failure answers: a request
    that is not a POST gets 405 whatever its headers and body are, and a
    POST whose Authorization header is missing or malformed gets 401
    whatever its body holds; neither touches the limiter or the relay. *)
Theorem handler_order (titleUnicode : string -> string)
        (jsonDecode : string -> option EmailRequest)
        (SendMail : SendMailCall -> option string)
        (rl : RateLimiter) (now : Time) (r : Request) :
  (Method r <> MethodPost ->
   StatusCode (response (GetMailHandler titleUnicode jsonDecode SendMail rl now r))
   = StatusMethodNotAllowed /\
   limiter (GetMailHandler titleUnicode jsonDecode SendMail rl now r) = rl /\
   relayed (GetMailHandler titleUnicode jsonDecode SendMail rl now r) = []) /\
  (Method r = MethodPost ->
   basicCredentials (Authorization r) = None ->
   StatusCode (response (GetMailHandler titleUnicode jsonDecode SendMail rl now r))
   = StatusUnauthorized /\
   limiter (GetMailHandler titleUnicode jsonDecode SendMail rl now r) = rl /\
   relayed (GetMailHandler titleUnicode jsonDecode SendMail rl now r) = []).
Proof.
  split.
  - intros Hm. by rewrite handle_not_post.
  - intros Hm Hc. by apply handle_unauthorized.
Qed.

Lemma handler_order_witness :
  StatusCode
    (response (GetMailHandler Doubles.titleAsIs (Doubles.decodeAs Doubles.hello) Doubles.relayAccepts
                 (NewRateLimiter 10) 0
                 (mkRequest "GET" Doubles.aliceAuth "{}")))
  = 405 /\
  StatusCode
    (response (GetMailHandler Doubles.titleAsIs (Doubles.decodeAs Doubles.hello) Doubles.relayAccepts
                 (NewRateLimiter 10) 0
                 (mkRequest "POST" "Bearer YWxpY2VAZXhhbXBsZS5jb206cHc=" "{}")))
  = 401.
Proof.
  split.
  - apply (handler_order Doubles.titleAsIs (Doubles.decodeAs Doubles.hello) Doubles.relayAccepts
             (NewRateLimiter 10) 0 (mkRequest "GET" Doubles.aliceAuth "{}")).
    discriminate.
  - apply (handler_order Doubles.titleAsIs (Doubles.decodeAs Doubles.hello) Doubles.relayAccepts
             (NewRateLimiter 10) 0
             (mkRequest "POST" "Bearer YWxpY2VAZXhhbXBsZS5jb206cHc=" "{}")).
    + reflexivity.
    + reflexivity.
Defined.

(** C6. For a request that passes every check, the message handed to the
    relay is the header block, every header line ended by a line feed,
    then a blank line, then the content as it came; when [<p>hi</p>]
    occurs in the content the header lines are From, To, Subject,
    MIME-Version: 1.0 and Content-Type: text/html, and when the content is
    [hi] they are From, To, Subject and Content-Type: text/plain. *)
Theorem message_content_type (titleUnicode : string -> string)
        (jsonDecode : string -> option EmailRequest)
        (SendMail : SendMailCall -> option string)
        (rl : RateLimiter) (now : Time) (r : Request)
        (u p : string) (e : EmailRequest) :
  Method r = MethodPost ->
  basicCredentials (Authorization r) = Some (u, p) ->
  (Allow now u rl).1 = true ->
  jsonDecode (Body r) = Some e ->
  missingFields e = false ->
  exists call,
    relayed (GetMailHandler titleUnicode jsonDecode SendMail rl now r) = [call] /\
    (occursIn "<p>hi</p>" (Content e) ->
     smtpMsg call
     = mimeMessage ["From: " +:+ displayTitle titleUnicode u e;
                    "To: " +:+ Join (To e) ", ";
                    "Subject: " +:+ Subject e;
                    "MIME-Version: 1.0";
                    "Content-Type: text/html; charset=UTF-8"]
                   (Content e)) /\
    (Content e = "hi" ->
     smtpMsg call
     = mimeMessage ["From: " +:+ displayTitle titleUnicode u e;
                    "To: " +:+ Join (To e) ", ";
                    "Subject: " +:+ Subject e;
                    "Content-Type: text/plain; charset=UTF-8"]
                   "hi").
Proof.
  intros Hm Hc Ha Hj Hf.
  destruct (handle_relay titleUnicode jsonDecode SendMail rl now r u p e
              Hm Hc Ha Hj Hf) as [Hr _].
  exists (relayCall titleUnicode u p e). split; [exact Hr |].
  unfold relayCall; cbn [smtpMsg]. rewrite fromTitle_displayTitle. split.
  - intros (pre & post & Hpre).
    assert (Hh : Html.isHTML (Content e) = true).
    { rewrite Hpre.
      change ("<p>hi</p>" +:+ post) with ("<p>" +:+ ("hi</p>" +:+ post)).
      apply isHTML_paragraph. }
    rewrite Hh. apply buildMessage_html.
  - intros Hhi. rewrite Hhi at 1. rewrite isHTML_hi.
    rewrite buildMessage_plain. by rewrite Hhi.
Qed.

Lemma message_content_type_witness :
  smtpMsg <$>
    relayed (GetMailHandler Doubles.titleAsIs
               (Doubles.decodeAs
                  (mkEmailRequest ["bob@example.com"; "carol@example.com"] "Hi"
                                  "see <p>hi</p> below" ""))
               Doubles.relayAccepts (NewRateLimiter 10) 0 Doubles.alicePost)
  = ["From: " +:+ doubleQuote +:+ "Alice" +:+ doubleQuote
     +:+ " <alice@example.com>" +:+ lineFeed
     +:+ "To: bob@example.com, carol@example.com" +:+ lineFeed
     +:+ "Subject: Hi" +:+ lineFeed
     +:+ "MIME-Version: 1.0" +:+ lineFeed
     +:+ "Content-Type: text/html; charset=UTF-8" +:+ lineFeed
     +:+ lineFeed
     +:+ "see <p>hi</p> below"] /\
  smtpMsg <$>
    relayed (GetMailHandler Doubles.titleAsIs
               (Doubles.decodeAs
                  (mkEmailRequest ["bob@example.com"; "carol@example.com"] "Hi"
                                  "hi" ""))
               Doubles.relayAccepts (NewRateLimiter 10) 0 Doubles.alicePost)
  = ["From: " +:+ doubleQuote +:+ "Alice" +:+ doubleQuote
     +:+ " <alice@example.com>" +:+ lineFeed
     +:+ "To: bob@example.com, carol@example.com" +:+ lineFeed
     +:+ "Subject: Hi" +:+ lineFeed
     +:+ "Content-Type: text/plain; charset=UTF-8" +:+ lineFeed
     +:+ lineFeed
     +:+ "hi"].
Proof.
  split.
  - destruct (message_content_type Doubles.titleAsIs
                (Doubles.decodeAs
                   (mkEmailRequest ["bob@example.com"; "carol@example.com"] "Hi"
                                   "see <p>hi</p> below" ""))
                Doubles.relayAccepts (NewRateLimiter 10) 0 Doubles.alicePost
                "alice@example.com" "pw"
                (mkEmailRequest ["bob@example.com"; "carol@example.com"] "Hi"
                                "see <p>hi</p> below" "")
                eq_refl eq_refl eq_refl eq_refl eq_refl)
      as (call & Hr & Hhtml & _).
    rewrite Hr. cbn [fmap list_fmap]. rewrite Hhtml; [reflexivity |].
    exists "see ", " below". reflexivity.
  - destruct (message_content_type Doubles.titleAsIs
                (Doubles.decodeAs
                   (mkEmailRequest ["bob@example.com"; "carol@example.com"] "Hi"
                                   "hi" ""))
                Doubles.relayAccepts (NewRateLimiter 10) 0 Doubles.alicePost
                "alice@example.com" "pw"
                (mkEmailRequest ["bob@example.com"; "carol@example.com"] "Hi"
                                "hi" "")
                eq_refl eq_refl eq_refl eq_refl eq_refl)
      as (call & Hr & _ & Hplain).
    rewrite Hr. cbn [fmap list_fmap]. rewrite Hplain; reflexivity.
Defined.

(** C8, amended. For a request that passes every check the From line of
    the message carries the display title: the given title in double
    quotes before the user name in angle brackets; without a title, for a
    user name with an [@], the local part in double quotes before the user
    name in angle brackets, where the local part, when it is ASCII text,
    has the first letter of every run of letters, digits and underscores
    as a capital (john.doe gives John.Doe) and else is what [strings.Title]
    of the library makes of it; else the bare user name. *)
Theorem from_display_title (titleUnicode : string -> string)
        (jsonDecode : string -> option EmailRequest)
        (SendMail : SendMailCall -> option string)
        (rl : RateLimiter) (now : Time) (r : Request)
        (u p : string) (e : EmailRequest) :
  Method r = MethodPost ->
  basicCredentials (Authorization r) = Some (u, p) ->
  (Allow now u rl).1 = true ->
  jsonDecode (Body r) = Some e ->
  missingFields e = false ->
  fromTitle titleUnicode u e = displayTitle titleUnicode u e /\
  exists call rest,
    relayed (GetMailHandler titleUnicode jsonDecode SendMail rl now r) = [call] /\
    smtpMsg call
    = "From: " +:+ displayTitle titleUnicode u e +:+ lineFeed +:+ rest.
Proof.
  intros Hm Hc Ha Hj Hf.
  destruct (handle_relay titleUnicode jsonDecode SendMail rl now r u p e
              Hm Hc Ha Hj Hf) as [Hr _].
  pose proof (fromTitle_displayTitle titleUnicode u e) as Ht.
  split; [exact Ht |].
  exists (relayCall titleUnicode u p e).
  unfold relayCall at 2; cbn [smtpMsg]. rewrite Ht. unfold buildMessage.
  destruct (Html.isHTML (Content e)); eexists; (split; [exact Hr | reflexivity]).
Qed.

Lemma from_display_title_witness :
  (fromTitle Doubles.titleAsIs "john.doe@example.com" Doubles.hello
   = doubleQuote +:+ "John.Doe" +:+ doubleQuote +:+ " <john.doe@example.com>" /\
   exists call rest,
     relayed (GetMailHandler Doubles.titleAsIs (Doubles.decodeAs Doubles.hello)
                Doubles.relayAccepts (NewRateLimiter 10) 0
                (mkRequest "POST" "Basic am9obi5kb2VAZXhhbXBsZS5jb206cHc=" "{}"))
     = [call] /\
     smtpMsg call
     = "From: " +:+ doubleQuote +:+ "John.Doe" +:+ doubleQuote
       +:+ " <john.doe@example.com>" +:+ lineFeed +:+ rest) /\
  (fromTitle Doubles.titleAsIs "alice@example.com"
             (mkEmailRequest ["bob@example.com"] "Hi" "hello" "the ops-team")
   = doubleQuote +:+ "the ops-team" +:+ doubleQuote +:+ " <alice@example.com>" /\
   exists call rest,
     relayed (GetMailHandler Doubles.titleAsIs
                (Doubles.decodeAs
                   (mkEmailRequest ["bob@example.com"] "Hi" "hello" "the ops-team"))
                Doubles.relayAccepts (NewRateLimiter 10) 0 Doubles.alicePost)
     = [call] /\
     smtpMsg call
     = "From: " +:+ doubleQuote +:+ "the ops-team" +:+ doubleQuote
       +:+ " <alice@example.com>" +:+ lineFeed +:+ rest) /\
  (fromTitle Doubles.titleAsIs "bob" Doubles.hello = "bob" /\
   exists call rest,
     relayed (GetMailHandler Doubles.titleAsIs (Doubles.decodeAs Doubles.hello)
                Doubles.relayAccepts (NewRateLimiter 10) 0
                (mkRequest "POST" "Basic Ym9iOnB3" "{}"))
     = [call] /\
     smtpMsg call = "From: bob" +:+ lineFeed +:+ rest).
Proof.
  split; [| split].
  - exact (from_display_title Doubles.titleAsIs (Doubles.decodeAs Doubles.hello)
             Doubles.relayAccepts (NewRateLimiter 10) 0
             (mkRequest "POST" "Basic am9obi5kb2VAZXhhbXBsZS5jb206cHc=" "{}")
             "john.doe@example.com" "pw" Doubles.hello
             eq_refl eq_refl eq_refl eq_refl eq_refl).
  - exact (from_display_title Doubles.titleAsIs
             (Doubles.decodeAs
                (mkEmailRequest ["bob@example.com"] "Hi" "hello" "the ops-team"))
             Doubles.relayAccepts (NewRateLimiter 10) 0 Doubles.alicePost
             "alice@example.com" "pw"
             (mkEmailRequest ["bob@example.com"] "Hi" "hello" "the ops-team")
             eq_refl eq_refl eq_refl eq_refl eq_refl).
  - exact (from_display_title Doubles.titleAsIs (Doubles.decodeAs Doubles.hello)
             Doubles.relayAccepts (NewRateLimiter 10) 0
             (mkRequest "POST" "Basic Ym9iOnB3" "{}")
             "bob" "pw" Doubles.hello
             eq_refl eq_refl eq_refl eq_refl eq_refl).
Defined.

(** C8, as the specification reads, fails.  Its example has john.doe
    capitalized to John.doe, one word with one capital; the handler takes
    the full stop for the end of a word and hands the relay a message
    whose From line names John.Doe. *)
Lemma title_capital_after_dot :
  specTitle "john.doe@example.com" Doubles.hello
  = doubleQuote +:+ "John.doe" +:+ doubleQuote +:+ " <john.doe@example.com>" /\
  firstLine <$>
    (smtpMsg <$>
       relayed (GetMailHandler Doubles.titleAsIs (Doubles.decodeAs Doubles.hello)
                  Doubles.relayAccepts (NewRateLimiter 10) 0
                  (mkRequest "POST" "Basic am9obi5kb2VAZXhhbXBsZS5jb206cHc=" "{}")))
  = ["From: " +:+ doubleQuote +:+ "John.Doe" +:+ doubleQuote
     +:+ " <john.doe@example.com>"] /\
  fromTitle Doubles.titleAsIs "john.doe@example.com" Doubles.hello
  <> specTitle "john.doe@example.com" Doubles.hello.
Proof. vm_compute. repeat split. discriminate. Qed.

(** C9. Once [Allow] was called for a request, the limiter the handler
    leaves is the limiter [Allow] left, whatever the decoder and the relay
    answer afterwards: the token taken at admission stays taken. *)
Theorem limiter_frame (titleUnicode : string -> string)
        (jsonDecode : string -> option EmailRequest)
        (SendMail : SendMailCall -> option string)
        (rl : RateLimiter) (now : Time) (r : Request) (u p : string) :
  Method r = MethodPost ->
  basicCredentials (Authorization r) = Some (u, p) ->
  (Allow now u rl).1 = true ->
  limiter (GetMailHandler titleUnicode jsonDecode SendMail rl now r) = (Allow now u rl).2.
Proof. intros Hm Hc _. by eapply handle_limiter. Qed.

Lemma limiter_frame_witness :
  limiter (GetMailHandler Doubles.titleAsIs (Doubles.decodeAs Doubles.hello) Doubles.relayRefuses
             (NewRateLimiter 10) 0 Doubles.alicePost)
  = (Allow 0 "alice@example.com" (NewRateLimiter 10)).2.
Proof.
  apply (limiter_frame Doubles.titleAsIs (Doubles.decodeAs Doubles.hello) Doubles.relayRefuses
           (NewRateLimiter 10) 0 Doubles.alicePost "alice@example.com" "pw");
    reflexivity.
Defined.

Lemma missingFields_spec (e : EmailRequest) :
  missingFields e = true <-> To e = [] \/ Subject e = "" \/ Content e = "".
Proof.
  unfold missingFields. rewrite !orb_true_iff, !String.eqb_eq, Nat.eqb_eq.
  split.
  - intros [[Hl | Hs] | Hc]; auto. left. by destruct (To e).
  - intros [Hl | [Hs | Hc]]; auto. left. left. by rewrite Hl.
Qed.

(** C10. For a request whose body was decoded, the answer is 400 exactly
    when the [to] list is empty, the subject is empty or the content is
    empty; the recipients themselves are not looked at: a list of empty
    strings passes and the relay is called with it. *)
Theorem validation_400 (titleUnicode : string -> string)
        (jsonDecode : string -> option EmailRequest)
        (SendMail : SendMailCall -> option string)
        (rl : RateLimiter) (now : Time) (r : Request)
        (u p : string) (e : EmailRequest) :
  Method r = MethodPost ->
  basicCredentials (Authorization r) = Some (u, p) ->
  (Allow now u rl).1 = true ->
  jsonDecode (Body r) = Some e ->
  (StatusCode (response (GetMailHandler titleUnicode jsonDecode SendMail rl now r))
   = StatusBadRequest
   <-> To e = [] \/ Subject e = "" \/ Content e = "") /\
  (To e <> [] -> Forall (fun a => a = "") (To e) ->
   Subject e <> "" -> Content e <> "" ->
   exists call,
     relayed (GetMailHandler titleUnicode jsonDecode SendMail rl now r) = [call] /\
     smtpTo call = To e).
Proof.
  intros Hm Hc Ha Hj. rewrite <- missingFields_spec.
  destruct (missingFields e) eqn:Hf.
  - destruct (handle_missing titleUnicode jsonDecode SendMail rl now r u p e Hm Hc Ha Hj Hf)
      as [Hr _].
    split.
    + rewrite Hr. simpl. tauto.
    + intros Hto _ Hs Hct. exfalso.
      apply missingFields_spec in Hf. tauto.
  - destruct (handle_relay titleUnicode jsonDecode SendMail rl now r u p e Hm Hc Ha Hj Hf)
      as [Hr Hresp].
    split.
    + rewrite Hresp. destruct (SendMail _); simpl; split; discriminate.
    + intros _ _ _ _. exists (relayCall titleUnicode u p e). split; [exact Hr | reflexivity].
Qed.

Lemma validation_400_witness :
  (StatusCode
     (response (GetMailHandler
                  Doubles.titleAsIs (Doubles.decodeAs (mkEmailRequest [""; ""] "Hi" "hello" ""))
                  Doubles.relayAccepts (NewRateLimiter 10) 0 Doubles.alicePost))
   = StatusBadRequest
   <-> [""; ""] = @nil string \/ "Hi" = "" \/ "hello" = "") /\
  ([""; ""] <> @nil string -> Forall (fun a => a = "") [""; ""] ->
   "Hi" <> "" -> "hello" <> "" ->
   exists call,
     relayed (GetMailHandler
                Doubles.titleAsIs (Doubles.decodeAs (mkEmailRequest [""; ""] "Hi" "hello" ""))
                Doubles.relayAccepts (NewRateLimiter 10) 0 Doubles.alicePost)
     = [call] /\
     smtpTo call = [""; ""]).
Proof.
  apply (validation_400
           Doubles.titleAsIs (Doubles.decodeAs (mkEmailRequest [""; ""] "Hi" "hello" ""))
           Doubles.relayAccepts (NewRateLimiter 10) 0 Doubles.alicePost
           "alice@example.com" "pw" (mkEmailRequest [""; ""] "Hi" "hello" ""));
    reflexivity.
Defined.

(** ** Bursts *)

Lemma refilled_not_due (now : Time) (user : string) (rl : RateLimiter) (t0 : Time) :
  lastRefill rl !! user = Some t0 ->
  noRefillDue (maxPerSec rl) t0 now = true ->
  refilled now user rl = rl.
Proof.
  unfold noRefillDue, refilled. intros -> Hn. apply Z.leb_le in Hn.
  cbv zeta. destruct (0 <? _) eqn:Hp; [apply Z.ltb_lt in Hp; lia | done].
Qed.

Lemma Allow_not_due (mps : Z) (user : string) (t0 : Time) (k : Z)
      (rl : RateLimiter) (now : Time) :
  bucketAt mps user t0 k rl ->
  noRefillDue mps t0 now = true ->
  (Allow now user rl).1 = negb (k <=? 0) /\
  bucketAt mps user t0 (if k <=? 0 then k else k - 1) (Allow now user rl).2.
Proof.
  intros Hb Hn. pose proof Hb as (Hm & Hl & Ht & Hk). rewrite Allow_refilled.
  rewrite (refilled_not_due now user rl t0 Hl) by (by rewrite Hm).
  assert (Htk : tokensOf rl user = k) by (unfold tokensOf; by rewrite Ht).
  cbv zeta. rewrite !Htk.
  destruct (k <=? 0) eqn:Hz; simpl.
  - by split.
  - apply Z.leb_gt in Hz. split; [done |].
    unfold bucketAt; simpl. rewrite lookup_insert_eq.
    rewrite wrap_in_range
      by (unfold GoInt.in_range, GoInt.min_int, GoInt.max_int in *; lia).
    repeat split; try done; lia.
Qed.

Lemma postFrom_spec (user : string) (r : Request) :
  postFrom user r = true ->
  Method r = MethodPost /\ exists p, basicCredentials (Authorization r) = Some (user, p).
Proof.
  unfold postFrom. intros [Hm Hc]%andb_true_iff.
  apply String.eqb_eq in Hm. split; [done |].
  destruct (basicCredentials _) as [[u p] |]; [| discriminate].
  apply String.eqb_eq in Hc. subst. by exists p.
Qed.

(** Within 100 ms of the last refill no refill is due at 10 tokens a
    second. *)
Lemma within_no_refill (t0 now : Time) :
  within (100 * Millisecond) t0 now = true -> noRefillDue 10 t0 now = true.
Proof.
  unfold within, noRefillDue. intros [Hle Hlt]%andb_true_iff.
  apply Z.leb_le in Hle. apply Z.ltb_lt in Hlt.
  change (100 * Millisecond) with 100000000 in Hlt.
  apply Z.leb_le. rewrite Sub_exact
    by (change (2 ^ 63) with 9223372036854775808; lia).
  pose proof (tokensToAdd_le_floor (now - t0) 10
                ltac:(change (2 ^ 63) with 9223372036854775808; lia)
                ltac:(change (2 ^ 53) with 9007199254740992; lia)
                ltac:(change (10 ^ 15) with 1000000000000000; lia)) as Hf.
  assert ((now - t0) * 10 / 1000000000 = 0) by (apply Z.div_small; lia).
  lia.
Qed.

Lemma forallb_impl {A : Type} (P Q : A -> bool) (l : list A) :
  (forall x, P x = true -> Q x = true) -> forallb P l = true -> forallb Q l = true.
Proof.
  intros HPQ. induction l as [| x l IH]; simpl; [done |].
  intros [Hx Hl]%andb_true_iff. rewrite (HPQ x Hx). simpl. by apply IH.
Qed.

Section Burst.

Variable titleUnicode : string -> string.
Variable jsonDecode : string -> option EmailRequest.
Variable SendMail : SendMailCall -> option string.

Lemma admitted_not_429 (rl : RateLimiter) (now : Time) (r : Request)
      (u p : string) :
  Method r = MethodPost ->
  basicCredentials (Authorization r) = Some (u, p) ->
  (Allow now u rl).1 = true ->
  StatusCode (response (GetMailHandler titleUnicode jsonDecode SendMail rl now r))
  <> StatusTooManyRequests.
Proof.
  intros Hm Hc Ha.
  destruct (jsonDecode (Body r)) as [e |] eqn:Hj.
  - destruct (missingFields e) eqn:Hf.
    + destruct (handle_missing titleUnicode jsonDecode SendMail rl now r u p e Hm Hc Ha Hj Hf)
        as [-> _]. discriminate.
    + destruct (handle_relay titleUnicode jsonDecode SendMail rl now r u p e Hm Hc Ha Hj Hf)
        as [_ ->]. by destruct (SendMail _).
  - destruct (handle_bad_body titleUnicode jsonDecode SendMail rl now r u p Hm Hc Ha Hj)
      as [-> _]. discriminate.
Qed.

(** While no refill is due, a bucket of [k] tokens admits the next [k]
    requests of its user and the handler answers 429 to all the later
    ones, without a relay call. *)
Lemma serve_not_due (mps : Z) (user : string) (t0 : Time)
      (reqs : list (Time * Request)) :
  forall (k : Z) (rl : RateLimiter),
    bucketAt mps user t0 k rl ->
    forallb (fun tr => postFrom user tr.2 && noRefillDue mps t0 tr.1) reqs = true ->
    forall (i : nat) (o : Outcome),
      serve titleUnicode jsonDecode SendMail rl reqs !! i = Some o ->
      (Z.of_nat i < k -> StatusCode (response o) <> StatusTooManyRequests) /\
      (k <= Z.of_nat i ->
       response o = httpError "Rate limit exceeded" StatusTooManyRequests /\
       relayed o = []).
Proof.
  induction reqs as [| [now r] reqs IH]; intros k rl Hb Hall i o Hi;
    [destruct i; discriminate |].
  simpl in Hall. apply andb_true_iff in Hall. destruct Hall as [Hhd Hall].
  apply andb_true_iff in Hhd. destruct Hhd as [Hpost Hdue].
  destruct (postFrom_spec user r Hpost) as (Hm & p & Hc).
  destruct (Allow_not_due mps user t0 k rl now Hb Hdue) as [Ha Hb'].
  destruct i as [| i]; simpl in Hi.
  - inversion Hi; subst o; clear Hi. split.
    + intros Hlt. eapply admitted_not_429; eauto.
      rewrite Ha. destruct (k <=? 0) eqn:Hz; [apply Z.leb_le in Hz; lia | done].
    + intros Hle. eapply handle_denied; eauto.
      rewrite Ha. destruct (k <=? 0) eqn:Hz; [done | apply Z.leb_gt in Hz; lia].
  - rewrite (handle_limiter titleUnicode jsonDecode SendMail rl now r user p Hm Hc) in Hi.
    destruct (IH _ _ Hb' Hall i o Hi) as [Hlt Hge].
    destruct (k <=? 0) eqn:Hz; [apply Z.leb_le in Hz | apply Z.leb_gt in Hz];
      split; intros ?; first [apply Hlt | apply Hge]; lia.
Qed.

Lemma serve_length (rl : RateLimiter) (reqs : list (Time * Request)) :
  length (serve titleUnicode jsonDecode SendMail rl reqs) = length reqs.
Proof.
  revert rl. induction reqs as [| [now r] reqs IH]; intros rl; simpl; [done |].
  by rewrite IH.
Qed.

End Burst.

(** C7, amended. For an identity the limiter with [maxPerSec = 10] has not
    seen, and requests that all arrive within 100 ms of the first one, the
    first 20 are not answered 429, and the 21st and all later ones are
    answered 429 without a relay call. *)
Theorem burst_exhausts (titleUnicode : string -> string)
        (jsonDecode : string -> option EmailRequest)
        (SendMail : SendMailCall -> option string)
        (rl : RateLimiter) (user : string) (t0 : Time) (r0 : Request)
        (rest : list (Time * Request)) :
  maxPerSec rl = 10 ->
  bucketSize rl = 20 ->
  lastRefill rl !! user = None ->
  postFrom user r0 = true ->
  forallb (fun tr => postFrom user tr.2 && within (100 * Millisecond) t0 tr.1) rest
  = true ->
  forall (i : nat),
    (i <= length rest)%nat ->
    exists o,
      serve titleUnicode jsonDecode SendMail rl ((t0, r0) :: rest) !! i = Some o /\
      ((i < 20)%nat -> StatusCode (response o) <> StatusTooManyRequests) /\
      ((20 <= i)%nat ->
       response o = httpError "Rate limit exceeded" StatusTooManyRequests /\
       relayed o = []).
Proof.
  intros Hm Hb Hl Hpost Hwin i Hi.
  assert (Hall : forallb (fun tr => postFrom user tr.2 && noRefillDue 10 t0 tr.1) rest
                 = true).
  { revert Hwin. apply forallb_impl. intros [now r]; simpl.
    intros [Hp Hw]%andb_true_iff. rewrite Hp. simpl. by apply within_no_refill. }
  destruct (lookup_lt_is_Some_2 (serve titleUnicode jsonDecode SendMail rl ((t0, r0) :: rest)) i)
    as [o Ho]; [rewrite serve_length; simpl; lia |].
  exists o. split; [exact Ho |].
  destruct (postFrom_spec user r0 Hpost) as (Hmeth & p & Hc).
  assert (Hre : refilled t0 user rl = setBucket rl user 20 t0).
  { unfold refilled. by rewrite Hl, Hb. }
  assert (Ha : Allow t0 user rl = (true, setTokens (setBucket rl user 20 t0) user 19)).
  { rewrite Allow_refilled, Hre. cbv zeta.
    rewrite tokensOf_setBucket, decide_True by reflexivity. reflexivity. }
  destruct i as [| i]; simpl in Ho.
  - inversion Ho; subst o. split; [| lia].
    intros _. eapply admitted_not_429; eauto. by rewrite Ha.
  - rewrite (handle_limiter titleUnicode jsonDecode SendMail rl t0 r0 user p Hmeth Hc), Ha in Ho.
    simpl in Ho.
    assert (Hbk : bucketAt 10 user t0 19 (setTokens (setBucket rl user 20 t0) user 19)).
    { unfold bucketAt; simpl. rewrite !lookup_insert_eq.
      unfold GoInt.max_int. repeat split; try done; lia. }
    destruct (serve_not_due titleUnicode jsonDecode SendMail 10 user t0 rest 19 _ Hbk Hall i o Ho)
      as [Hlt Hge].
    split; intros ?; [apply Hlt | apply Hge]; lia.
Qed.

Lemma burst_exhausts_witness :
  exists o,
    serve Doubles.titleAsIs (Doubles.decodeAs Doubles.hello) Doubles.relayAccepts (NewRateLimiter 10)
          ((0, Doubles.alicePost) :: Doubles.aliceBurst 20 4000000 4000000) !! 20%nat
    = Some o /\
    ((20 < 20)%nat -> StatusCode (response o) <> StatusTooManyRequests) /\
    ((20 <= 20)%nat ->
     response o = httpError "Rate limit exceeded" StatusTooManyRequests /\
     relayed o = []).
Proof.
  apply (burst_exhausts Doubles.titleAsIs (Doubles.decodeAs Doubles.hello) Doubles.relayAccepts
           (NewRateLimiter 10) "alice@example.com" 0 Doubles.alicePost
           (Doubles.aliceBurst 20 4000000 4000000)).
  - reflexivity.
  - reflexivity.
  - reflexivity.
  - reflexivity.
  - vm_compute. reflexivity.
  - simpl. lia.
Defined.

(** C7, as stated, fails: 21 requests of a new identity, one every 45 ms,
    all arrive within one second, and refills in between let the 21st
    through: it is relayed and answered 200. *)
Lemma burst_spread_admitted :
  let reqs := Doubles.aliceBurst 21 0 45000000 in
  let outs := serve Doubles.titleAsIs (Doubles.decodeAs Doubles.hello) Doubles.relayAccepts
                    (NewRateLimiter 10) reqs in
  length reqs = 21%nat /\
  forallb (fun tr => (0 <=? tr.1) && (tr.1 <? Second)) reqs = true /\
  (fun o => StatusCode (response o)) <$> outs !! 20%nat = Some 200 /\
  (fun o => length (relayed o)) <$> outs !! 20%nat = Some 1%nat.
Proof. vm_compute. auto. Qed.
(** * Further properties of the limiter and the handler *)

Import Sweep Traffic Service Callers Text Client Reader.

(** ** The sweep, bucket by bucket *)

(** [Time] is [Z]: statements mention the maps at either name.  The cases
    of a lookup, at whichever name the goal has it. *)
Ltac case_lookup m k t E :=
  unfold Time in *;
  match goal with
  | |- context [@lookup ?K ?A ?M ?I k m] =>
      destruct (@lookup K A M I k m) as [t |] eqn:E
  end.

Lemma RateLimiter_eq (rl rl' : RateLimiter) :
  tokens rl = tokens rl' -> lastRefill rl = lastRefill rl' ->
  maxPerSec rl = maxPerSec rl' -> bucketSize rl = bucketSize rl' ->
  cleanupInterval rl = cleanupInterval rl' -> rl = rl'.
Proof. destruct rl, rl'; simpl; intros; by subst. Qed.

Lemma foldl_deleteUser_interval (users : list string) (rl : RateLimiter) :
  cleanupInterval (foldl deleteUser rl users) = cleanupInterval rl.
Proof.
  revert rl. induction users as [| u users IH]; intros rl; simpl; [done |].
  by rewrite IH.
Qed.

(** The limiter without the identities of [users], in whatever order they
    are deleted. *)
Lemma foldl_deleteUser_lookup (users : list string) (rl : RateLimiter)
      (user : string) :
  tokens (foldl deleteUser rl users) !! user
  = (if decide (user ∈ users) then None else tokens rl !! user) /\
  lastRefill (foldl deleteUser rl users) !! user
  = (if decide (user ∈ users) then None else lastRefill rl !! user).
Proof.
  by rewrite foldl_deleteUser_tokens, foldl_deleteUser_lastRefill,
    !lookup_foldl_delete.
Qed.

Lemma foldl_deleteUser_same (users users' : list string) (rl : RateLimiter) :
  (forall u, u ∈ users <-> u ∈ users') ->
  foldl deleteUser rl users = foldl deleteUser rl users'.
Proof.
  intros Hsame. apply RateLimiter_eq.
  - apply map_eq. intros u.
    rewrite (proj1 (foldl_deleteUser_lookup users rl u)),
      (proj1 (foldl_deleteUser_lookup users' rl u)).
    destruct (decide (u ∈ users)) as [Hin | Hnin];
      destruct (decide (u ∈ users')) as [Hin' | Hnin']; try done.
    + exfalso. by apply Hnin', Hsame.
    + exfalso. by apply Hnin, Hsame.
  - apply map_eq. intros u.
    rewrite (proj2 (foldl_deleteUser_lookup users rl u)),
      (proj2 (foldl_deleteUser_lookup users' rl u)).
    destruct (decide (u ∈ users)) as [Hin | Hnin];
      destruct (decide (u ∈ users')) as [Hin' | Hnin']; try done.
    + exfalso. by apply Hnin', Hsame.
    + exfalso. by apply Hnin, Hsame.
  - destruct (foldl_deleteUser_config users rl) as [-> _].
    by destruct (foldl_deleteUser_config users' rl) as [-> _].
  - destruct (foldl_deleteUser_config users rl) as [_ ->].
    by destruct (foldl_deleteUser_config users' rl) as [_ ->].
  - by rewrite !foldl_deleteUser_interval.
Qed.

Lemma cleanup_lookup (now : Time) (rl : RateLimiter) (user : string) :
  lastRefill (cleanupInactiveBuckets now rl) !! user
  = match lastRefill rl !! user with
    | Some t => if Before t (Add now (-1 * Hour)) then None else Some t
    | None => None
    end /\
  tokens (cleanupInactiveBuckets now rl) !! user
  = match lastRefill rl !! user with
    | Some t => if Before t (Add now (-1 * Hour)) then None else tokens rl !! user
    | None => tokens rl !! user
    end.
Proof.
  unfold cleanupInactiveBuckets.
  destruct (foldl_deleteUser_lookup (inactiveUsers now rl) rl user) as [Ha Hb].
  rewrite Ha, Hb. clear Ha Hb.
  pose proof (elem_of_inactiveUsers now rl user) as Hin.
  unfold Before, Add.
  destruct (decide (user ∈ inactiveUsers now rl)) as [Hi | Hi].
  - apply Hin in Hi as (t & Hl & Hlt). unfold Time in *. rewrite Hl.
    assert (Hb : (t <? now + -1 * Hour) = true) by (apply Z.ltb_lt; lia).
    by rewrite Hb.
  - case_lookup (lastRefill rl) user t Hl; [| done].
    destruct (t <? now + -1 * Hour) eqn:Hlt; [| done].
    apply Z.ltb_lt in Hlt. exfalso. apply Hi, Hin.
    exists t. split; [done | lia].
Qed.

Lemma cleanup_config (now : Time) (rl : RateLimiter) :
  maxPerSec (cleanupInactiveBuckets now rl) = maxPerSec rl /\
  bucketSize (cleanupInactiveBuckets now rl) = bucketSize rl /\
  cleanupInterval (cleanupInactiveBuckets now rl) = cleanupInterval rl.
Proof.
  unfold cleanupInactiveBuckets.
  destruct (foldl_deleteUser_config (inactiveUsers now rl) rl) as [Hm Hb].
  split; [exact Hm |]. split; [exact Hb |].
  apply foldl_deleteUser_interval.
Qed.

(** X1. A sweep removes an identity from both maps exactly when its
    [lastRefill] lies more than one hour before the sweep; a bucket refilled
    exactly one hour before is kept.  Every other identity keeps its
    tokens and its [lastRefill], and the configuration is not touched. *)
Theorem sweep_keeps_recent (now : Time) (rl : RateLimiter) (user : string) :
  let swept := cleanupInactiveBuckets now rl in
  lastRefill swept !! user
  = match lastRefill rl !! user with
    | Some t => if Before t (Add now (-1 * Hour)) then None else Some t
    | None => None
    end /\
  tokens swept !! user
  = match lastRefill rl !! user with
    | Some t => if Before t (Add now (-1 * Hour)) then None else tokens rl !! user
    | None => tokens rl !! user
    end /\
  maxPerSec swept = maxPerSec rl /\ bucketSize swept = bucketSize rl /\
  cleanupInterval swept = cleanupInterval rl.
Proof.
  intros swept. destruct (cleanup_lookup now rl user) as [Hl Ht].
  split; [exact Hl |]. split; [exact Ht |]. apply cleanup_config.
Qed.

(** X2. Go ranges over a map in an order of its own choosing: whatever order
    the sweep meets the inactive users in, it leaves the same limiter. *)
Theorem sweep_order_irrelevant (now : Time) (rl : RateLimiter)
        (users : list string) :
  users ≡ₚ inactiveUsers now rl ->
  foldl deleteUser rl users = cleanupInactiveBuckets now rl.
Proof.
  intros Hperm. unfold cleanupInactiveBuckets.
  apply foldl_deleteUser_same. intros u. by rewrite Hperm.
Qed.

Lemma sweep_order_irrelevant_witness :
  let rl := run (NewRateLimiter 10)
                [EvAllow 0 "a"; EvAllow 1 "b"; EvAllow 3999999999999 "c"] in
  foldl deleteUser rl ["b"; "a"]
  = cleanupInactiveBuckets 4000000000000 rl.
Proof.
  apply (sweep_order_irrelevant 4000000000000
           (run (NewRateLimiter 10)
                [EvAllow 0 "a"; EvAllow 1 "b"; EvAllow 3999999999999 "c"])
           ["b"; "a"]).
  vm_compute. apply perm_swap.
Defined.

Lemma cleanup_eq (now : Time) (rl rl' : RateLimiter) :
  (forall u, lastRefill rl' !! u
             = match lastRefill rl !! u with
               | Some t => if Before t (Add now (-1 * Hour)) then None else Some t
               | None => None
               end) ->
  (forall u, tokens rl' !! u
             = match lastRefill rl !! u with
               | Some t => if Before t (Add now (-1 * Hour)) then None else tokens rl !! u
               | None => tokens rl !! u
               end) ->
  maxPerSec rl' = maxPerSec rl -> bucketSize rl' = bucketSize rl ->
  cleanupInterval rl' = cleanupInterval rl ->
  rl' = cleanupInactiveBuckets now rl.
Proof.
  intros Hl Ht Hm Hb Hc. apply RateLimiter_eq.
  - apply map_eq. intros u.
    etrans; [apply Ht |]. symmetry. apply cleanup_lookup.
  - apply map_eq. intros u.
    etrans; [apply Hl |]. symmetry. apply cleanup_lookup.
  - by destruct (cleanup_config now rl) as (-> & _ & _).
  - by destruct (cleanup_config now rl) as (_ & -> & _).
  - by destruct (cleanup_config now rl) as (_ & _ & ->).
Qed.

Lemma cleanup_twice (now1 now2 : Time) (rl : RateLimiter) :
  now1 <= now2 ->
  cleanupInactiveBuckets now2 (cleanupInactiveBuckets now1 rl)
  = cleanupInactiveBuckets now2 rl.
Proof.
  intros Hle. symmetry. apply cleanup_eq.
  - intros u. destruct (cleanup_lookup now2 rl u) as [H2l H2t].
    destruct (cleanup_lookup now1 rl u) as [H1l H1t].
    rewrite H2l, H1l. unfold Before, Add.
    case_lookup (lastRefill rl) u t Hl; [| done].
    destruct (t <? now1 + -1 * Hour) eqn:H1;
      destruct (t <? now2 + -1 * Hour) eqn:H2; try done.
    apply Z.ltb_lt in H1. apply Z.ltb_ge in H2. lia.
  - intros u. destruct (cleanup_lookup now2 rl u) as [H2l H2t].
    destruct (cleanup_lookup now1 rl u) as [H1l H1t].
    rewrite H2t, H1l, H1t. unfold Before, Add.
    case_lookup (lastRefill rl) u t Hl; [| done].
    destruct (t <? now1 + -1 * Hour) eqn:H1;
      destruct (t <? now2 + -1 * Hour) eqn:H2; try done.
    apply Z.ltb_lt in H1. apply Z.ltb_ge in H2. lia.
  - destruct (cleanup_config now2 rl) as (-> & _ & _).
    by destruct (cleanup_config now1 rl) as (-> & _ & _).
  - destruct (cleanup_config now2 rl) as (_ & -> & _).
    by destruct (cleanup_config now1 rl) as (_ & -> & _).
  - destruct (cleanup_config now2 rl) as (_ & _ & ->).
    by destruct (cleanup_config now1 rl) as (_ & _ & ->).
Qed.

Lemma periodicCleanup_app (ticks ticks' : list Time) (rl : RateLimiter) :
  periodicCleanup (ticks ++ ticks') rl
  = periodicCleanup ticks' (periodicCleanup ticks rl).
Proof. unfold periodicCleanup. apply foldl_app. Qed.

Lemma periodicCleanup_last (ticks : list Time) (now : Time) (rl : RateLimiter) :
  Forall (fun t => t <= now) ticks ->
  cleanupInactiveBuckets now (periodicCleanup ticks rl)
  = cleanupInactiveBuckets now rl.
Proof.
  revert rl. induction ticks as [| t ticks IH]; intros rl Hall; [done |].
  apply Forall_cons in Hall as [Ht Hall]. simpl.
  change (foldl _ (cleanupInactiveBuckets t rl) ticks)
    with (periodicCleanup ticks (cleanupInactiveBuckets t rl)).
  rewrite IH by done. by apply cleanup_twice.
Qed.

(** X3. Sweeps with nothing in between add up to the last one: when the
    ticker loop has run a sweep at each of [ticks] and then one at [now],
    no tick being later than [now], the limiter is as a single sweep at
    [now] leaves it.  In particular a sweep repeated at the same time
    changes nothing. *)
Theorem sweeps_compose (ticks : list Time) (now : Time) (rl : RateLimiter) :
  Forall (fun t => t <= now) ticks ->
  periodicCleanup (ticks ++ [now]) rl = cleanupInactiveBuckets now rl.
Proof.
  intros Hall. rewrite periodicCleanup_app. simpl.
  by apply periodicCleanup_last.
Qed.

Lemma sweeps_compose_witness :
  let rl := run (NewRateLimiter 10)
                [EvAllow 0 "a"; EvAllow 1800000000000 "b"] in
  periodicCleanup ([1800000000000; 3600000000000] ++ [5400000000000]) rl
  = cleanupInactiveBuckets 5400000000000 rl.
Proof.
  apply (sweeps_compose [1800000000000; 3600000000000] 5400000000000
           (run (NewRateLimiter 10)
                [EvAllow 0 "a"; EvAllow 1800000000000 "b"])).
  repeat constructor; lia.
Defined.

(** ** The two maps hold the same identities *)

Lemma refilled_dom (now : Time) (user : string) (rl : RateLimiter) :
  dom (tokens rl) = dom (lastRefill rl) ->
  dom (tokens (refilled now user rl)) = dom (lastRefill (refilled now user rl)) /\
  user ∈ dom (tokens (refilled now user rl)).
Proof.
  intros Hdom. unfold refilled.
  destruct (lastRefill rl !! user) as [lastTime |] eqn:Hl.
  - assert (Hin : user ∈ dom (tokens rl))
      by (rewrite Hdom; apply elem_of_dom; eauto).
    destruct (0 <? _); simpl; [| done].
    rewrite !dom_insert_L, Hdom.
    split; [done | by apply elem_of_union_l, elem_of_singleton].
  - simpl. rewrite !dom_insert_L, Hdom.
    split; [done | by apply elem_of_union_l, elem_of_singleton].
Qed.

Lemma Allow_dom (now : Time) (user : string) (rl : RateLimiter) :
  dom (tokens rl) = dom (lastRefill rl) ->
  dom (tokens (Allow now user rl).2) = dom (lastRefill (Allow now user rl).2).
Proof.
  intros Hdom. rewrite Allow_refilled. cbv zeta.
  destruct (refilled_dom now user rl Hdom) as [Hd Hin].
  destruct (tokensOf _ user <=? 0); simpl; [done |].
  rewrite dom_insert_L, <- Hd. apply subseteq_union_1_L.
  by apply singleton_subseteq_l.
Qed.

Lemma foldl_deleteUser_dom (users : list string) (rl : RateLimiter) :
  dom (tokens rl) = dom (lastRefill rl) ->
  dom (tokens (foldl deleteUser rl users))
  = dom (lastRefill (foldl deleteUser rl users)).
Proof.
  revert rl. induction users as [| u users IH]; intros rl Hdom; simpl; [done |].
  apply IH. simpl. by rewrite !dom_delete_L, Hdom.
Qed.

Lemma run_dom (evs : list event) (rl : RateLimiter) :
  dom (tokens rl) = dom (lastRefill rl) ->
  dom (tokens (run rl evs)) = dom (lastRefill (run rl evs)).
Proof.
  unfold run. revert rl.
  induction evs as [| ev evs IH]; intros rl Hdom; simpl; [done |].
  apply IH. destruct ev as [now user | now]; simpl.
  - by apply Allow_dom.
  - by apply foldl_deleteUser_dom.
Qed.

(** X4. An identity has a token count exactly when it has a [lastRefill]:
    whatever calls and sweeps a limiter built by [NewRateLimiter] goes
    through, its two maps hold the same identities. *)
Theorem maps_same_identities (m : Z) (evs : list event) (user : string) :
  let rl := run (NewRateLimiter m) evs in
  dom (tokens rl) = dom (lastRefill rl) /\
  (tokens rl !! user = None <-> lastRefill rl !! user = None).
Proof.
  intros rl.
  assert (Hdom : dom (tokens rl) = dom (lastRefill rl)) by by apply run_dom.
  split; [exact Hdom |].
  rewrite <- !not_elem_of_dom, Hdom. done.
Qed.

(** ** What the sweep logs *)

Lemma NoDup_inactiveUsers (now : Time) (rl : RateLimiter) :
  NoDup (inactiveUsers now rl).
Proof.
  unfold inactiveUsers.
  eapply sublist_NoDup; [apply (NoDup_fst_map_to_list (lastRefill rl)) |].
  apply fmap_sublist, sublist_filter.
Qed.

Lemma size_foldl_delete {V : Type} (users : list string) (m : gmap string V) :
  NoDup users -> (forall u, u ∈ users -> is_Some (m !! u)) ->
  (size (foldl (fun m u => delete u m) m users) + length users = size m)%nat.
Proof.
  revert m. induction users as [| u users IH]; intros m Hnd Hall; simpl.
  - lia.
  - apply NoDup_cons in Hnd as [Hnin Hnd].
    specialize (IH (delete u m) Hnd).
    rewrite map_size_delete_Some in IH by (apply Hall; by left).
    assert (Hpos : (0 < size m)%nat).
    { destruct (Hall u ltac:(by left)) as [v Hv].
      destruct (size m) eqn:Hs; [| lia].
      apply map_size_empty_iff in Hs. subst m. by rewrite lookup_empty in Hv. }
    enough ((size (foldl (fun m u => delete u m) (delete u m) users)
             + length users)%nat = Nat.pred (size m)) by lia.
    apply IH. intros u' Hin. rewrite lookup_delete_ne by (intros ->; done).
    apply Hall. by right.
Qed.

(** X5. The sweep logs exactly when it has removed a user, and the two
    counts of the line are right: the users removed and the user count left
    add up to the user count before the sweep, and the count left, which
    the code reads off [tokens], is also the number of [lastRefill] entries
    left.  When nothing is logged the limiter is unchanged. *)
Theorem sweep_log_counts (m : Z) (evs : list event) (now : Time) :
  let rl := run (NewRateLimiter m) evs in
  match cleanupLog now rl with
  | Some (removed, current) =>
      0 < removed /\
      removed + current = Z.of_nat (size (tokens rl)) /\
      current = Z.of_nat (size (lastRefill (cleanupInactiveBuckets now rl)))
  | None => cleanupInactiveBuckets now rl = rl
  end.
Proof.
  intros rl. unfold cleanupLog.
  assert (Hdom : dom (tokens rl) = dom (lastRefill rl)) by by apply run_dom.
  destruct (0 <? Z.of_nat (length (inactiveUsers now rl))) eqn:Hpos.
  - apply Z.ltb_lt in Hpos. split; [exact Hpos |].
    pose proof (NoDup_inactiveUsers now rl) as Hnd.
    assert (Hin : forall u, u ∈ inactiveUsers now rl ->
                            is_Some (lastRefill rl !! u)).
    { intros u (t & Ht & _)%elem_of_inactiveUsers. eauto. }
    assert (Hin' : forall u, u ∈ inactiveUsers now rl ->
                             is_Some (tokens rl !! u)).
    { intros u Hu. apply elem_of_dom. rewrite Hdom. apply elem_of_dom. auto. }
    unfold cleanupInactiveBuckets.
    rewrite foldl_deleteUser_tokens, foldl_deleteUser_lastRefill.
    pose proof (size_foldl_delete _ _ Hnd Hin') as Ht.
    pose proof (size_foldl_delete _ _ Hnd Hin) as Hl.
    assert (Hs : size (tokens rl) = size (lastRefill rl)).
    { rewrite <- (size_dom (D := gset string) (tokens rl)).
      rewrite <- (size_dom (D := gset string) (lastRefill rl)).
      by rewrite Hdom. }
    lia.
  - apply Z.ltb_ge in Hpos. unfold cleanupInactiveBuckets.
    destruct (inactiveUsers now rl); [done | simpl in Hpos; lia].
Qed.

(** ** One identity's bucket is its own *)

(** Two limiters of the same configuration that hold the same bucket for
    [user]. *)
Lemma Allow_agree (now : Time) (user : string) (rl rl' : RateLimiter) :
  bucketOf user rl = bucketOf user rl' ->
  maxPerSec rl = maxPerSec rl' -> bucketSize rl = bucketSize rl' ->
  (Allow now user rl).1 = (Allow now user rl').1 /\
  bucketOf user (Allow now user rl).2 = bucketOf user (Allow now user rl').2.
Proof.
  unfold bucketOf. intros [= Ht Hl] Hm Hb.
  assert (Htok : tokensOf rl user = tokensOf rl' user)
    by (unfold tokensOf; by rewrite Ht).
  unfold Allow. rewrite <- Hl, <- Hm, <- Hb, <- Htok.
  destruct (lastRefill rl !! user) as [lastTime |] eqn:Hl'.
  - destruct (0 <? _).
    + rewrite !tokensOf_setBucket, !decide_True by reflexivity.
      destruct (_ <=? 0); simpl; by rewrite !lookup_insert_eq.
    + rewrite <- Htok. destruct (_ <=? 0); simpl.
      * by rewrite Ht, <- Hl, Hl'.
      * by rewrite !lookup_insert_eq, <- Hl, Hl'.
  - rewrite !tokensOf_setBucket, !decide_True by reflexivity.
    destruct (_ <=? 0); simpl; by rewrite !lookup_insert_eq.
Qed.

Lemma cleanup_agree (now : Time) (user : string) (rl rl' : RateLimiter) :
  bucketOf user rl = bucketOf user rl' ->
  bucketOf user (cleanupInactiveBuckets now rl)
  = bucketOf user (cleanupInactiveBuckets now rl').
Proof.
  unfold bucketOf. intros [= Ht Hl].
  destruct (cleanup_lookup now rl user) as [-> ->].
  destruct (cleanup_lookup now rl' user) as [-> ->].
  by rewrite Ht, Hl.
Qed.

Lemma run_agree (user : string) (evs : list event) (rl rl' : RateLimiter) :
  bucketOf user rl = bucketOf user rl' ->
  maxPerSec rl = maxPerSec rl' -> bucketSize rl = bucketSize rl' ->
  bucketOf user (run rl evs)
  = bucketOf user (run rl' (List.filter (touches user) evs)) /\
  List.filter (fun a => String.eqb a.1 user) (answers rl evs)
  = answers rl' (List.filter (touches user) evs).
Proof.
  unfold run. revert rl rl'.
  induction evs as [| ev evs IH]; intros rl rl' Hbk Hm Hb; [done |].
  destruct ev as [now u | now]; simpl.
  - destruct (String.eqb u user) eqn:Hu; simpl.
    + apply String.eqb_eq in Hu. subst u.
      destruct (Allow_agree now user rl rl' Hbk Hm Hb) as [Hans Hbk'].
      destruct (Allow_config now user rl) as [Hm1 Hb1].
      destruct (Allow_config now user rl') as [Hm2 Hb2].
      destruct (IH (Allow now user rl).2 (Allow now user rl').2 Hbk')
        as [IH1 IH2]; [congruence.. |].
      rewrite Hans, IH2. done.
    + apply String.eqb_neq in Hu.
      destruct (Allow_other now u user rl Hu) as [Ht Hl].
      destruct (Allow_config now u rl) as [Hm1 Hb1].
      apply IH; [| congruence..].
      rewrite <- Hbk. unfold bucketOf. by rewrite Ht, Hl.
  - destruct (cleanup_config now rl) as (Hm1 & Hb1 & _).
    destruct (cleanup_config now rl') as (Hm2 & Hb2 & _).
    apply IH; [by apply cleanup_agree | congruence..].
Qed.

Lemma admitted_of_own (user : string) (l : list (string * bool)) :
  List.filter (fun a => String.eqb a.1 user && a.2) l
  = List.filter (fun a => String.eqb a.1 user && a.2)
                (List.filter (fun a => String.eqb a.1 user) l).
Proof.
  induction l as [| [u b] l IHl]; [done |].
  cbn [List.filter fst snd].
  destruct (String.eqb u user) eqn:Hu; destruct b;
    cbn [List.filter fst snd andb]; rewrite ?Hu; cbn [andb];
    congruence.
Qed.

(** X6. The bucket of an identity is its own: calls of [Allow] for other
    identities, however many and whenever they come, change neither its
    tokens, nor its [lastRefill], nor any answer it gets.  What it sees of
    a run is what it would see of the run without the calls of the
    others. *)
Theorem identities_isolated (user : string) (evs : list event) (rl : RateLimiter) :
  let own := List.filter (touches user) evs in
  bucketOf user (run rl evs) = bucketOf user (run rl own) /\
  List.filter (fun a => String.eqb a.1 user) (answers rl evs) = answers rl own /\
  admitted user rl evs = admitted user rl own.
Proof.
  intros own. subst own.
  destruct (run_agree user evs rl rl) as [Hbk Hans]; [done.. |].
  split; [exact Hbk |]. split; [exact Hans |].
  unfold admitted. rewrite <- Hans. f_equal. f_equal.
  apply admitted_of_own.
Qed.

(** ** One call of [Allow], in integers *)

(** The refill step on a bucket that holds the invariant. *)
Lemma refilled_cases (m : Z) (now : Time) (user : string) (rl : RateLimiter) :
  0 <= m < 1000000000 -> bucketInv m rl ->
  let rl1 := refilled now user rl in
  match lastRefill rl !! user with
  | None =>
      tokensOf rl1 user = 2 * m /\ lastRefill rl1 !! user = Some now
  | Some lastTime =>
      let n := tokensToAdd (Sub now lastTime) m in
      if 0 <? n
      then tokensOf rl1 user = Z.min (tokensOf rl user + n) (2 * m) /\
           lastRefill rl1 !! user = Some now
      else rl1 = rl
  end.
Proof.
  intros Hm Hinv rl1.
  pose proof (tokensOf_inv m rl user ltac:(lia) Hinv) as Htok.
  destruct Hinv as (Hmax & Hb & Ht).
  unfold rl1, refilled.
  destruct (lastRefill rl !! user) as [lastTime |] eqn:Hl.
  - rewrite Hmax. cbv zeta.
    pose proof (tokensToAdd_no_overflow (Sub now lastTime) m
                  (Sub_range now lastTime) Hm) as Hr.
    destruct (0 <? _) eqn:Hp; [| done]. apply Z.ltb_lt in Hp.
    rewrite tokensOf_setBucket, decide_True by reflexivity.
    rewrite min_cases, wrap_in_range, Hb; [split; [done | apply lookup_insert_eq] |].
    unfold GoInt.in_range, GoInt.min_int, GoInt.max_int in *. lia.
  - rewrite tokensOf_setBucket, decide_True by reflexivity.
    split; [done | apply lookup_insert_eq].
Qed.

(** The admission step after it. *)
Lemma Allow_cases (m : Z) (now : Time) (user : string) (rl : RateLimiter) :
  0 <= m < 1000000000 -> bucketInv m rl ->
  let rl1 := refilled now user rl in
  let rl2 := (Allow now user rl).2 in
  lastRefill rl2 !! user = lastRefill rl1 !! user /\
  0 <= tokensOf rl1 user <= 2 * m /\
  if (Allow now user rl).1
  then 0 < tokensOf rl1 user /\ tokensOf rl2 user = tokensOf rl1 user - 1
  else tokensOf rl1 user = 0 /\ rl2 = rl1.
Proof.
  intros Hm Hinv rl1 rl2.
  pose proof (refilled_inv m now user rl Hm Hinv) as Hinv1. fold rl1 in Hinv1.
  pose proof (tokensOf_inv m rl1 user ltac:(lia) Hinv1) as Htok1.
  destruct Hinv1 as (_ & Hb1 & _). rewrite Hb1 in Htok1.
  unfold rl2. rewrite Allow_refilled. fold rl1. cbv zeta.
  destruct (tokensOf rl1 user <=? 0) eqn:Hz; simpl.
  - apply Z.leb_le in Hz. repeat split; try done; lia.
  - apply Z.leb_gt in Hz. repeat split; try done; try lia.
    rewrite tokensOf_setTokens, decide_True by reflexivity.
    apply wrap_in_range.
    unfold GoInt.in_range, GoInt.min_int, GoInt.max_int. lia.
Qed.

(** ** The rate the limiter holds a caller to *)

Lemma admitted_allow (user : string) (rl : RateLimiter) (now : Time)
      (u : string) (evs : list event) :
  admitted user rl (EvAllow now u :: evs)
  = (if String.eqb u user && (Allow now u rl).1 then 1 else 0)
    + admitted user (Allow now u rl).2 evs.
Proof.
  unfold admitted. cbn [answers List.filter fst snd].
  destruct (String.eqb u user && (Allow now u rl).1); cbn [length]; lia.
Qed.

Lemma admitted_cleanup (user : string) (rl : RateLimiter) (now : Time)
      (evs : list event) :
  admitted user rl (EvCleanup now :: evs)
  = admitted user (cleanupInactiveBuckets now rl) evs.
Proof. reflexivity. Qed.

(** What the rate bound rests on, for the identity [user] and a clock that
    has reached [t]: the calls admitted so far, [A], and the tokens in the
    bucket do not exceed the burst and what the time up to [lastRefill]
    has earned since [t0]; an identity without a bucket has been admitted
    no more often than the time since [t0] has earned. *)
Lemma earned_init (m A t0 t : Z) (user : string) (rl : RateLimiter) :
  0 <= m <= 500000 -> bucketInv m rl -> t0 <= t ->
  (forall lr : Time, lastRefill rl !! user = Some lr ->
     lr <= t /\
     A * Second + tokensOf rl user * Second <= 2 * m * Second + (lr - t0) * m) ->
  (lastRefill rl !! user = None -> A * Second <= (t - t0) * m) ->
  forall evs, clockOrdered t evs = true ->
  (A + admitted user rl evs) * Second
  <= 2 * m * Second + (endOf t evs - t0) * m.
Proof.
  intros Hm Hinv Ht0 Hsome Hnone evs. revert rl t A Hinv Ht0 Hsome Hnone.
  assert (Hm' : 0 <= m < 1000000000) by lia.
  induction evs as [| ev evs IH]; intros rl t A Hinv Ht0 Hsome Hnone Hord.
  - unfold admitted. simpl.
    pose proof (tokensOf_inv m rl user ltac:(lia) Hinv) as Htok.
    destruct (lastRefill rl !! user) as [lr |].
    + destruct (Hsome lr eq_refl) as [Hlr Hearn].
      change Second with 1000000000 in *.
      assert (0 <= (t - lr) * m) by nia. lia.
    + specialize (Hnone eq_refl). change Second with 1000000000 in *. lia.
  - simpl in Hord. apply andb_true_iff in Hord as [Hle Hord].
    apply Z.leb_le in Hle.
    destruct ev as [now u | now]; cbn [timeOf endOf] in *.
    + rewrite admitted_allow.
      pose proof (Allow_inv m now u rl Hm' Hinv) as Hinv2.
      destruct (String.eqb u user) eqn:Hu; cbn [andb].
      * apply String.eqb_eq in Hu. subst u.
        pose proof (refilled_cases m now user rl Hm' Hinv) as Hre.
        pose proof (Allow_cases m now user rl Hm' Hinv) as (Hl2 & Htok1 & Hans).
        cbv zeta in Hre.
        pose proof (tokensOf_inv m rl user ltac:(lia) Hinv) as Htok.
        destruct Hinv as (_ & Hb & _). rewrite Hb in Htok.
        (* the refilled bucket keeps the bound at [now] *)
        assert (Hearn1 :
          exists lr1 : Time,
            lastRefill (refilled now user rl) !! user = Some lr1 /\
            lr1 <= now /\
            A * Second + tokensOf (refilled now user rl) user * Second
            <= 2 * m * Second + (lr1 - t0) * m).
        { destruct (lastRefill rl !! user) as [lr |] eqn:Hl.
          - destruct (Hsome lr eq_refl) as [Hlr Hearn].
            pose proof (Sub_range now lr) as Hd.
            assert (Hsub : Sub now lr <= now - lr)
              by (unfold Sub, minDuration, maxDuration, GoInt.min_int,
                    GoInt.max_int; lia).
            destruct (0 <? tokensToAdd (Sub now lr) m) eqn:Hp.
            + apply Z.ltb_lt in Hp. destruct Hre as [Htk Hlr1].
              exists now. split; [exact Hlr1 |]. split; [lia |].
              rewrite Htk.
              assert (Hdpos : 0 < Sub now lr).
              { destruct (Z.lt_ge_cases 0 (Sub now lr)) as [? | Hneg]; [done |].
                pose proof (tokensToAdd_nonpos (Sub now lr) m ltac:(lia)
                              ltac:(change (2 ^ 53) with 9007199254740992; lia)).
                lia. }
              destruct (Z.lt_ge_cases (Sub now lr * m) (10 ^ 15)) as [Hsmall | Hbig].
              * pose proof (tokensToAdd_le_floor (Sub now lr) m ltac:(lia)
                              ltac:(change (2 ^ 53) with 9007199254740992; lia)
                              Hsmall) as Hfl.
                pose proof (Z.mul_div_le (Sub now lr * m) 1000000000 ltac:(lia)).
                change Second with 1000000000 in *. nia.
              * change (10 ^ 15) with 1000000000000000 in Hbig.
                assert (2 * Second <= Sub now lr)
                  by (change Second with 1000000000; nia).
                change Second with 1000000000 in *. nia.
            + rewrite Hre. exists lr. split; [exact Hl |]. split; [lia | exact Hearn].
          - specialize (Hnone eq_refl). destruct Hre as [Htk Hlr1]. exists now.
            split; [exact Hlr1 |]. split; [lia |]. rewrite Htk.
            change Second with 1000000000 in *. nia. }
        destruct Hearn1 as (lr1 & Hl1 & Hlr1 & Hearn1).
        rewrite Hl1 in Hl2.
        destruct (Allow now user rl).1.
        -- destruct Hans as [Hpos Htk2].
           replace (A + (1 + admitted user (Allow now user rl).2 evs))
             with ((A + 1) + admitted user (Allow now user rl).2 evs) by lia.
           apply IH; [exact Hinv2 | lia | | intros Hn; congruence | exact Hord].
           intros lr Hlr. assert (lr = lr1) by congruence. subst lr.
           split; [exact Hlr1 |]. rewrite Htk2. lia.
        -- destruct Hans as [Hz Heq2]. rewrite Z.add_0_l.
           apply IH; [exact Hinv2 | lia | | intros Hn; congruence | exact Hord].
           intros lr Hlr. assert (lr = lr1) by congruence. subst lr.
           rewrite Heq2. split; [exact Hlr1 | exact Hearn1].
      * rewrite Z.add_0_l. apply String.eqb_neq in Hu.
        destruct (Allow_other now u user rl Hu) as [Ht Hl].
        assert (Htk : tokensOf (Allow now u rl).2 user = tokensOf rl user)
          by (unfold tokensOf; by rewrite Ht).
        apply IH; [exact Hinv2 | lia | | | exact Hord].
        -- intros lr Hlr. rewrite Hl in Hlr.
           destruct (Hsome lr Hlr) as [? ?]. rewrite Htk. split; [lia | done].
        -- intros Hn. rewrite Hl in Hn. specialize (Hnone Hn). nia.
    + rewrite admitted_cleanup.
      pose proof (foldl_deleteUser_inv m (inactiveUsers now rl) rl Hinv) as Hinv2.
      pose proof (tokensOf_inv m rl user ltac:(lia) Hinv) as Htok.
      destruct (cleanup_lookup now rl user) as [Hl Htk].
      unfold Before, Add in Hl, Htk.
      apply IH; [exact Hinv2 | lia | | | exact Hord].
      -- intros lr' Hlr'. fold (cleanupInactiveBuckets now rl) in *.
         rewrite Hl in Hlr'. unfold tokensOf. rewrite Htk.
         destruct (lastRefill rl !! user) as [lr |] eqn:Hlr; [| done].
         destruct (lr <? now + -1 * Hour) eqn:Hstale; [done |].
         injection Hlr' as <-. destruct (Hsome lr eq_refl) as [? ?].
         split; [lia | done].
      -- intros Hn. fold (cleanupInactiveBuckets now rl) in *.
         rewrite Hl in Hn.
         destruct (lastRefill rl !! user) as [lr |] eqn:Hlr;
           [| specialize (Hnone eq_refl); nia].
         destruct (lr <? now + -1 * Hour) eqn:Hstale; [| done].
         apply Z.ltb_lt in Hstale. destruct (Hsome lr eq_refl) as [? Hearn].
         change Hour with 3600000000000 in *; change Second with 1000000000 in *.
         nia.
Qed.

(** From a limiter just built, at a time [t0]. *)
Lemma admitted_earned (m : Z) (user : string) (t0 : Time) (evs : list event) :
  0 <= m <= 500000 ->
  clockOrdered t0 evs = true ->
  admitted user (NewRateLimiter m) evs * Second
  <= 2 * m * Second + (endOf t0 evs - t0) * m.
Proof.
  intros Hm Hord.
  pose proof (earned_init m 0 t0 t0 user (NewRateLimiter m) Hm
                (NewRateLimiter_inv m ltac:(lia)) ltac:(lia)) as H.
  specialize (H ltac:(intros lr Hlr; exact (False_ind _ (lookup_empty_Some _ _ Hlr)))
                ltac:(intros _; lia) evs Hord).
  by rewrite Z.add_0_l in H.
Qed.

(** X7. The limiter holds every caller to its rate.  For a limiter built
    by [NewRateLimiter] with a rate of at most 500000 per second and a
    clock that does not run backwards, whatever calls (for whatever
    identities) and sweeps come between the times [t0] and the last event,
    the calls admitted for one identity number at most the burst
    [2 * maxPerSec] plus what the elapsed time earns at [maxPerSec] per
    second. *)
Theorem admitted_at_most (m : Z) (user : string) (t0 : Time) (evs : list event) :
  0 <= m <= 500000 ->
  clockOrdered t0 evs = true ->
  admitted user (NewRateLimiter m) evs
  <= 2 * m + ((endOf t0 evs - t0) * m) / Second.
Proof.
  intros Hm Hord. pose proof (admitted_earned m user t0 evs Hm Hord) as H.
  change Second with 1000000000 in *.
  assert (Hdiv : admitted user (NewRateLimiter m) evs - 2 * m
                 <= (endOf t0 evs - t0) * m / 1000000000)
    by (apply Z.div_le_lower_bound; lia).
  lia.
Qed.

Lemma admitted_at_most_witness :
  admitted "u" (NewRateLimiter 10)
           [EvAllow 0 "u"; EvAllow 5 "v"; EvCleanup 7; EvAllow 250000000 "u"]
  <= 2 * 10
     + ((endOf 0 [EvAllow 0 "u"; EvAllow 5 "v"; EvCleanup 7;
                  EvAllow 250000000 "u"] - 0) * 10) / Second.
Proof.
  apply (admitted_at_most 10 "u" 0
           [EvAllow 0 "u"; EvAllow 5 "v"; EvCleanup 7; EvAllow 250000000 "u"]).
  - lia.
  - reflexivity.
Defined.

(** ** Waiting *)

(** X8. No caller is shut out for good: with a positive rate, a call that
    comes when the time since the last refill of the bucket is worth two
    tokens or more (two tenths of a second at the default rate) is
    admitted, however empty the bucket was. *)
Theorem admitted_after_wait (m : Z) (now : Time) (user : string)
        (rl : RateLimiter) (lr : Time) :
  0 < m < 1000000000 ->
  bucketInv m rl ->
  lastRefill rl !! user = Some lr ->
  2 * Second <= Sub now lr * m ->
  (Allow now user rl).1 = true /\
  lastRefill (Allow now user rl).2 !! user = Some now.
Proof.
  intros Hm Hinv Hl Hwait.
  pose proof (refilled_cases m now user rl ltac:(lia) Hinv) as Hre.
  pose proof (Allow_cases m now user rl ltac:(lia) Hinv) as (Hl2 & _ & Hans).
  pose proof (tokensOf_inv m rl user ltac:(lia) Hinv) as Htok.
  cbv zeta in Hre. rewrite Hl in Hre.
  pose proof (Sub_range now lr) as Hd.
  assert (Hpos : 0 < Sub now lr) by (change Second with 1000000000 in Hwait; nia).
  pose proof (tokensToAdd_two (Sub now lr) m ltac:(lia) Hm Hwait) as Hn.
  destruct (0 <? tokensToAdd (Sub now lr) m) eqn:Hp;
    [| apply Z.ltb_ge in Hp; lia].
  destruct Hre as [Htk Hlr]. rewrite Hl2, Hlr. split; [| done].
  destruct (Allow now user rl).1; [done |].
  destruct Hans as [Hz _]. lia.
Qed.

Lemma admitted_after_wait_witness :
  (Allow 200000000 "u" (run (NewRateLimiter 10) (replicate 25 (EvAllow 0 "u")))).1
  = true /\
  lastRefill (Allow 200000000 "u"
                (run (NewRateLimiter 10) (replicate 25 (EvAllow 0 "u")))).2
    !! "u" = Some 200000000.
Proof.
  apply (admitted_after_wait 10 200000000 "u"
           (run (NewRateLimiter 10) (replicate 25 (EvAllow 0 "u"))) 0).
  - lia.
  - apply run_inv, NewRateLimiter_inv; lia.
  - reflexivity.
  - vm_compute. discriminate.
Defined.

(** X9. A bucket that has been left alone long enough is full again: with
    a positive rate, when the time since the last refill is worth the
    whole bucket and one token more (2.1 seconds at the default rate), the
    refill step of the next call brings the bucket to [bucketSize],
    whatever it held, and the call is admitted and leaves
    [bucketSize - 1]. *)
Theorem idle_refills_full (m : Z) (now : Time) (user : string)
        (rl : RateLimiter) (lr : Time) :
  0 < m < 1000000000 ->
  bucketInv m rl ->
  lastRefill rl !! user = Some lr ->
  (2 * m + 1) * Second <= Sub now lr * m ->
  tokensOf (refilled now user rl) user = bucketSize rl /\
  (Allow now user rl).1 = true /\
  tokensOf (Allow now user rl).2 user = bucketSize rl - 1.
Proof.
  intros Hm Hinv Hl Hwait.
  pose proof (refilled_cases m now user rl ltac:(lia) Hinv) as Hre.
  pose proof (Allow_cases m now user rl ltac:(lia) Hinv) as (_ & _ & Hans).
  pose proof (tokensOf_inv m rl user ltac:(lia) Hinv) as Htok.
  destruct Hinv as (_ & Hb & _). rewrite Hb in *.
  cbv zeta in Hre. rewrite Hl in Hre.
  pose proof (Sub_range now lr) as Hd.
  assert (Hpos : 0 < Sub now lr) by (change Second with 1000000000 in Hwait; nia).
  pose proof (tokensToAdd_full (Sub now lr) m ltac:(lia) Hm Hwait) as Hn.
  destruct (0 <? tokensToAdd (Sub now lr) m) eqn:Hp;
    [| apply Z.ltb_ge in Hp; lia].
  destruct Hre as [Htk _].
  assert (Hfull : tokensOf (refilled now user rl) user = 2 * m) by lia.
  split; [exact Hfull |].
  destruct (Allow now user rl).1.
  - destruct Hans as [_ ->]. split; [done | lia].
  - destruct Hans as [Hz _]. lia.
Qed.

Lemma idle_refills_full_witness :
  let rl := run (NewRateLimiter 10) (replicate 25 (EvAllow 0 "u")) in
  tokensOf (refilled 2100000000 "u" rl) "u" = bucketSize rl /\
  (Allow 2100000000 "u" rl).1 = true /\
  tokensOf (Allow 2100000000 "u" rl).2 "u" = bucketSize rl - 1.
Proof.
  apply (idle_refills_full 10 2100000000 "u"
           (run (NewRateLimiter 10) (replicate 25 (EvAllow 0 "u"))) 0).
  - lia.
  - apply run_inv, NewRateLimiter_inv; lia.
  - reflexivity.
  - vm_compute. discriminate.
Defined.

(** X10. A clock reading that is not later than the bucket's [lastRefill]
    earns nothing: the refill step leaves the limiter as it is, so the
    call is judged on the tokens the bucket holds and [lastRefill] does not
    move back. *)
Theorem no_refill_backwards (m : Z) (now : Time) (user : string)
        (rl : RateLimiter) (lr : Time) :
  0 <= m < 1000000000 ->
  maxPerSec rl = m ->
  lastRefill rl !! user = Some lr ->
  now <= lr ->
  refilled now user rl = rl /\
  (Allow now user rl).1 = negb (tokensOf rl user <=? 0) /\
  lastRefill (Allow now user rl).2 !! user = Some lr.
Proof.
  intros Hm Hmax Hl Hback.
  assert (Hre : refilled now user rl = rl).
  { unfold refilled. rewrite Hl, Hmax. cbv zeta.
    pose proof (Sub_range now lr) as Hd.
    assert (Hneg : Sub now lr <= 0)
      by (unfold Sub, minDuration, maxDuration, GoInt.min_int, GoInt.max_int; lia).
    pose proof (tokensToAdd_nonpos (Sub now lr) m ltac:(lia)
                  ltac:(change (2 ^ 53) with 9007199254740992; lia)) as Hn.
    destruct (0 <? _) eqn:Hp; [apply Z.ltb_lt in Hp; lia | done]. }
  split; [exact Hre |]. rewrite Allow_refilled, Hre. cbv zeta.
  destruct (tokensOf rl user <=? 0); simpl; done.
Qed.

Lemma no_refill_backwards_witness :
  let rl := (Allow 5000000000 "u" (NewRateLimiter 10)).2 in
  refilled 1000000000 "u" rl = rl /\
  (Allow 1000000000 "u" rl).1 = negb (tokensOf rl "u" <=? 0) /\
  lastRefill (Allow 1000000000 "u" rl).2 !! "u" = Some 5000000000.
Proof.
  apply (no_refill_backwards 10 1000000000 "u"
           (Allow 5000000000 "u" (NewRateLimiter 10)).2 5000000000).
  - lia.
  - reflexivity.
  - reflexivity.
  - lia.
Defined.

(** ** The sweep cannot be observed *)

Lemma tokens_of_tokensOf (rl : RateLimiter) (user : string) (k : Z) :
  tokensOf rl user = k -> k <> 0 -> tokens rl !! user = Some k.
Proof.
  unfold tokensOf. destruct (tokens rl !! user); simpl; congruence.
Qed.

(** A first call fills the bucket and takes a token. *)
Lemma Allow_first (m : Z) (now : Time) (user : string) (rl : RateLimiter) :
  0 < m < 1000000000 -> bucketInv m rl -> lastRefill rl !! user = None ->
  (Allow now user rl).1 = true /\
  bucketOf user (Allow now user rl).2 = (Some (2 * m - 1), Some now).
Proof.
  intros Hm Hinv Hl.
  pose proof (refilled_cases m now user rl ltac:(lia) Hinv) as Hre.
  pose proof (Allow_cases m now user rl ltac:(lia) Hinv) as (Hl2 & _ & Hans).
  cbv zeta in Hre. rewrite Hl in Hre. destruct Hre as [Htk Hlr].
  destruct (Allow now user rl).1.
  - destruct Hans as [_ Htk2]. split; [done |]. unfold bucketOf.
    rewrite Hl2, Hlr. f_equal. apply tokens_of_tokensOf; lia.
  - destruct Hans as [Hz _]. lia.
Qed.

(** So does a call that comes more than an hour after the last refill. *)
Lemma Allow_after_hour (m : Z) (now : Time) (user : string) (rl : RateLimiter)
      (lr : Time) :
  0 < m < 1000000000 -> bucketInv m rl ->
  lastRefill rl !! user = Some lr -> lr < now - Hour ->
  (Allow now user rl).1 = true /\
  bucketOf user (Allow now user rl).2 = (Some (2 * m - 1), Some now).
Proof.
  intros Hm Hinv Hl Hold.
  pose proof (refilled_cases m now user rl ltac:(lia) Hinv) as Hre.
  pose proof (Allow_cases m now user rl ltac:(lia) Hinv) as (Hl2 & _ & Hans).
  pose proof (tokensOf_inv m rl user ltac:(lia) Hinv) as Htok.
  destruct Hinv as (_ & Hb & _). rewrite Hb in Htok.
  cbv zeta in Hre. rewrite Hl in Hre.
  assert (Hd : Hour < Sub now lr < 2 ^ 63).
  { unfold Sub, minDuration, maxDuration, GoInt.min_int, GoInt.max_int.
    change Hour with 3600000000000 in *.
    change (2 ^ 63) with 9223372036854775808. lia. }
  pose proof (tokensToAdd_hour (Sub now lr) m Hd Hm) as Hn.
  destruct (0 <? tokensToAdd (Sub now lr) m) eqn:Hp;
    [| apply Z.ltb_ge in Hp; lia].
  destruct Hre as [Htk Hlr].
  assert (Hfull : tokensOf (refilled now user rl) user = 2 * m) by lia.
  destruct (Allow now user rl).1.
  - destruct Hans as [_ Htk2]. split; [done |]. unfold bucketOf.
    rewrite Hl2, Hlr. f_equal. apply tokens_of_tokensOf; lia.
  - destruct Hans as [Hz _]. lia.
Qed.

(** A limiter that is swept and one that is not, at a time the clock has
    reached: every identity has the same bucket in both, or has been swept
    from the first and was last refilled more than an hour ago in the
    second. *)
Lemma swept_answers (m : Z) (evs : list event) (t : Time)
      (rl rl' : RateLimiter) :
  0 < m < 1000000000 -> bucketInv m rl -> bucketInv m rl' ->
  (forall user,
     bucketOf user rl = bucketOf user rl' \/
     (lastRefill rl !! user = None /\
      exists lr : Time, lastRefill rl' !! user = Some lr /\ lr < t - Hour)) ->
  clockOrdered t evs = true ->
  answers rl evs = answers rl' (List.filter isAllow evs).
Proof.
  intros Hm. revert t rl rl'.
  induction evs as [| ev evs IH]; intros t rl rl' Hinv Hinv' Hrel Hord; [done |].
  simpl in Hord. apply andb_true_iff in Hord as [Hle Hord].
  apply Z.leb_le in Hle.
  destruct ev as [now u | now]; cbn [timeOf isAllow List.filter answers] in *.
  - pose proof (Allow_inv m now u rl ltac:(lia) Hinv) as Hinv2.
    pose proof (Allow_inv m now u rl' ltac:(lia) Hinv') as Hinv2'.
    assert (Hu : (Allow now u rl).1 = (Allow now u rl').1 /\
                 bucketOf u (Allow now u rl).2 = bucketOf u (Allow now u rl').2).
    { destruct (Hrel u) as [Hsame | (Hnone & lr & Hlr & Hold)].
      - apply Allow_agree; [exact Hsame | |].
        + destruct Hinv as (-> & _), Hinv' as (-> & _). done.
        + destruct Hinv as (_ & -> & _), Hinv' as (_ & -> & _). done.
      - destruct (Allow_first m now u rl Hm Hinv Hnone) as [-> ->].
        destruct (Allow_after_hour m now u rl' lr Hm Hinv' Hlr ltac:(lia))
          as [-> ->]. done. }
    destruct Hu as [Hans Hbk]. rewrite Hans. f_equal.
    apply (IH now); [exact Hinv2 | exact Hinv2' | | exact Hord].
    intros user. destruct (decide (u = user)) as [<- | Hne]; [by left |].
    destruct (Allow_other now u user rl Hne) as [Ht Hl].
    destruct (Allow_other now u user rl' Hne) as [Ht' Hl'].
    unfold bucketOf. rewrite Ht, Hl, Ht', Hl'.
    destruct (Hrel user) as [Hsame | (Hnone & lr & Hlr & Hold)]; [by left |].
    right. split; [exact Hnone |]. exists lr. split; [exact Hlr | lia].
  - apply (IH now); [by apply foldl_deleteUser_inv | exact Hinv' | | exact Hord].
    intros user. destruct (cleanup_lookup now rl user) as [Hl Htk].
    unfold Before, Add in Hl, Htk. unfold bucketOf. rewrite Hl, Htk.
    destruct (Hrel user) as [Hsame | (Hnone & lr & Hlr & Hold)].
    + unfold bucketOf in Hsame. injection Hsame as Ht' Hl'.
      destruct (lastRefill rl !! user) as [lr |] eqn:Hlr.
      * destruct (lr <? now + -1 * Hour) eqn:Hstale.
        -- apply Z.ltb_lt in Hstale. right. split; [done |].
           exists lr. split; [by rewrite <- Hl' | lia].
        -- left. by rewrite Ht', Hl'.
      * left. by rewrite Ht', Hl'.
    + right. rewrite Hnone. split; [done |].
      exists lr. split; [exact Hlr | lia].
Qed.

(** X11. With a positive rate and a clock that does not run backwards, no
    caller can tell whether the sweep runs: every call of [Allow] gets
    the answer it would get if no sweep ever ran.  A bucket the sweep
    removes is one that the next call would have refilled to the brim. *)
Theorem sweeps_unobservable (m : Z) (t0 : Time) (evs : list event) :
  0 < m < 1000000000 ->
  clockOrdered t0 evs = true ->
  answers (NewRateLimiter m) evs
  = answers (NewRateLimiter m) (List.filter isAllow evs).
Proof.
  intros Hm Hord.
  apply (swept_answers m evs t0); try done.
  - apply NewRateLimiter_inv. lia.
  - apply NewRateLimiter_inv. lia.
  - intros user. by left.
Qed.

Lemma sweeps_unobservable_witness :
  answers (NewRateLimiter 10)
          [EvAllow 0 "u"; EvCleanup 3600000000001; EvAllow 3600000000002 "u"]
  = answers (NewRateLimiter 10)
            (List.filter isAllow
               [EvAllow 0 "u"; EvCleanup 3600000000001;
                EvAllow 3600000000002 "u"]).
Proof.
  apply (sweeps_unobservable 10 0
           [EvAllow 0 "u"; EvCleanup 3600000000001; EvAllow 3600000000002 "u"]).
  - lia.
  - reflexivity.
Defined.

(** ** The burst *)

(** Calls at the time of the last refill spend what the bucket holds. *)
Lemma admitted_at_once (m : Z) (user : string) (t : Time) (n : nat) (k : Z)
      (rl : RateLimiter) :
  0 <= m < 1000000000 -> bucketAt m user t k rl ->
  admitted user rl (replicate n (EvAllow t user)) = Z.min (Z.of_nat n) k.
Proof.
  intros Hm. revert k rl. induction n as [| n IH]; intros k rl Hb.
  - destruct Hb as (_ & _ & _ & Hk). unfold admitted. simpl. lia.
  - cbn [replicate]. rewrite admitted_allow, String.eqb_refl. cbn [andb].
    assert (Hdue : noRefillDue m t t = true).
    { unfold noRefillDue. apply Z.leb_le.
      rewrite Sub_exact by (change (2 ^ 63) with 9223372036854775808; lia).
      rewrite Z.sub_diag, tokensToAdd_zero_duration; [lia |].
      change (2 ^ 53) with 9007199254740992. lia. }
    destruct (Allow_not_due m user t k rl t Hb Hdue) as [-> Hb'].
    rewrite (IH _ _ Hb'). destruct Hb as (_ & _ & _ & Hk).
    destruct (k <=? 0) eqn:Hz; simpl.
    + apply Z.leb_le in Hz. lia.
    + apply Z.leb_gt in Hz. lia.
Qed.

Lemma answers_at_once (m : Z) (user : string) (t : Time) (n : nat) (k : Z)
      (rl : RateLimiter) :
  0 <= m < 1000000000 -> bucketAt m user t k rl ->
  answers rl (replicate n (EvAllow t user))
  = replicate (Nat.min n (Z.to_nat k)) (user, true)
    ++ replicate (n - Z.to_nat k) (user, false).
Proof.
  intros Hm. revert k rl. induction n as [| n IH]; intros k rl Hb; [done |].
  cbn [replicate answers].
  assert (Hdue : noRefillDue m t t = true).
  { unfold noRefillDue. apply Z.leb_le.
    rewrite Sub_exact by (change (2 ^ 63) with 9223372036854775808; lia).
    rewrite Z.sub_diag, tokensToAdd_zero_duration; [lia |].
    change (2 ^ 53) with 9007199254740992. lia. }
  destruct (Allow_not_due m user t k rl t Hb Hdue) as [-> Hb'].
  rewrite (IH _ _ Hb'). destruct Hb as (_ & _ & _ & Hk).
  destruct (k <=? 0) eqn:Hz; simpl negb.
  - apply Z.leb_le in Hz. assert (k = 0) as -> by lia.
    change (Z.to_nat 0) with 0%nat.
    rewrite !Nat.min_0_r, !Nat.sub_0_r. reflexivity.
  - apply Z.leb_gt in Hz.
    replace (Z.to_nat k) with (S (Z.to_nat (k - 1))) by lia.
    rewrite <- Nat.succ_min_distr, Nat.sub_succ. reflexivity.
Qed.

(** The first call of a new identity, in integers. *)
Lemma Allow_new (m : Z) (user : string) (t : Time) :
  0 <= m < 1000000000 ->
  (Allow t user (NewRateLimiter m)).1 = negb (2 * m <=? 0) /\
  bucketAt m user t (if 2 * m <=? 0 then 2 * m else 2 * m - 1)
           (Allow t user (NewRateLimiter m)).2.
Proof.
  intros Hm. unfold Allow, NewRateLimiter. cbn [lastRefill bucketSize].
  rewrite lookup_empty. cbv zeta.
  rewrite tokensOf_setBucket, decide_True by reflexivity.
  rewrite (wrap_in_range (m * 2))
    by (unfold GoInt.in_range, GoInt.min_int, GoInt.max_int; lia).
  replace (m * 2) with (2 * m) by lia.
  destruct (2 * m <=? 0) eqn:Hz; simpl.
  - apply Z.leb_le in Hz. split; [done |].
    unfold bucketAt; simpl. rewrite !lookup_insert_eq.
    unfold GoInt.max_int. repeat split; try done; lia.
  - apply Z.leb_gt in Hz. split; [done |].
    unfold bucketAt; simpl. rewrite !lookup_insert_eq.
    rewrite wrap_in_range
      by (unfold GoInt.in_range, GoInt.min_int, GoInt.max_int; lia).
    unfold GoInt.max_int. repeat split; try done; lia.
Qed.

(** X12. The burst is [bucketSize], no more and no less: of [n] calls a new
    identity makes at one instant, the first [2 * maxPerSec] are admitted
    and all the others are denied. *)
Theorem burst_is_bucketSize (m : Z) (user : string) (t : Time) (n : nat) :
  0 <= m < 1000000000 ->
  answers (NewRateLimiter m) (replicate n (EvAllow t user))
  = replicate (Nat.min n (Z.to_nat (2 * m))) (user, true)
    ++ replicate (n - Z.to_nat (2 * m)) (user, false) /\
  admitted user (NewRateLimiter m) (replicate n (EvAllow t user))
  = Z.min (Z.of_nat n) (2 * m).
Proof.
  intros Hm. destruct n as [| n]; [split; [done | unfold admitted; simpl; lia] |].
  destruct (Allow_new m user t Hm) as [Hans Hb].
  split.
  - cbn [replicate answers]. rewrite Hans.
    rewrite (answers_at_once m user t n _ _ Hm Hb).
    destruct (2 * m <=? 0) eqn:Hz; simpl negb.
    + apply Z.leb_le in Hz. assert (2 * m = 0) as -> by lia.
      change (Z.to_nat 0) with 0%nat.
      rewrite !Nat.min_0_r, !Nat.sub_0_r. reflexivity.
    + apply Z.leb_gt in Hz.
      replace (Z.to_nat (2 * m)) with (S (Z.to_nat (2 * m - 1))) by lia.
      rewrite <- Nat.succ_min_distr, Nat.sub_succ. reflexivity.
  - cbn [replicate]. rewrite admitted_allow, String.eqb_refl. cbn [andb].
    rewrite Hans, (admitted_at_once m user t n _ _ Hm Hb).
    destruct (2 * m <=? 0) eqn:Hz; simpl negb.
    + apply Z.leb_le in Hz. lia.
    + apply Z.leb_gt in Hz. lia.
Qed.

Lemma burst_is_bucketSize_witness :
  answers (NewRateLimiter 10) (replicate 23 (EvAllow 7 "u"))
  = replicate (Nat.min 23 (Z.to_nat (2 * 10))) ("u", true)
    ++ replicate (23 - Z.to_nat (2 * 10)) ("u", false) /\
  admitted "u" (NewRateLimiter 10) (replicate 23 (EvAllow 7 "u"))
  = Z.min (Z.of_nat 23) (2 * 10).
Proof.
  apply (burst_is_bucketSize 10 "u" 7 23). lia.
Defined.

(** ** Every way through the handler *)

Section Outcomes.

Variable titleUnicode : string -> string.
Variable jsonDecode : string -> option EmailRequest.
Variable SendMail : SendMailCall -> option string.

(** The six ways a request can go. *)
Lemma handler_cases (rl : RateLimiter) (now : Time) (r : Request) :
  let o := GetMailHandler titleUnicode jsonDecode SendMail rl now r in
  (Method r <> MethodPost /\
   o = mkOutcome (httpError "Method not allowed" StatusMethodNotAllowed) rl []) \/
  (Method r = MethodPost /\ basicCredentials (Authorization r) = None /\
   StatusCode (response o) = StatusUnauthorized /\ limiter o = rl /\
   relayed o = []) \/
  (exists u p,
     Method r = MethodPost /\ basicCredentials (Authorization r) = Some (u, p) /\
     limiter o = (Allow now u rl).2 /\
     ((Allow now u rl).1 = false /\
      response o = httpError "Rate limit exceeded" StatusTooManyRequests /\
      relayed o = []
      \/
      (Allow now u rl).1 = true /\ jsonDecode (Body r) = None /\
      response o = httpError "Invalid request body" StatusBadRequest /\
      relayed o = []
      \/
      exists e,
        (Allow now u rl).1 = true /\ jsonDecode (Body r) = Some e /\
        (missingFields e = true /\
         response o = httpError "Missing required fields (to, subject, content)"
                                StatusBadRequest /\
         relayed o = []
         \/
         missingFields e = false /\
         relayed o = [relayCall titleUnicode u p e] /\
         response o
         = match SendMail (relayCall titleUnicode u p e) with
           | Some err => httpError ("Failed to send email: " +:+ err)
                                   StatusInternalServerError
           | None => mkResponse StatusOK "application/json" successBody
           end))).
Proof.
  intros o. subst o.
  destruct (String.eqb (Method r) MethodPost) eqn:Hm.
  - apply String.eqb_eq in Hm. right.
    destruct (basicCredentials (Authorization r)) as [[u p] |] eqn:Hc.
    + right. exists u, p. split; [done |]. split; [done |].
      split; [by apply (handle_limiter _ _ _ _ _ _ u p) |].
      destruct (Allow now u rl).1 eqn:Ha.
      * right. destruct (jsonDecode (Body r)) as [e |] eqn:Hj.
        -- right. exists e. split; [done |]. split; [done |].
           destruct (missingFields e) eqn:Hf.
           ++ left. split; [done |]. by apply (handle_missing _ _ _ _ _ _ u p e).
           ++ right. split; [done |]. by apply (handle_relay _ _ _ _ _ _ u p e).
        -- left. split; [done |]. split; [done |].
           by apply (handle_bad_body _ _ _ _ _ _ u p).
      * left. split; [done |]. by apply (handle_denied _ _ _ _ _ _ u p).
    + left. split; [done |]. split; [done |]. by apply handle_unauthorized.
  - apply String.eqb_neq in Hm. left. split; [done |].
    by apply handle_not_post.
Qed.

End Outcomes.

(** X13. The handler answers with one of six status codes, and what it
    answers tells what it has done: it answers 200 exactly when it has
    handed one message to the relay and the relay accepted it, 500 exactly
    when it has handed one message to the relay and the relay refused it,
    and with any other status it has handed nothing to the relay.  Behind a
    500 the body is the text of the relay's error after
    [Failed to send email: ]. *)
Theorem status_tells_relay (titleUnicode : string -> string)
        (jsonDecode : string -> option EmailRequest)
        (SendMail : SendMailCall -> option string)
        (rl : RateLimiter) (now : Time) (r : Request) :
  let o := GetMailHandler titleUnicode jsonDecode SendMail rl now r in
  let status := StatusCode (response o) in
  In status [StatusOK; StatusBadRequest; StatusUnauthorized;
             StatusMethodNotAllowed; StatusTooManyRequests;
             StatusInternalServerError] /\
  (status = StatusOK <->
   exists call, relayed o = [call] /\ SendMail call = None) /\
  (status = StatusInternalServerError <->
   exists call err, relayed o = [call] /\ SendMail call = Some err /\
     ResponseBody (response o) = "Failed to send email: " +:+ err +:+ newline) /\
  (status <> StatusOK -> status <> StatusInternalServerError -> relayed o = []).
Proof.
  intros o status. subst status.
  destruct (handler_cases titleUnicode jsonDecode SendMail rl now r)
    as [[_ Ho] | [(_ & _ & Hs & _ & Hr) | (u & p & _ & _ & _ & Hcase)]];
    fold o in Ho || fold o in Hs, Hr || fold o in Hcase.
  - rewrite Ho. simpl. split; [tauto |].
    split; [split; [discriminate | by intros (? & [=] & _)] |].
    split; [split; [discriminate | by intros (? & ? & [=] & _)] | done].
  - rewrite Hs, Hr. split; [simpl; tauto |].
    split; [split; [discriminate | by intros (? & [=] & _)] |].
    split; [split; [discriminate | by intros (? & ? & [=] & _)] | done].
  - destruct Hcase as [(_ & Hresp & Hr) | [(_ & _ & Hresp & Hr) | (e & _ & _ & Hcase)]].
    + rewrite Hresp, Hr. split; [simpl; tauto |].
      split; [split; [discriminate | by intros (? & [=] & _)] |].
      split; [split; [discriminate | by intros (? & ? & [=] & _)] | done].
    + rewrite Hresp, Hr. split; [simpl; tauto |].
      split; [split; [discriminate | by intros (? & [=] & _)] |].
      split; [split; [discriminate | by intros (? & ? & [=] & _)] | done].
    + destruct Hcase as [(_ & Hresp & Hr) | (_ & Hr & Hresp)].
      * rewrite Hresp, Hr. split; [simpl; tauto |].
        split; [split; [discriminate | by intros (? & [=] & _)] |].
        split; [split; [discriminate | by intros (? & ? & [=] & _)] | done].
      * rewrite Hresp, Hr.
        destruct (SendMail (relayCall titleUnicode u p e)) as [err |] eqn:Hsend; simpl.
        -- split; [tauto |].
           split; [split; [discriminate |] |].
           { intros (call & [= <-] & Hnone). congruence. }
           split; [| done].
           split; [| done]. intros _. exists (relayCall titleUnicode u p e), err.
           split; [done |]. split; [done |].
           by rewrite append_assoc.
        -- split; [tauto |].
           split; [split; [by exists (relayCall titleUnicode u p e) | done] |].
           split; [| done].
           split; [discriminate |].
           intros (call & err & [= <-] & Hsome & _). congruence.
Qed.

(** ** The handler and its limiter *)

Section Served.

Variable titleUnicode : string -> string.
Variable jsonDecode : string -> option EmailRequest.
Variable SendMail : SendMailCall -> option string.

(** One request moves the limiter by the call of [Allow] it leads to, if
    any. *)
Lemma handler_limiter_step (rl : RateLimiter) (tr : Time * Request) :
  limiter (GetMailHandler titleUnicode jsonDecode SendMail rl tr.1 tr.2)
  = match eventOf tr with
    | Some ev => step rl ev
    | None => rl
    end.
Proof.
  destruct tr as [now r]. unfold eventOf. cbn [fst snd].
  destruct (handler_cases titleUnicode jsonDecode SendMail rl now r)
    as [[Hm Ho] | [(Hm & Hc & _ & Hl & _) | (u & p & Hm & Hc & Hl & _)]].
  - apply String.eqb_neq in Hm. by rewrite Hm, Ho.
  - by rewrite Hm, String.eqb_refl, Hc.
  - by rewrite Hm, String.eqb_refl, Hc.
Qed.

Lemma eventsOf_cons (tr : Time * Request) (reqs : list (Time * Request)) :
  eventsOf (tr :: reqs)
  = match eventOf tr with
    | Some ev => ev :: eventsOf reqs
    | None => eventsOf reqs
    end.
Proof. reflexivity. Qed.

Lemma limiterAfter_cons (rl : RateLimiter) (o : Outcome) (outs : list Outcome) :
  limiterAfter rl (o :: outs) = limiterAfter (limiter o) outs.
Proof.
  unfold limiterAfter. destruct outs as [| o' outs]; [reflexivity |].
  rewrite !fmap_cons, !last_cons_cons.
  destruct (last (limiter o' :: (limiter <$> outs))) eqn:Hlast; [done |].
  by apply last_None in Hlast.
Qed.

(** What one request hands to the relay for [user]: at most one message,
    and only when [Allow] has admitted the call. *)
Lemma handler_relayed_for (user : string) (rl : RateLimiter)
      (tr : Time * Request) :
  let o := GetMailHandler titleUnicode jsonDecode SendMail rl tr.1 tr.2 in
  Z.of_nat (length (List.filter (fun c => String.eqb (smtpFrom c) user)
                                (relayed o)))
  <= match eventOf tr with
     | Some (EvAllow now u) =>
         if String.eqb u user && (Allow now u rl).1 then 1 else 0
     | _ => 0
     end.
Proof.
  destruct tr as [now r]. unfold eventOf. cbv zeta. cbn [fst snd].
  destruct (handler_cases titleUnicode jsonDecode SendMail rl now r)
    as [[Hm Ho] | [(Hm & Hc & _ & _ & Hr) | (u & p & Hm & Hc & _ & Hcase)]].
  - apply String.eqb_neq in Hm. by rewrite Hm, Ho.
  - by rewrite Hm, String.eqb_refl, Hc, Hr.
  - rewrite Hm, String.eqb_refl, Hc.
    destruct Hcase as [(_ & _ & ->) | [(_ & _ & _ & ->) | (e & Ha & _ & Hcase)]];
      [simpl; by destruct (_ && _).. |].
    destruct Hcase as [(_ & _ & ->) | (_ & -> & _)];
      [simpl; by destruct (_ && _) |].
    rewrite Ha, andb_true_r. cbn [List.filter relayCall smtpFrom].
    by destruct (String.eqb u user).
Qed.

Lemma serve_relayed_for (user : string) (rl : RateLimiter)
      (reqs : list (Time * Request)) :
  Z.of_nat (length (relayedFor user (serve titleUnicode jsonDecode SendMail rl reqs)))
  <= admitted user rl (eventsOf reqs).
Proof.
  revert rl. induction reqs as [| [now r] reqs IH]; intros rl; [done |].
  cbn [serve]. unfold relayedFor. rewrite fmap_cons. cbn [concat].
  rewrite List.filter_app, length_app, Nat2Z.inj_add.
  pose proof (handler_relayed_for user rl (now, r)) as Hone.
  pose proof (handler_limiter_step rl (now, r)) as Hlim.
  cbn [fst snd] in Hone, Hlim. cbv zeta in Hone.
  specialize (IH (limiter (GetMailHandler titleUnicode jsonDecode SendMail rl now r))).
  unfold relayedFor in IH. rewrite Hlim in IH. rewrite Hlim.
  rewrite eventsOf_cons.
  destruct (eventOf (now, r)) as [[now' u | now'] |]; simpl.
  - rewrite admitted_allow. simpl in IH. lia.
  - rewrite admitted_cleanup. simpl in IH. lia.
  - lia.
Qed.

Lemma eventsOf_ordered (t : Time) (reqs : list (Time * Request)) :
  servedInOrder t reqs = true ->
  clockOrdered t (eventsOf reqs) = true /\
  t <= endOf t (eventsOf reqs) <= lastServed t reqs.
Proof.
  revert t. induction reqs as [| [now r] reqs IH]; intros t Hord.
  - simpl. split; [done | lia].
  - cbn [servedInOrder fst] in Hord. apply andb_true_iff in Hord as [Hle Hord].
    apply Z.leb_le in Hle. destruct (IH now Hord) as [IHo IHe].
    cbn [lastServed fst]. rewrite eventsOf_cons.
    assert (Hweak : forall evs, clockOrdered now evs = true ->
                                clockOrdered t evs = true /\
                                endOf now evs = now \/
                                clockOrdered t evs = true /\
                                endOf t evs = endOf now evs).
    { intros [| ev evs]; simpl; [by left |].
      intros [H1 H2]%andb_true_iff. right. rewrite H2, andb_true_r.
      split; [| done]. apply Z.leb_le. apply Z.leb_le in H1. lia. }
    destruct (eventOf (now, r)) as [ev |] eqn:Hev; simpl.
    + assert (Htime : timeOf ev = now).
      { unfold eventOf in Hev. cbn [fst snd] in Hev.
        destruct (String.eqb _ _); [| discriminate].
        destruct (basicCredentials _) as [[u p] |]; [| discriminate].
        by injection Hev as <-. }
      rewrite Htime. split; [| lia].
      apply andb_true_iff. split; [by apply Z.leb_le | done].
    + destruct (Hweak _ IHo) as [[Ho He] | [Ho He]].
      * split; [done |].
        destruct (eventsOf reqs) as [| ev evs]; simpl in *; lia.
      * split; [done |]. rewrite He.
        destruct (eventsOf reqs) as [| ev evs]; simpl in *; lia.
Qed.

End Served.

(** X14. Whatever the bodies hold and whatever the relay answers, a stream
    of requests moves the limiter exactly as the calls [Allow(username)]
    of its authenticated POST requests do, one call per such request, in
    the order and at the times they are served; requests that fail the
    method or the credentials check do not reach the limiter. *)
Theorem served_limiter_is_run (titleUnicode : string -> string)
        (jsonDecode : string -> option EmailRequest)
        (SendMail : SendMailCall -> option string)
        (rl : RateLimiter) (reqs : list (Time * Request)) :
  limiterAfter rl (serve titleUnicode jsonDecode SendMail rl reqs) = run rl (eventsOf reqs).
Proof.
  revert rl. induction reqs as [| [now r] reqs IH]; intros rl; [done |].
  cbn [serve]. rewrite limiterAfter_cons, IH.
  pose proof (handler_limiter_step titleUnicode jsonDecode SendMail rl (now, r)) as Hstep.
  cbn [fst snd] in Hstep. rewrite Hstep.
  rewrite eventsOf_cons. destruct (eventOf (now, r)); reflexivity.
Qed.

(** X15. The service holds every user to the rate.  Behind a limiter built
    with a rate of at most 500000 per second, whatever requests are served
    (with a clock that does not run backwards), whatever their bodies and
    whatever the relay answers, the messages handed to the relay with
    [user] as the sender number at most the burst [2 * maxPerSec] plus what
    the time between [t0] and the last request earns at [maxPerSec] per
    second. *)
Theorem relayed_at_most (titleUnicode : string -> string)
        (jsonDecode : string -> option EmailRequest)
        (SendMail : SendMailCall -> option string)
        (m : Z) (user : string) (t0 : Time) (reqs : list (Time * Request)) :
  0 <= m <= 500000 ->
  servedInOrder t0 reqs = true ->
  Z.of_nat (length (relayedFor user
                      (serve titleUnicode jsonDecode SendMail (NewRateLimiter m) reqs)))
  <= 2 * m + ((lastServed t0 reqs - t0) * m) / Second.
Proof.
  intros Hm Hord.
  pose proof (serve_relayed_for titleUnicode jsonDecode SendMail user (NewRateLimiter m) reqs)
    as Hrel.
  destruct (eventsOf_ordered t0 reqs Hord) as [Hclock Hend].
  pose proof (admitted_earned m user t0 (eventsOf reqs) Hm Hclock) as Hadm.
  change Second with 1000000000 in *.
  apply Z.le_trans with (admitted user (NewRateLimiter m) (eventsOf reqs));
    [exact Hrel |].
  assert (Hdiv : admitted user (NewRateLimiter m) (eventsOf reqs) - 2 * m
                 <= (lastServed t0 reqs - t0) * m / 1000000000)
    by (apply Z.div_le_lower_bound; nia).
  lia.
Qed.

Lemma relayed_at_most_witness :
  Z.of_nat (length (relayedFor "alice@example.com"
                      (serve Doubles.titleAsIs (Doubles.decodeAs Doubles.hello) Doubles.relayAccepts
                             (NewRateLimiter 10) (Doubles.aliceBurst 3 0 1000))))
  <= 2 * 10 + ((lastServed 0 (Doubles.aliceBurst 3 0 1000) - 0) * 10) / Second.
Proof.
  apply (relayed_at_most Doubles.titleAsIs (Doubles.decodeAs Doubles.hello) Doubles.relayAccepts
           10 "alice@example.com" 0 (Doubles.aliceBurst 3 0 1000)).
  - lia.
  - reflexivity.
Defined.

(** ** One user name and the others *)

Section Neighbours.

Variable titleUnicode : string -> string.
Variable jsonDecode : string -> option EmailRequest.

(** The relay of the one run and the relay of the other. *)
Variable SendMail SendMail' : SendMailCall -> option string.

(** What the handler settles of a request hangs on the limiter by the
    answer of [Allow] alone, and not on the relay. *)
Lemma handler_settled (rl rl' : RateLimiter) (now : Time) (r : Request)
      (u p : string) :
  Method r = MethodPost ->
  basicCredentials (Authorization r) = Some (u, p) ->
  (Allow now u rl).1 = (Allow now u rl').1 ->
  settled (GetMailHandler titleUnicode jsonDecode SendMail rl now r)
  = settled (GetMailHandler titleUnicode jsonDecode SendMail' rl' now r).
Proof.
  intros Hm Hc Hans. unfold settled.
  destruct (Allow now u rl).1 eqn:Ha; symmetry in Hans.
  - destruct (jsonDecode (Body r)) as [e |] eqn:Hj.
    + destruct (missingFields e) eqn:Hf.
      * destruct (handle_missing titleUnicode jsonDecode SendMail rl now r u p e
                    Hm Hc Ha Hj Hf) as [-> ->].
        by destruct (handle_missing titleUnicode jsonDecode SendMail' rl' now r
                       u p e Hm Hc Hans Hj Hf) as [-> ->].
      * destruct (handle_relay titleUnicode jsonDecode SendMail rl now r u p e
                    Hm Hc Ha Hj Hf) as [-> _].
        by destruct (handle_relay titleUnicode jsonDecode SendMail' rl' now r
                       u p e Hm Hc Hans Hj Hf) as [-> _].
    + destruct (handle_bad_body titleUnicode jsonDecode SendMail rl now r u p
                  Hm Hc Ha Hj) as [-> ->].
      by destruct (handle_bad_body titleUnicode jsonDecode SendMail' rl' now r u p
                     Hm Hc Hans Hj) as [-> ->].
  - destruct (handle_denied titleUnicode jsonDecode SendMail rl now r u p
                Hm Hc Ha) as [-> ->].
    by destruct (handle_denied titleUnicode jsonDecode SendMail' rl' now r u p
                   Hm Hc Hans) as [-> ->].
Qed.

End Neighbours.

(** X16. The limiter sets user names apart, not callers.  What the handler
    settles of the requests that name [user] in their Basic credentials,
    whatever password they carry (a denial, a rejection of the body, or a
    message handed to the relay), is what it would settle of them if the
    requests that name other users, however many, had never been made;
    and this whatever the relay answers in the one run and in the other.
    The password plays no part in it: the handler calls [Allow(username)]
    before any credential is checked, so a request that names the user
    with a wrong password counts with the user's own. *)
Theorem user_names_isolated (titleUnicode : string -> string)
        (jsonDecode : string -> option EmailRequest)
        (SendMail SendMail' : SendMailCall -> option string)
        (rl : RateLimiter) (user : string) (reqs : list (Time * Request)) :
  settled <$> outcomesOf user reqs
                (serve titleUnicode jsonDecode SendMail rl reqs)
  = settled <$> serve titleUnicode jsonDecode SendMail' rl
                      (List.filter (fun tr => postFrom user tr.2) reqs).
Proof.
  enough (Hall : forall rl',
             bucketOf user rl = bucketOf user rl' ->
             maxPerSec rl = maxPerSec rl' -> bucketSize rl = bucketSize rl' ->
             settled <$> outcomesOf user reqs
                           (serve titleUnicode jsonDecode SendMail rl reqs)
             = settled <$> serve titleUnicode jsonDecode SendMail' rl'
                                 (List.filter (fun tr => postFrom user tr.2) reqs))
    by (by apply Hall).
  revert rl. induction reqs as [| [now r] reqs IH]; intros rl rl' Hbk Hm Hb;
    [done |].
  cbn [serve outcomesOf List.filter fst snd].
  pose proof (handler_limiter_step titleUnicode jsonDecode SendMail rl (now, r))
    as Hstep.
  cbn [fst snd] in Hstep.
  destruct (postFrom user r) eqn:Hpost.
  - destruct (postFrom_spec user r Hpost) as (Hmeth & p & Hc).
    cbn [serve]. rewrite !fmap_cons.
    destruct (Allow_agree now user rl rl' Hbk Hm Hb) as [Hans Hbk'].
    rewrite (handler_settled titleUnicode jsonDecode SendMail SendMail' rl rl' now r
               user p Hmeth Hc Hans). f_equal.
    rewrite (handle_limiter titleUnicode jsonDecode SendMail rl now r user p
               Hmeth Hc).
    rewrite (handle_limiter titleUnicode jsonDecode SendMail' rl' now r user p
               Hmeth Hc).
    destruct (Allow_config now user rl) as [Hm1 Hb1].
    destruct (Allow_config now user rl') as [Hm2 Hb2].
    apply IH; [exact Hbk' | congruence..].
  - rewrite Hstep. unfold eventOf. cbn [fst snd].
    destruct (String.eqb (Method r) MethodPost) eqn:Hmeth; [| by apply IH].
    destruct (basicCredentials (Authorization r)) as [[u p] |] eqn:Hc;
      [| by apply IH].
    assert (Hne : u <> user).
    { intros ->. unfold postFrom in Hpost.
      by rewrite Hmeth, Hc, String.eqb_refl in Hpost. }
    cbn [step].
    destruct (Allow_other now u user rl Hne) as [Ht Hl].
    destruct (Allow_config now u rl) as [Hm1 Hb1].
    apply IH; [| congruence..].
    rewrite <- Hbk. unfold bucketOf. by rewrite Ht, Hl.
Qed.

(** A user name is not a caller: twenty requests that name
    alice@example.com with a wrong password are refused by the relay, one
    by one, and each takes a token of her bucket; her own request, with
    the right password, is then denied. *)
Example forged_name_drains :
  (fun o => StatusCode (response o)) <$>
    serve Doubles.titleAsIs (Doubles.decodeAs Doubles.hello) Doubles.relayChecks
          (NewRateLimiter 10)
          (replicate 20 (0, Doubles.guessPost) ++ [(0, Doubles.alicePost)])
  = replicate 20 500 ++ [429] /\
  (fun o => StatusCode (response o)) <$>
    serve Doubles.titleAsIs (Doubles.decodeAs Doubles.hello) Doubles.relayChecks
          (NewRateLimiter 10) [(0, Doubles.alicePost)]
  = [200].
Proof. vm_compute. auto. Qed.
(** ** The credentials *)

(** The cut at the first separator: the text before it holds none. *)
Lemma cut_Some (s : string) (sep : ascii) (before after : string) :
  cut s sep = Some (before, after) ->
  s = before +:+ String sep after /\ Contains before sep = false.
Proof.
  revert before. induction s as [| c s IH]; intros before; simpl; [discriminate |].
  destruct (Ascii.eqb c sep) eqn:Hc.
  - intros [= <- <-]. apply Ascii.eqb_eq in Hc. by subst.
  - destruct (cut s sep) as [[b a] |]; [| discriminate].
    intros [= <- <-]. destruct (IH b eq_refl) as [-> Hn].
    split; [done |]. simpl. by rewrite Hc.
Qed.


Lemma cut_append (before after : string) (sep : ascii) :
  Contains before sep = false ->
  cut (before +:+ String sep after) sep = Some (before, after).
Proof.
  induction before as [| c before IH]; simpl.
  - intros _. by rewrite Ascii.eqb_refl.
  - intros [Hc Hn]%orb_false_iff. rewrite Hc.
    change (String.append before (String sep after))
      with (before +:+ String sep after).
    by rewrite IH.
Qed.

(** X17. Whenever the handler hands a message to the relay, it does so in
    the name of the caller: the payload of the [Authorization] header
    decodes to [username:password], the user name being the text before
    the first colon (the password may hold colons), and the call uses that
    user name as the SMTP sender and, with the password, as the SMTP
    credentials for [box.domain.com].  The recipients are those of the
    body, and [Allow] has admitted the user.  Nothing in the body, the
    title included, changes the sender of the envelope. *)
Theorem relay_in_callers_name (titleUnicode : string -> string)
        (jsonDecode : string -> option EmailRequest)
        (SendMail : SendMailCall -> option string)
        (rl : RateLimiter) (now : Time) (r : Request) (call : SendMailCall) :
  In call (relayed (GetMailHandler titleUnicode jsonDecode SendMail rl now r)) ->
  exists u p e,
    Base64.DecodeString (sliceFrom 6 (Authorization r)) = Some (u +:+ ":" +:+ p) /\
    Contains u ":" = false /\
    HasPrefix (Authorization r) "Basic " = true /\
    (Allow now u rl).1 = true /\
    jsonDecode (Body r) = Some e /\
    smtpAddr call = "box.domain.com:587" /\
    smtpAuth call = mkPlainAuth "" u p "box.domain.com" /\
    smtpFrom call = u /\
    smtpTo call = To e /\ To e <> [].
Proof.
  intros Hin.
  destruct (handler_cases titleUnicode jsonDecode SendMail rl now r)
    as [[_ Ho] | [(_ & _ & _ & _ & Hr) | (u & p & _ & Hc & _ & Hcase)]].
  - rewrite Ho in Hin. destruct Hin.
  - rewrite Hr in Hin. destruct Hin.
  - destruct Hcase as [(_ & _ & Hr) | [(_ & _ & _ & Hr) | (e & Ha & Hj & Hcase)]];
      [rewrite Hr in Hin; destruct Hin.. |].
    destruct Hcase as [(_ & _ & Hr) | (Hf & Hr & _)];
      [rewrite Hr in Hin; destruct Hin |].
    rewrite Hr in Hin. destruct Hin as [<- | []].
    destruct (basicCredentials_Some _ _ _ Hc) as (Hp & c & Hd & Hcut).
    destruct (cut_Some _ _ _ _ Hcut) as [-> Hn].
    exists u, p, e. repeat split; try done.
    intros Hto. unfold missingFields in Hf. by rewrite Hto in Hf.
Qed.

Lemma relay_in_callers_name_witness :
  exists u p e,
    Base64.DecodeString (sliceFrom 6 (Authorization Doubles.alicePost))
    = Some (u +:+ ":" +:+ p) /\
    Contains u ":" = false /\
    HasPrefix (Authorization Doubles.alicePost) "Basic " = true /\
    (Allow 0 u (NewRateLimiter 10)).1 = true /\
    Doubles.decodeAs Doubles.hello (Body Doubles.alicePost) = Some e /\
    smtpAddr (relayCall Doubles.titleAsIs "alice@example.com" "pw" Doubles.hello)
    = "box.domain.com:587" /\
    smtpAuth (relayCall Doubles.titleAsIs "alice@example.com" "pw" Doubles.hello)
    = mkPlainAuth "" u p "box.domain.com" /\
    smtpFrom (relayCall Doubles.titleAsIs "alice@example.com" "pw" Doubles.hello) = u /\
    smtpTo (relayCall Doubles.titleAsIs "alice@example.com" "pw" Doubles.hello) = To e /\
    To e <> [].
Proof.
  apply (relay_in_callers_name Doubles.titleAsIs (Doubles.decodeAs Doubles.hello)
           Doubles.relayAccepts (NewRateLimiter 10) 0 Doubles.alicePost
           (relayCall Doubles.titleAsIs "alice@example.com" "pw" Doubles.hello)).
  vm_compute. left. reflexivity.
Defined.

(** ** Credentials, there and back *)

Lemma code_range (c : ascii) : 0 <= code c < 256.
Proof.
  unfold code. pose proof (N_ascii_bounded c). lia.
Qed.


Lemma byte_mod (z : Z) (c : ascii) : z mod 256 = code c -> byte z = c.
Proof.
  intros Hz. unfold byte. change 255 with (Z.ones 8).
  rewrite Z.land_ones by lia. change (2 ^ 8) with 256. rewrite Hz.
  unfold code. rewrite N2Z.id. apply ascii_N_embedding.
Qed.

(** Bits that do not overlap add up. *)
Lemma lor_mul_add (a b k P : Z) :
  0 <= k -> P = 2 ^ k -> 0 <= b < P -> Z.lor (a * P) b = a * P + b.
Proof.
  intros Hk -> Hb. rewrite <- Z.add_lor_land.
  assert (Hland : Z.land (a * 2 ^ k) b = 0); [| lia].
  apply Z.bits_inj'. intros n Hn. rewrite Z.land_spec, Z.bits_0.
  destruct (Z.lt_ge_cases n k) as [Hlt | Hge].
  - by rewrite Z.mul_pow2_bits_low.
  - destruct (Z.eq_dec b 0) as [-> | Hnz];
      [by rewrite Z.bits_0, andb_false_r |].
    rewrite (Z.bits_above_log2 b n), andb_false_r; [done | lia |].
    apply Z.lt_le_trans with k; [| lia]. apply Z.log2_lt_pow2; lia.
Qed.

(** The sextets of 24 bits, and the 24 bits of four sextets. *)
Lemma sextet_value (v k : Z) :
  0 <= k -> Z.land (Z.shiftr v k) 63 = (v / 2 ^ k) mod 64.
Proof.
  intros Hk. rewrite Z.shiftr_div_pow2 by lia.
  change 63 with (Z.ones 6). by rewrite Z.land_ones by lia.
Qed.

Lemma val_value (x y z w : Z) :
  0 <= x < 64 -> 0 <= y < 64 -> 0 <= z < 64 -> 0 <= w < 64 ->
  Base64.val x y z w = x * 262144 + y * 4096 + z * 64 + w.
Proof.
  intros Hx Hy Hz Hw. unfold Base64.val.
  rewrite !Z.shiftl_mul_pow2 by lia.
  change (2 ^ 18) with 262144. change (2 ^ 12) with 4096. change (2 ^ 6) with 64.
  rewrite (lor_mul_add x (y * 4096) 18 262144) by (done || lia).
  replace (x * 262144 + y * 4096) with ((x * 64 + y) * 4096) by lia.
  rewrite (lor_mul_add (x * 64 + y) (z * 64) 12 4096) by (done || lia).
  replace ((x * 64 + y) * 4096 + z * 64) with (((x * 64 + y) * 64 + z) * 64) by lia.
  rewrite (lor_mul_add ((x * 64 + y) * 64 + z) w 6 64) by (done || lia).
  lia.
Qed.

Lemma bytes_value (a b c : Z) :
  0 <= a < 256 -> 0 <= b < 256 -> 0 <= c < 256 ->
  Z.lor (Z.lor (Z.shiftl a 16) (Z.shiftl b 8)) c = a * 65536 + b * 256 + c.
Proof.
  intros Ha Hb Hc. rewrite !Z.shiftl_mul_pow2 by lia.
  change (2 ^ 16) with 65536. change (2 ^ 8) with 256.
  rewrite (lor_mul_add a (b * 256) 16 65536) by (done || lia).
  replace (a * 65536 + b * 256) with ((a * 256 + b) * 256) by lia.
  rewrite (lor_mul_add (a * 256 + b) c 8 256) by (done || lia).
  lia.
Qed.

(** The alphabet, character by character. *)
Lemma encodeChar_decodeMap (i : Z) :
  0 <= i < 64 ->
  Base64.decodeMap (encodeChar i) = Some i /\
  Base64.isLineBreak (encodeChar i) = false.
Proof.
  intros Hi.
  assert (Hall : forallb (fun n =>
                    let i := Z.of_nat n in
                    match Base64.decodeMap (encodeChar i) with
                    | Some j => (j =? i) && negb (Base64.isLineBreak (encodeChar i))
                    | None => false
                    end) (seq 0 64) = true) by (vm_compute; reflexivity).
  rewrite forallb_forall in Hall.
  specialize (Hall (Z.to_nat i)). rewrite Z2Nat.id in Hall by lia.
  cbv zeta in Hall.
  destruct (Base64.decodeMap (encodeChar i)) as [j |].
  - specialize (Hall ltac:(apply in_seq; lia)).
    apply andb_true_iff in Hall as [Hj Hl]. apply Z.eqb_eq in Hj.
    apply negb_true_iff in Hl. by subst.
  - specialize (Hall ltac:(apply in_seq; lia)). discriminate.
Qed.

Lemma padChar_decodeMap :
  Base64.decodeMap Base64.padChar = None /\
  Base64.isLineBreak Base64.padChar = false.
Proof. by vm_compute. Qed.

(** Lists, three elements at a time. *)
Lemma list_ind3 {A : Type} (P : list A -> Prop) :
  P [] -> (forall a, P [a]) -> (forall a b, P [a; b]) ->
  (forall a b c rest, P rest -> P (a :: b :: c :: rest)) ->
  forall l, P l.
Proof.
  intros H0 H1 H2 H3 l.
  assert (H : P l /\ (forall a, P (a :: l)) /\ (forall a b, P (a :: b :: l))).
  { induction l as [| c l (IH0 & IH1 & IH2)]; [by auto |].
    split; [apply IH1 |]. split; [intros a; apply IH2 |].
    intros a b. by apply H3. }
  apply H.
Qed.

Ltac sextets :=
  unfold sextet; rewrite !sextet_value by lia;
  change (2 ^ 18) with 262144; change (2 ^ 12) with 4096;
  change (2 ^ 6) with 64; change (2 ^ 0) with 1.

Lemma decode_encode_quanta (l : list ascii) :
  Base64.decodeQuanta (encodeQuanta l) = Some l /\
  Forall (fun c => Base64.isLineBreak c = false) (encodeQuanta l).
Proof.
  destruct padChar_decodeMap as [Hpad Hpadl].
  induction l as [| a | a b | a b c rest [IHd IHf]] using list_ind3.
  - by split.
  - pose proof (code_range a) as Ha.
    cbn [encodeQuanta]. cbv zeta. rewrite Z.shiftl_mul_pow2 by lia.
    change (2 ^ 16) with 65536. sextets.
    set (v := code a * 65536).
    destruct (encodeChar_decodeMap (v / 262144 mod 64)
                ltac:(apply Z.mod_pos_bound; lia)) as [Hx Hxl].
    destruct (encodeChar_decodeMap (v / 4096 mod 64)
                ltac:(apply Z.mod_pos_bound; lia)) as [Hy Hyl].
    split; [| by repeat constructor].
    cbn [Base64.decodeQuanta]. rewrite Hx, Hy, Hpad. cbv zeta.
    rewrite Ascii.eqb_refl. cbn [andb]. rewrite bool_decide_eq_true_2 by done.
    rewrite val_value by (try apply Z.mod_pos_bound; lia).
    rewrite Z.shiftr_div_pow2 by lia. change (2 ^ 16) with 65536.
    do 2 f_equal. apply byte_mod. subst v.
    Z.to_euclidean_division_equations. lia.
  - pose proof (code_range a) as Ha. pose proof (code_range b) as Hb.
    cbn [encodeQuanta]. cbv zeta.
    replace (Z.lor (Z.shiftl (code a) 16) (Z.shiftl (code b) 8))
      with (code a * 65536 + code b * 256).
    2: { pose proof (bytes_value (code a) (code b) 0 Ha Hb ltac:(lia)) as Hv.
         rewrite Z.lor_0_r in Hv. lia. }
    sextets. set (v := code a * 65536 + code b * 256).
    destruct (encodeChar_decodeMap (v / 262144 mod 64)
                ltac:(apply Z.mod_pos_bound; lia)) as [Hx Hxl].
    destruct (encodeChar_decodeMap (v / 4096 mod 64)
                ltac:(apply Z.mod_pos_bound; lia)) as [Hy Hyl].
    destruct (encodeChar_decodeMap (v / 64 mod 64)
                ltac:(apply Z.mod_pos_bound; lia)) as [Hz Hzl].
    split; [| by repeat constructor].
    cbn [Base64.decodeQuanta]. rewrite Hx, Hy, Hz, Hpad. cbv zeta.
    rewrite Ascii.eqb_refl. cbn [andb]. rewrite bool_decide_eq_true_2 by done.
    rewrite val_value by (try apply Z.mod_pos_bound; lia).
    rewrite !Z.shiftr_div_pow2 by lia.
    change (2 ^ 16) with 65536. change (2 ^ 8) with 256.
    do 2 f_equal; [| f_equal]; apply byte_mod; subst v;
      Z.to_euclidean_division_equations; lia.
  - pose proof (code_range a) as Ha. pose proof (code_range b) as Hb.
    pose proof (code_range c) as Hc.
    cbn [encodeQuanta]. cbv zeta. rewrite bytes_value by done.
    sextets. rewrite Z.div_1_r.
    set (v := code a * 65536 + code b * 256 + code c).
    destruct (encodeChar_decodeMap (v / 262144 mod 64)
                ltac:(apply Z.mod_pos_bound; lia)) as [Hx Hxl].
    destruct (encodeChar_decodeMap (v / 4096 mod 64)
                ltac:(apply Z.mod_pos_bound; lia)) as [Hy Hyl].
    destruct (encodeChar_decodeMap (v / 64 mod 64)
                ltac:(apply Z.mod_pos_bound; lia)) as [Hz Hzl].
    destruct (encodeChar_decodeMap (v mod 64)
                ltac:(apply Z.mod_pos_bound; lia)) as [Hw Hwl].
    split; [| by repeat constructor].
    cbn [Base64.decodeQuanta]. rewrite Hx, Hy, Hz, Hw, IHd. cbv zeta.
    rewrite val_value by (try apply Z.mod_pos_bound; lia).
    rewrite !Z.shiftr_div_pow2 by lia.
    change (2 ^ 16) with 65536. change (2 ^ 8) with 256.
    do 2 f_equal; [| f_equal; [| f_equal]]; apply byte_mod; subst v;
      Z.to_euclidean_division_equations; lia.
Qed.

Lemma filter_all {A : Type} (f : A -> bool) (l : list A) :
  Forall (fun x => f x = true) l -> List.filter f l = l.
Proof.
  induction 1 as [| x l Hx _ IH]; [done |]. simpl. by rewrite Hx, IH.
Qed.

Lemma DecodeString_base64 (s : string) :
  Base64.DecodeString (base64 s) = Some s.
Proof.
  unfold Base64.DecodeString, base64.
  rewrite list_ascii_of_string_of_list_ascii.
  destruct (decode_encode_quanta (list_ascii_of_string s)) as [Hd Hf].
  rewrite filter_all.
  - by rewrite Hd, string_of_list_ascii_of_string.
  - eapply Forall_impl; [exact Hf |]. intros c Hc. simpl. by rewrite Hc.
Qed.

(** The header of the alice scenario is the one the README's call sends
    for alice@example.com and the password pw. *)
Example basicAuth_alice :
  basicAuth "alice@example.com" "pw" = Doubles.aliceAuth.
Proof. reflexivity. Qed.

Lemma basicCredentials_basicAuth (u p : string) :
  Contains u ":" = false -> basicCredentials (basicAuth u p) = Some (u, p).
Proof.
  intros Hu. unfold basicCredentials, basicAuth. simpl.
  change ("" +:+ base64 (u +:+ ":" +:+ p)) with (base64 (u +:+ ":" +:+ p)).
  assert (Hp : HasPrefix (base64 (u +:+ ":" +:+ p)) "" = true)
    by (by destruct (base64 _)).
  rewrite Hp, DecodeString_base64. by apply cut_append.
Qed.

(** X18. Credentials sent as the README shows come through unchanged: for a
    user name without a colon and any password (colons, bytes of any value,
    any length), the header [Basic base64(username:password)] decodes to
    that very text, the handler reads that user name and that password off
    it, asks the limiter about that user and does not answer 401. *)
Theorem credentials_round_trip (u p : string)
        (titleUnicode : string -> string)
        (jsonDecode : string -> option EmailRequest)
        (SendMail : SendMailCall -> option string)
        (rl : RateLimiter) (now : Time) (body : string) :
  Contains u ":" = false ->
  let o := GetMailHandler titleUnicode jsonDecode SendMail rl now
                          (mkRequest "POST" (basicAuth u p) body) in
  Base64.DecodeString (base64 (u +:+ ":" +:+ p)) = Some (u +:+ ":" +:+ p) /\
  basicCredentials (basicAuth u p) = Some (u, p) /\
  limiter o = (Allow now u rl).2 /\
  StatusCode (response o) <> StatusUnauthorized /\
  (forall call, In call (relayed o) ->
                smtpFrom call = u /\
                smtpAuth call = mkPlainAuth "" u p "box.domain.com").
Proof.
  intros Hu o. pose proof (basicCredentials_basicAuth u p Hu) as Hc.
  split; [apply DecodeString_base64 |]. split; [exact Hc |].
  destruct (handler_cases titleUnicode jsonDecode SendMail rl now
              (mkRequest "POST" (basicAuth u p) body))
    as [[Hm _] | [(_ & Hn & _) | (u' & p' & _ & Hc' & Hl & Hcase)]];
    cbn [Method Authorization Body] in *.
  - done.
  - congruence.
  - fold o in Hl, Hcase. rewrite Hc in Hc'. injection Hc' as <- <-.
    split; [exact Hl |].
    destruct Hcase as [(_ & -> & ->) | [(_ & _ & -> & ->) | (e & _ & _ & Hcase)]];
      [by split.. |].
    destruct Hcase as [(_ & -> & ->) | (_ & -> & ->)]; [by split |].
    split.
    + by destruct (SendMail _).
    + by intros call [<- | []].
Qed.

Lemma credentials_round_trip_witness :
  let o := GetMailHandler Doubles.titleAsIs (Doubles.decodeAs Doubles.hello) Doubles.relayAccepts
                          (NewRateLimiter 10) 0
                          (mkRequest "POST" (basicAuth "bob" "a:b c") "{}") in
  Base64.DecodeString (base64 ("bob" +:+ ":" +:+ "a:b c"))
  = Some ("bob" +:+ ":" +:+ "a:b c") /\
  basicCredentials (basicAuth "bob" "a:b c") = Some ("bob", "a:b c") /\
  limiter o = (Allow 0 "bob" (NewRateLimiter 10)).2 /\
  StatusCode (response o) <> StatusUnauthorized /\
  (forall call, In call (relayed o) ->
                smtpFrom call = "bob" /\
                smtpAuth call = mkPlainAuth "" "bob" "a:b c" "box.domain.com").
Proof.
  apply (credentials_round_trip "bob" "a:b c" Doubles.titleAsIs (Doubles.decodeAs Doubles.hello)
           Doubles.relayAccepts (NewRateLimiter 10) 0 "{}").
  reflexivity.
Defined.

(** ** Credentials that do not decode *)

(** What decodes is made of quanta of four characters. *)
Lemma decodeQuanta_quads (n : nat) (src out : list ascii) :
  (length src <= n)%nat -> Base64.decodeQuanta src = Some out ->
  exists k, length src = (4 * k)%nat.
Proof.
  revert src out. induction n as [| n IH]; intros src out Hlen Hdec.
  - destruct src; [by exists 0%nat | simpl in Hlen; lia].
  - destruct src as [| a [| b [| c [| d rest]]]]; try discriminate.
    + by exists 0%nat.
    + cbn [Base64.decodeQuanta] in Hdec.
      assert (Hrest : rest = [] \/ exists out', Base64.decodeQuanta rest = Some out').
      { destruct (Base64.decodeMap a); [| discriminate].
        destruct (Base64.decodeMap b); [| discriminate].
        destruct (Base64.decodeMap c); [destruct (Base64.decodeMap d) |].
        - destruct (Base64.decodeQuanta rest) as [out' |]; [| discriminate].
          right. by exists out'.
        - destruct (Ascii.eqb d Base64.padChar); [| discriminate].
          cbn [andb] in Hdec. left.
          destruct (bool_decide (rest = [])) eqn:Hr; [| discriminate].
          by apply bool_decide_eq_true in Hr.
        - destruct (Ascii.eqb c Base64.padChar && Ascii.eqb d Base64.padChar);
            [| discriminate].
          cbn [andb] in Hdec. left.
          destruct (bool_decide (rest = [])) eqn:Hr; [| discriminate].
          by apply bool_decide_eq_true in Hr. }
      destruct Hrest as [-> | [out' Hout']]; [by exists 1%nat |].
      destruct (IH rest out' ltac:(simpl in Hlen; lia) Hout') as [k Hk].
      exists (S k). simpl. lia.
Qed.

(** X19. Credentials whose base64 text is not padded to a multiple of four
    characters (line breaks not counted) are refused: a POST with such an
    [Authorization] header of scheme Basic is answered 401 with
    [Invalid authentication format], without a call of the limiter or of
    the relay, whatever its body. *)
Theorem unpadded_credentials_refused
        (titleUnicode : string -> string)
        (jsonDecode : string -> option EmailRequest)
        (SendMail : SendMailCall -> option string)
        (rl : RateLimiter) (now : Time) (r : Request) :
  Method r = MethodPost ->
  HasPrefix (Authorization r) "Basic " = true ->
  (length (List.filter (fun c => negb (Base64.isLineBreak c))
                       (list_ascii_of_string (sliceFrom 6 (Authorization r))))
   mod 4 <> 0)%nat ->
  GetMailHandler titleUnicode jsonDecode SendMail rl now r
  = mkOutcome (httpError "Invalid authentication format" StatusUnauthorized)
              rl [].
Proof.
  intros Hm Hp Hlen.
  assert (Hd : Base64.DecodeString (sliceFrom 6 (Authorization r)) = None).
  { unfold Base64.DecodeString.
    destruct (Base64.decodeQuanta _) as [out |] eqn:Hdec; [| done].
    exfalso. apply Hlen.
    destruct (decodeQuanta_quads _ _ _ (Nat.le_refl _) Hdec) as [k ->].
    by rewrite Nat.mul_comm, Nat.Div0.mod_mul. }
  unfold GetMailHandler. rewrite Hm, String.eqb_refl. simpl negb. cbv iota zeta.
  rewrite (HasPrefix_Basic_nonempty _ Hp), Hp. simpl orb. cbv iota.
  by rewrite Hd.
Qed.

Lemma unpadded_credentials_refused_witness :
  GetMailHandler Doubles.titleAsIs (Doubles.decodeAs Doubles.hello) Doubles.relayAccepts
                 (NewRateLimiter 10) 0
                 (mkRequest "POST" "Basic YWxpY2VAZXhhbXBsZS5jb206cHc" "{}")
  = mkOutcome (httpError "Invalid authentication format" StatusUnauthorized)
              (NewRateLimiter 10) [].
Proof.
  apply (unpadded_credentials_refused Doubles.titleAsIs (Doubles.decodeAs Doubles.hello)
           Doubles.relayAccepts (NewRateLimiter 10) 0
           (mkRequest "POST" "Basic YWxpY2VAZXhhbXBsZS5jb206cHc" "{}")).
  - reflexivity.
  - reflexivity.
  - vm_compute. discriminate.
Defined.

(** ** What [isHTML] looks at *)

Lemma toLower_idem (c : ascii) : toLower (toLower c) = toLower c.
Proof. every_byte c. Qed.

Lemma toLower_angle (c : ascii) :
  Ascii.eqb (toLower c) "<" = Ascii.eqb c "<".
Proof. every_byte c. Qed.

Lemma toLower_isSpace (c : ascii) : Html.isSpace (toLower c) = Html.isSpace c.
Proof. every_byte c. Qed.

Lemma toLower_digit (c : ascii) :
  (49 <=? code (toLower c)) && (code (toLower c) <=? 54)
  = (49 <=? code c) && (code c <=? 54).
Proof. every_byte c. Qed.

Lemma toLower_code (c : ascii) (n : Z) :
  128 <= n -> (code (toLower c) =? n) = (code c =? n).
Proof.
  intros Hn.
  assert (Hc : toLower c = c \/ code c < 128 /\ code (toLower c) < 128)
    by (destruct c as [[] [] [] [] [] [] [] []]; vm_compute; auto).
  destruct Hc as [-> | [H1 H2]]; [done |].
  destruct (code (toLower c) =? n) eqn:E1; destruct (code c =? n) eqn:E2;
    try done; lia.
Qed.

(** Every alternative of the pattern begins with [<]. *)

Lemma foldPrefix_lower (lit s : string) :
  Html.foldPrefix lit (lowerASCII s) = Html.foldPrefix lit s.
Proof.
  revert s. induction lit as [| p lit IH]; intros s; [by destruct s |].
  destruct s as [| c s]; [done |]. simpl.
  by rewrite toLower_idem, IH.
Qed.

Lemma spacesThenHref_lower (s : string) :
  Html.spacesThenHref (lowerASCII s) = Html.spacesThenHref s.
Proof.
  induction s as [| c s IH]; [done |].
  change (lowerASCII (String c s)) with (String (toLower c) (lowerASCII s)).
  cbn [Html.spacesThenHref].
  change (String (toLower c) (lowerASCII s)) with (lowerASCII (String c s)).
  by rewrite foldPrefix_lower, toLower_isSpace, IH.
Qed.

Lemma matchHere_lower (s : string) :
  Html.matchHere (lowerASCII s) = Html.matchHere s.
Proof.
  unfold Html.matchHere. rewrite !foldPrefix_lower.
  assert (Ha : Html.anchorHref (lowerASCII s) = Html.anchorHref s).
  { destruct s as [| lt [| a [| sp rest]]]; try done.
    cbn [lowerASCII Html.anchorHref].
    rewrite toLower_idem, toLower_isSpace, spacesThenHref_lower.
    by rewrite (toLower_angle lt). }
  assert (Hs : Html.spanTag (lowerASCII s) = Html.spanTag s).
  { destruct s as [| lt [| c [| c' rest]]]; [done | ..].
    - cbn [lowerASCII Html.spanTag]. by rewrite (toLower_angle lt).
    - cbn [lowerASCII Html.spanTag Html.foldPrefix].
      by rewrite (toLower_angle lt), toLower_idem.
    - cbn [lowerASCII Html.spanTag]. rewrite (toLower_angle lt), toLower_idem.
      change (String (toLower c') (lowerASCII rest))
        with (lowerASCII (String c' rest)).
      rewrite !foldPrefix_lower, !toLower_code by lia. done. }
  assert (Hh : Html.heading (lowerASCII s) = Html.heading s).
  { destruct s as [| lt [| h [| d rest]]]; try done.
    cbn [lowerASCII Html.heading].
    by rewrite (toLower_angle lt), toLower_idem, <- !andb_assoc, toLower_digit. }
  by rewrite Ha, Hs, Hh.
Qed.

Lemma MatchString_lower (s : string) :
  Html.MatchString (lowerASCII s) = Html.MatchString s.
Proof.
  induction s as [| c s IH].
  - reflexivity.
  - change (lowerASCII (String c s)) with (String (toLower c) (lowerASCII s)).
    cbn [Html.MatchString].
    change (String (toLower c) (lowerASCII s)) with (lowerASCII (String c s)).
    by rewrite matchHere_lower, IH.
Qed.

(** X20. The test for HTML does not look at the case of letters: two texts
    that differ only in the case of ASCII letters are both taken for HTML
    or both for plain text. *)
Theorem isHTML_ignores_case (s s' : string) :
  lowerASCII s = lowerASCII s' -> Html.isHTML s = Html.isHTML s'.
Proof.
  intros Heq. unfold Html.isHTML.
  by rewrite <- (MatchString_lower s), <- (MatchString_lower s'), Heq.
Qed.

Lemma isHTML_ignores_case_witness :
  Html.isHTML "<TABLE><tr>" = Html.isHTML "<table><TR>".
Proof.
  apply (isHTML_ignores_case "<TABLE><tr>" "<table><TR>"). reflexivity.
Defined.

(** Every alternative of the pattern begins with [<]. *)
Lemma matchHere_angle (s : string) :
  Html.matchHere s = true -> exists s', s = String "<" s'.
Proof.
  destruct s as [| c s]; [discriminate |].
  destruct (Ascii.eqb c "<") eqn:Hc.
  - apply Ascii.eqb_eq in Hc. subst. eauto.
  - intros Hm. exfalso. unfold Html.matchHere in Hm.
    assert (Hf : forall lit, Html.foldPrefix (String "<" lit) (String c s) = false).
    { intros lit. cbn [Html.foldPrefix].
      change (toLower "<") with "<"%char. by rewrite toLower_angle, Hc. }
    rewrite !Hf in Hm.
    assert (Ha : Html.anchorHref (String c s) = false).
    { destruct s as [| a [| sp rest]]; try done.
      cbn [Html.anchorHref]. by rewrite Hc. }
    assert (Hs : Html.spanTag (String c s) = false)
      by (cbn [Html.spanTag]; by rewrite Hc).
    assert (Hh : Html.heading (String c s) = false).
    { destruct s as [| h [| d rest]]; try done.
      cbn [Html.heading]. by rewrite Hc. }
    rewrite Ha, Hs, Hh in Hm. discriminate.
Qed.

(** X21. Text without the character [<] is never taken for HTML: its
    message goes out as [text/plain]. *)
Theorem isHTML_needs_angle (content : string) :
  Contains content "<" = false -> Html.isHTML content = false.
Proof.
  unfold Html.isHTML. induction content as [| c s IH]; [done |].
  cbn [Contains]. intros [Hc Hn]%orb_false_iff.
  cbn [Html.MatchString]. rewrite (IH Hn), orb_false_r.
  destruct (Html.matchHere (String c s)) eqn:Hm; [| done].
  destruct (matchHere_angle _ Hm) as [s' [= -> _]]. discriminate.
Qed.

Lemma isHTML_needs_angle_witness :
  Html.isHTML "if a > b then html & body are fine" = false.
Proof.
  apply (isHTML_needs_angle "if a > b then html & body are fine").
  reflexivity.
Defined.

(** Each alternative looks at a prefix only. *)

Lemma foldPrefix_app (lit s post : string) :
  Html.foldPrefix lit s = true -> Html.foldPrefix lit (s +:+ post) = true.
Proof.
  revert s. induction lit as [| p lit IH]; intros s; [done |].
  destruct s as [| c s]; [discriminate |].
  change (String c s +:+ post) with (String c (s +:+ post)).
  cbn [Html.foldPrefix]. intros [-> H]%andb_true_iff. by rewrite IH.
Qed.

Lemma spacesThenHref_app (s post : string) :
  Html.spacesThenHref s = true -> Html.spacesThenHref (s +:+ post) = true.
Proof.
  induction s as [| c s IH].
  - discriminate.
  - change (String c s +:+ post) with (String c (s +:+ post)).
    cbn [Html.spacesThenHref].
    change (String c (s +:+ post)) with (String c s +:+ post).
    intros [H | [-> H]%andb_true_iff]%orb_true_iff.
    + by rewrite (foldPrefix_app _ _ _ H).
    + by rewrite (IH H), orb_true_r.
Qed.

Lemma matchHere_app (s post : string) :
  Html.matchHere s = true -> Html.matchHere (s +:+ post) = true.
Proof.
  unfold Html.matchHere. rewrite !orb_true_iff.
  intros H.
  repeat match type of H with
         | _ \/ _ => destruct H as [H | H]
         end;
    try (rewrite (foldPrefix_app _ _ post H); tauto).
  - do 4 left. right.
    destruct s as [| lt [| a [| sp rest]]]; try done.
    change (String lt (String a (String sp rest)) +:+ post)
      with (String lt (String a (String sp (rest +:+ post)))).
    cbn [Html.anchorHref] in *.
    apply andb_true_iff in H as [H1 H2]. rewrite H1.
    by apply spacesThenHref_app.
  - do 2 left. right.
    destruct s as [| lt [| c rest]]; [done | |].
    { cbn [Html.spanTag] in H. by rewrite andb_false_r in H. }
    change (String lt (String c rest) +:+ post)
      with (String lt (String c (rest +:+ post))).
    cbn [Html.spanTag] in *.
    apply andb_true_iff in H as [-> H2]. cbn [andb].
    apply orb_true_iff in H2 as [H2 | H2].
    + apply andb_true_iff in H2 as [-> H2].
      by rewrite (foldPrefix_app _ _ post H2).
    + destruct rest as [| c' rest]; [done |].
      change (String c' rest +:+ post) with (String c' (rest +:+ post)).
      apply andb_true_iff in H2 as [-> H2].
      rewrite (foldPrefix_app _ _ post H2). apply orb_true_r.
  - left. right.
    destruct s as [| lt [| h [| d rest]]]; done.
Qed.

Lemma MatchString_app (s post : string) :
  Html.MatchString s = true -> Html.MatchString (s +:+ post) = true.
Proof.
  induction s as [| c s IH].
  - discriminate.
  - change (String c s +:+ post) with (String c (s +:+ post)).
    cbn [Html.MatchString].
    change (String c (s +:+ post)) with (String c s +:+ post).
    intros [H | H]%orb_true_iff.
    + by rewrite (matchHere_app _ _ H).
    + by rewrite (IH H), orb_true_r.
Qed.

(** X22. Text that holds a fragment taken for HTML is taken for HTML,
    whatever stands before and after the fragment. *)
Theorem isHTML_fragment (pre s post : string) :
  Html.isHTML s = true -> Html.isHTML (pre +:+ s +:+ post) = true.
Proof.
  unfold Html.isHTML. intros H.
  by apply MatchString_skip, MatchString_app.
Qed.

Lemma isHTML_fragment_witness :
  Html.isHTML ("Dear Bob, " +:+ "<A  HREF" +:+ "=x>here</a>") = true.
Proof.
  apply (isHTML_fragment "Dear Bob, " "<A  HREF" "=x>here</a>"). reflexivity.
Defined.

(** ** The message, read back *)

Lemma Contains_app (a b : string) (c : ascii) :
  Contains (a +:+ b) c = Contains a c || Contains b c.
Proof.
  induction a as [| x a IH]; [done |].
  change (String x a +:+ b) with (String x (a +:+ b)).
  cbn [Contains]. by rewrite IH, orb_assoc.
Qed.

Lemma oneLine_cons (s : string) (texts : list string) :
  oneLine (s :: texts) = true <-> Contains s lf = false /\ oneLine texts = true.
Proof.
  unfold oneLine. cbn [forallb]. rewrite andb_true_iff, negb_true_iff. done.
Qed.

Lemma capital_lf (c : ascii) : Ascii.eqb (capital c) lf = Ascii.eqb c lf.
Proof. every_byte c. Qed.

Lemma capitalizeWords_oneLine (separates : ascii -> bool) (atWordStart : bool)
      (s : string) :
  Contains (capitalizeWords separates atWordStart s) lf = Contains s lf.
Proof.
  revert atWordStart. induction s as [| c s IH]; intros atWordStart; [done |].
  cbn [capitalizeWords Contains]. rewrite IH.
  destruct atWordStart; [| done]. by rewrite capital_lf.
Qed.

Lemma Join_oneLine (elems : list string) (sep : string) :
  oneLine elems = true -> Contains sep lf = false ->
  Contains (Join elems sep) lf = false.
Proof.
  intros Hall Hsep. induction elems as [| a elems IH]; [done |].
  apply oneLine_cons in Hall as [Ha Hall].
  destruct elems as [| b elems]; [done |].
  change (Join (a :: b :: elems) sep) with (a +:+ sep +:+ Join (b :: elems) sep).
  rewrite !Contains_app, Ha, Hsep. by apply IH.
Qed.

Lemma beforeAt_oneLine (s : string) :
  Contains s lf = false -> Contains (beforeAt s) lf = false.
Proof.
  induction s as [| c s IH]; [done |].
  cbn [Contains beforeAt]. intros [Hc Hs]%orb_false_iff.
  destruct (Ascii.eqb c "@"); [done |].
  cbn [Contains]. rewrite Hc. by apply IH.
Qed.

Lemma plainText_beforeAt (s : string) :
  plainText s = true -> plainText (beforeAt s) = true.
Proof.
  induction s as [| c s IH]; [done |].
  cbn [plainText beforeAt]. intros [Hc Hs]%andb_true_iff.
  destruct (Ascii.eqb c "@"); [done |].
  cbn [plainText]. rewrite Hc. by apply IH.
Qed.

(** The display title holds no line feed when neither the user name nor
    the title does, for a given title and for a user name that is ASCII
    text. *)
Lemma displayTitle_oneLine (titleUnicode : string -> string)
      (username : string) (e : EmailRequest) :
  Contains username lf = false -> Contains (Title e) lf = false ->
  negb (String.eqb (Title e) "") || plainText username = true ->
  Contains (displayTitle titleUnicode username e) lf = false.
Proof.
  intros Hu Ht Hd. unfold displayTitle, titleWith.
  destruct (String.eqb (Title e) ""); cbn [negb orb] in Hd.
  - destruct (among "@" username); [| done].
    rewrite (plainText_beforeAt username Hd).
    rewrite !Contains_app, Hu. unfold capitalizedByWords.
    by rewrite capitalizeWords_oneLine, beforeAt_oneLine.
  - by rewrite !Contains_app, Hu, Ht.
Qed.

Lemma splitAtBlank_cons (c c' : ascii) (body : string) :
  splitAtBlank (String c (String c' body))
  = if Ascii.eqb c lf && Ascii.eqb c' lf then Some (EmptyString, body)
    else match splitAtBlank (String c' body) with
         | Some (h, b) => Some (String c h, b)
         | None => None
         end.
Proof. reflexivity. Qed.

Lemma append_cons (x : ascii) (l s : string) :
  String x l +:+ s = String x (l +:+ s).
Proof. reflexivity. Qed.

Lemma append_lf_cons (l s : string) :
  exists y t, l +:+ String lf s = String y t.
Proof. destruct l as [| y l]; [by exists lf, s | by exists y, (l +:+ String lf s)]. Qed.

(** A line without a line feed, then the rest. *)
Lemma splitAtBlank_line (l rest h b : string) (c : ascii) :
  Contains l lf = false -> Ascii.eqb c lf = false ->
  splitAtBlank (String c rest) = Some (h, b) ->
  splitAtBlank (l +:+ String lf (String c rest))
  = Some (l +:+ String lf h, b).
Proof.
  intros Hl Hc Hrest. induction l as [| x l IH].
  - change ("" +:+ String lf (String c rest)) with (String lf (String c rest)).
    change ("" +:+ String lf h) with (String lf h).
    by rewrite splitAtBlank_cons, Hc, andb_false_r, Hrest.
  - cbn [Contains] in Hl. apply orb_false_iff in Hl as [Hx Hl].
    rewrite !append_cons.
    destruct (append_lf_cons l (String c rest)) as (y & t & Hs).
    rewrite Hs in *. by rewrite splitAtBlank_cons, Hx, (IH Hl).
Qed.

(** The last header line, the blank line, the body. *)
Lemma splitAtBlank_last (l b : string) :
  Contains l lf = false ->
  splitAtBlank (l +:+ String lf (String lf b)) = Some (l, b).
Proof.
  intros Hl. induction l as [| x l IH].
  - reflexivity.
  - cbn [Contains] in Hl. apply orb_false_iff in Hl as [Hx Hl].
    rewrite !append_cons.
    destruct (append_lf_cons l (String lf b)) as (y & t & Hs).
    rewrite Hs in *. by rewrite splitAtBlank_cons, Hx, (IH Hl).
Qed.

Lemma Join_cons2 (a b : string) (elems : list string) (sep : string) :
  Join (a :: b :: elems) sep = a +:+ sep +:+ Join (b :: elems) sep.
Proof. reflexivity. Qed.

Lemma Join_head (a : string) (elems : list string) (sep : string) (c : ascii)
      (r : string) :
  a = String c r -> exists t, Join (a :: elems) sep = String c t.
Proof.
  intros ->. destruct elems as [| b elems]; [by exists r |].
  rewrite Join_cons2. by exists (r +:+ sep +:+ Join (b :: elems) sep).
Qed.

Lemma headerBlock_cons (l : string) (headers : list string) :
  headerBlock (l :: headers) = l +:+ String lf (headerBlock headers).
Proof. reflexivity. Qed.

(** The header lines, none empty and none with a line feed in it, then the
    blank line and the body: the first blank line is the one between. *)
Lemma splitAtBlank_mime (headers : list string) (body : string) :
  headers <> [] -> oneLine headers = true ->
  Forall (fun l => l <> EmptyString) headers ->
  splitAtBlank (mimeMessage headers body) = Some (Join headers lineFeed, body).
Proof.
  unfold mimeMessage. intros Hne Hone Hfull.
  induction headers as [| l headers IH]; [done |]. clear Hne.
  apply oneLine_cons in Hone as [Hl Hone].
  apply Forall_cons in Hfull as [_ Hfull].
  rewrite headerBlock_cons, append_assoc.
  destruct headers as [| l2 headers].
  - cbn [Join headerBlock]. by apply splitAtBlank_last.
  - specialize (IH ltac:(done) Hone Hfull).
    pose proof Hone as [Hl2 _]%oneLine_cons.
    pose proof Hfull as [Hn2 _]%Forall_cons.
    destruct l2 as [| c r]; [done |].
    rewrite Join_cons2.
    rewrite headerBlock_cons in *. rewrite !append_cons in *.
    change (lineFeed +:+ Join (String c r :: headers) lineFeed)
      with (String lf (Join (String c r :: headers) lineFeed)).
    assert (Hcl : Ascii.eqb c lf = false).
    { cbn [Contains] in Hl2. by apply orb_false_iff in Hl2 as [? _]. }
    by rewrite (splitAtBlank_line l _ _ body c Hl Hcl IH).
Qed.

Lemma relayCall_reads_back (titleUnicode : string -> string)
      (username password : string) (e : EmailRequest) :
  oneLine (username :: Title e :: Subject e :: To e) = true ->
  negb (String.eqb (Title e) "") || plainText username = true ->
  splitAtBlank (smtpMsg (relayCall titleUnicode username password e))
  = Some (Join (("From: " +:+ displayTitle titleUnicode username e)
                  :: ("To: " +:+ Join (To e) ", ")
                  :: ("Subject: " +:+ Subject e)
                  :: (if Html.isHTML (Content e)
                      then ["MIME-Version: 1.0";
                            "Content-Type: text/html; charset=UTF-8"]
                      else ["Content-Type: text/plain; charset=UTF-8"]))
               lineFeed,
          Content e).
Proof.
  intros Hone Hd.
  apply oneLine_cons in Hone as [Hu Hone].
  apply oneLine_cons in Hone as [Ht Hone].
  apply oneLine_cons in Hone as [Hs Hto].
  pose proof (displayTitle_oneLine titleUnicode username e Hu Ht Hd) as Hfrom.
  pose proof (Join_oneLine (To e) ", " Hto eq_refl) as Hjoin.
  cbn [relayCall smtpMsg]. rewrite fromTitle_displayTitle.
  destruct (Html.isHTML (Content e)).
  - rewrite buildMessage_html. apply splitAtBlank_mime; [done | |].
    + unfold oneLine. cbn [forallb].
      rewrite !Contains_app, Hfrom, Hjoin, Hs. reflexivity.
    + repeat constructor; discriminate.
  - rewrite buildMessage_plain. apply splitAtBlank_mime; [done | |].
    + unfold oneLine. cbn [forallb].
      rewrite !Contains_app, Hfrom, Hjoin, Hs. reflexivity.
    + repeat constructor; discriminate.
Qed.

(** X23. What the handler hands to the relay reads back as it was meant.
    When neither the user name, nor the title, nor a recipient, nor the
    subject holds a line feed, and the title is given or the user name is
    ASCII text, the first blank line of the message is the one the handler
    has put after its header lines: a reader finds before it exactly the
    header lines From (with the display title), To, Subject, MIME-Version
    for HTML, and Content-Type, a line feed between each two, and after
    it exactly the content, whatever it holds. *)
Theorem message_reads_back (titleUnicode : string -> string)
        (jsonDecode : string -> option EmailRequest)
        (SendMail : SendMailCall -> option string)
        (rl : RateLimiter) (now : Time) (r : Request)
        (username password : string) (e : EmailRequest) (call : SendMailCall) :
  In call (relayed (GetMailHandler titleUnicode jsonDecode SendMail rl now r)) ->
  basicCredentials (Authorization r) = Some (username, password) ->
  jsonDecode (Body r) = Some e ->
  oneLine (username :: Title e :: Subject e :: To e) = true ->
  negb (String.eqb (Title e) "") || plainText username = true ->
  let headers :=
    ("From: " +:+ displayTitle titleUnicode username e)
      :: ("To: " +:+ Join (To e) ", ")
      :: ("Subject: " +:+ Subject e)
      :: (if Html.isHTML (Content e)
          then ["MIME-Version: 1.0"; "Content-Type: text/html; charset=UTF-8"]
          else ["Content-Type: text/plain; charset=UTF-8"]) in
  splitAtBlank (smtpMsg call) = Some (Join headers lineFeed, Content e).
Proof.
  intros Hin Hc Hj Hone Hd headers. subst headers.
  destruct (handler_cases titleUnicode jsonDecode SendMail rl now r)
    as [[_ Ho] | [(_ & _ & _ & _ & Hr) | (u & p & _ & Hc' & _ & Hcase)]].
  - rewrite Ho in Hin. destruct Hin.
  - rewrite Hr in Hin. destruct Hin.
  - destruct Hcase as [(_ & _ & Hr) | [(_ & _ & _ & Hr) | (e' & _ & Hj' & Hcase)]];
      [rewrite Hr in Hin; destruct Hin.. |].
    destruct Hcase as [(_ & _ & Hr) | (_ & Hr & _)];
      [rewrite Hr in Hin; destruct Hin |].
    rewrite Hr in Hin. destruct Hin as [<- | []].
    assert (u = username /\ p = password /\ e' = e) as (-> & -> & ->)
      by (split; [| split]; congruence).
    by apply relayCall_reads_back.
Qed.

Lemma message_reads_back_witness :
  splitAtBlank <$>
    (smtpMsg <$>
       relayed (GetMailHandler Doubles.titleAsIs
                  (Doubles.decodeAs
                     (mkEmailRequest ["bob@example.com"; "carol@example.com"]
                        "Hi" ("<p>one</p>" +:+ lineFeed +:+ lineFeed +:+ "two")
                        ""))
                  Doubles.relayAccepts (NewRateLimiter 10) 0 Doubles.alicePost))
  = [Some ("From: " +:+ doubleQuote +:+ "Alice" +:+ doubleQuote
           +:+ " <alice@example.com>" +:+ lineFeed
           +:+ "To: bob@example.com, carol@example.com" +:+ lineFeed
           +:+ "Subject: Hi" +:+ lineFeed
           +:+ "MIME-Version: 1.0" +:+ lineFeed
           +:+ "Content-Type: text/html; charset=UTF-8",
           "<p>one</p>" +:+ lineFeed +:+ lineFeed +:+ "two")].
Proof.
  assert (Hr : relayed (GetMailHandler Doubles.titleAsIs
                  (Doubles.decodeAs
                     (mkEmailRequest ["bob@example.com"; "carol@example.com"]
                        "Hi" ("<p>one</p>" +:+ lineFeed +:+ lineFeed +:+ "two")
                        ""))
                  Doubles.relayAccepts (NewRateLimiter 10) 0 Doubles.alicePost)
               = [relayCall Doubles.titleAsIs "alice@example.com" "pw"
                    (mkEmailRequest ["bob@example.com"; "carol@example.com"]
                       "Hi" ("<p>one</p>" +:+ lineFeed +:+ lineFeed +:+ "two")
                       "")])
    by (vm_compute; reflexivity).
  rewrite Hr. cbn [fmap list_fmap]. apply (f_equal (fun x => [x])).
  apply (message_reads_back
           Doubles.titleAsIs
           (Doubles.decodeAs
              (mkEmailRequest ["bob@example.com"; "carol@example.com"]
                 "Hi" ("<p>one</p>" +:+ lineFeed +:+ lineFeed +:+ "two") ""))
           Doubles.relayAccepts (NewRateLimiter 10) 0 Doubles.alicePost
           "alice@example.com" "pw"
           (mkEmailRequest ["bob@example.com"; "carol@example.com"]
              "Hi" ("<p>one</p>" +:+ lineFeed +:+ lineFeed +:+ "two") "")
           (relayCall Doubles.titleAsIs "alice@example.com" "pw"
              (mkEmailRequest ["bob@example.com"; "carol@example.com"]
                 "Hi" ("<p>one</p>" +:+ lineFeed +:+ lineFeed +:+ "two") ""))).
  - rewrite Hr. left. reflexivity.
  - reflexivity.
  - reflexivity.
  - reflexivity.
  - reflexivity.
Defined.
